(** * Hydraulic network calculator: the coordinate and geometry engine

    A shallow embedding of the SVG port parser, the ports, the hydraulic
    objects, the orthogonal pipes, the transform controller, the connection
    controller, the component controller and the constraints on the
    properties, followed by the properties proved about them.

    Conventions of the embedding:
    - a Python [float] (and Qt's [qreal]) is a real number [R]: the
      arithmetic is the exact one, rounding errors of the binary
      representation are not modelled;
    - a Python [str] is a [string]; character classes and case folding are
      the ASCII ones;
    - a Python object that is shared and mutated (a component in the scene,
      a port of a component) is designated by its position in the list that
      owns it, and a method that mutates it returns the new value;
    - a Python exception is a [Raise] result. *)

From Stdlib Require Import Reals Lra Lia ZArith List String Ascii.
From Stdlib Require Import Sorting.Permutation Sorting.Sorted.
From stdpp Require Import base option list strings gmap pretty.
Import ListNotations.

Local Open Scope string_scope.
Local Open Scope list_scope.
Local Open Scope R_scope.

(** ** Part I. The model *)

(** *** Python results *)

Inductive py_exn : Type :=
| ZeroDivisionError
| ValueError.

Inductive result (A : Type) : Type :=
| Ok (a : A)
| Raise (e : py_exn).

Arguments Ok {A} a.
Arguments Raise {A} e.

Definition bind_result {A B : Type} (r : result A) (k : A -> result B) : result B :=
  match r with
  | Ok a => k a
  | Raise e => Raise e
  end.

(** Python's [a / b] on floats. *)
Definition py_div (a b : R) : result R :=
  if Req_dec_T b 0 then Raise ZeroDivisionError else Ok (a / b).

(** The integer nearest to [r], a tie going to the even neighbour. *)
Definition round_half_even (r : R) : Z :=
  let f := Int_part r in
  let d := r - IZR f in
  if Rlt_dec d (1 / 2) then f
  else if Rlt_dec (1 / 2) d then (f + 1)%Z
  else if Z.even f then f else (f + 1)%Z.

(** Python's [round(x, ndigits)] for [ndigits >= 0]. *)
Definition py_round (v : R) (ndigits : nat) : R :=
  IZR (round_half_even (v * 10 ^ ndigits)) / 10 ^ ndigits.

(** *** Qt points *)

Record QPointF : Type := QPoint { px : R; py : R }.

(** [QPointF + QPointF]. *)
Definition padd (p q : QPointF) : QPointF :=
  QPoint (px p + px q) (py p + py q).


(** *** Python strings *)

Definition is_upper (c : ascii) : bool :=
  ((65 <=? nat_of_ascii c) && (nat_of_ascii c <=? 90))%nat.

(** [\d] on ASCII. *)
Definition is_digit (c : ascii) : bool :=
  ((48 <=? nat_of_ascii c) && (nat_of_ascii c <=? 57))%nat.

Definition is_alpha (c : ascii) : bool :=
  (((65 <=? nat_of_ascii c) && (nat_of_ascii c <=? 90)) ||
   ((97 <=? nat_of_ascii c) && (nat_of_ascii c <=? 122)))%nat.

(** [\w] on ASCII: letters, digits and the underscore. *)
Definition is_word (c : ascii) : bool :=
  is_alpha c || is_digit c || Ascii.eqb c "_".

Definition lower_ascii (c : ascii) : ascii :=
  if is_upper c then ascii_of_nat (nat_of_ascii c + 32) else c.

(** [s.lower()]. *)
Fixpoint lower (s : string) : string :=
  match s with
  | EmptyString => EmptyString
  | String c rest => String (lower_ascii c) (lower rest)
  end.

(** [needle in hay]. *)
Fixpoint contains (needle hay : string) : bool :=
  if String.prefix needle hay then true
  else match hay with
       | EmptyString => false
       | String _ rest => contains needle rest
       end.

Fixpoint all_chars (p : ascii -> bool) (s : string) : bool :=
  match s with
  | EmptyString => true
  | String c rest => p c && all_chars p rest
  end.

(** The longest prefix of [s] made of characters satisfying [p]. *)
Fixpoint take_while (p : ascii -> bool) (s : string) : string :=
  match s with
  | EmptyString => EmptyString
  | String c rest => if p c then String c (take_while p rest) else EmptyString
  end.

(** [re.search(r'(\d+)', s)]: the first maximal run of digits of [s],
    [None] when [s] holds no digit. *)
Fixpoint search_digits (s : string) : option string :=
  match s with
  | EmptyString => None
  | String c rest =>
      if is_digit c then Some (String c (take_while is_digit rest))
      else search_digits rest
  end.

(** [int(digits)] for a string of decimal digits. *)
Definition py_int (digits : string) : N :=
  fold_left (fun acc c => (acc * 10 + (N_of_ascii c - 48))%N)
            (list_ascii_of_string digits) 0%N.

(** *** Python's [list.sort(key=...)]

    The sort is stable; the model is the stable insertion sort. *)

Fixpoint insert_by_key {A : Type} (key : A -> N) (a : A) (l : list A) : list A :=
  match l with
  | [] => [a]
  | b :: rest =>
      if (key a <=? key b)%N then a :: b :: rest
      else b :: insert_by_key key a rest
  end.

Fixpoint sort_by_key {A : Type} (key : A -> N) (l : list A) : list A :=
  match l with
  | [] => []
  | a :: rest => insert_by_key key a (sort_by_key key rest)
  end.

(** *** config/svg_port_parser.py *)

Module SVGPortParser.

(** An [xml.etree.ElementTree.Element]: its tag, its attributes and its
    children. *)
#[warnings="-register-all"]
Inductive Element : Type :=
| Elem (tag : string) (attrib : gmap string string) (children : list Element).

Definition tag (e : Element) : string :=
  match e with Elem t _ _ => t end.

Definition attrib (e : Element) : gmap string string :=
  match e with Elem _ a _ => a end.

(** [elem.get(key, default)]. *)
Definition get (e : Element) (key default_value : string) : string :=
  default default_value (attrib e !! key).

(** [root.iter()]: the element and its descendants, in document order. *)
Fixpoint iter (e : Element) : list Element :=
  match e with
  | Elem _ _ children => e :: flat_map iter children
  end.

(** [tag.split('}')[-1]]: what follows the last closing brace. *)
Fixpoint after_last_brace (s : string) : string :=
  match s with
  | EmptyString => EmptyString
  | String c rest =>
      if contains "}" rest then after_last_brace rest
      else if Ascii.eqb c "}" then rest else s
  end.

(** [SVGPortParser._find_all_circles]. *)
Definition _find_all_circles (root : Element) : list Element :=
  filter (fun elem =>
            (if contains "}" (tag elem) then after_last_brace (tag elem)
             else tag elem) = "circle")
         (iter root).

(** [SVGPortParser.port_type_mapping], in the order of the dictionary. *)
Definition port_type_mapping : list (string * string) :=
  [ ("inlet", "input"); ("in", "input"); ("aspiration", "input");
    ("suction", "input"); ("entry", "input"); ("entree", "input");
    ("outlet", "output"); ("out", "output"); ("discharge", "output");
    ("refoulement", "output"); ("exit", "output"); ("sortie", "output");
    ("connection", "bidirectional"); ("conn", "bidirectional");
    ("both", "bidirectional"); ("bidirect", "bidirectional") ].

Definition newline : string := String (ascii_of_nat 10) EmptyString.

(** A regular expression ending in [$] matches up to the end of the string
    or up to a final newline. *)
Definition until_dollar (m : string -> bool) (s : string) : bool :=
  m s ||
  match String.length s with
  | O => false
  | S n => (String.substring n 1 s =? newline)%string && m (String.substring 0 n s)
  end.

Definition digits1 (s : string) : bool :=
  negb (s =? "")%string && all_chars is_digit s.

Definition words1 (s : string) : bool :=
  negb (s =? "")%string && all_chars is_word s.

(** [re.match(pattern, element_id, re.IGNORECASE)] for the three patterns of
    [port_id_patterns]; each starts with [port] in any case. *)
Definition after_port (s : string) : option string :=
  if (lower (String.substring 0 4 s) =? "port")%string
  then Some (String.substring 4 (String.length s - 4) s)
  else None.

Definition match_port_digits (s : string) : bool :=
  match after_port s with
  | Some rest => until_dollar digits1 rest
  | None => false
  end.

Definition match_port_underscore_digits (s : string) : bool :=
  match after_port s with
  | Some (String "_" rest) => until_dollar digits1 rest
  | _ => false
  end.

Definition match_port_word (s : string) : bool :=
  match after_port s with
  | Some rest =>
      match rest with
      | String c rest' =>
          ((Ascii.eqb c "-" || Ascii.eqb c "_") && until_dollar words1 rest')
          || until_dollar words1 rest
      | EmptyString => false
      end
  | None => false
  end.

Definition port_id_patterns : list (string -> bool) :=
  [match_port_digits; match_port_underscore_digits; match_port_word].

(** [SVGPortParser._is_port_id]. *)
Definition _is_port_id (element_id : string) : bool :=
  existsb (fun pattern => pattern element_id) port_id_patterns.

(** [SVGPortParser._convert_svg_to_qt_coordinates]. *)
Definition _convert_svg_to_qt_coordinates
    (svg_pos : R * R) (svg_viewbox : R * R * R * R) (target_size : R * R)
    : result (R * R) :=
  let '(svg_x, svg_y) := svg_pos in
  let '(vb_x, vb_y, vb_width, vb_height) := svg_viewbox in
  let '(target_width, target_height) := target_size in
  bind_result (py_div (svg_x - vb_x) vb_width) (fun rx =>
  let qt_x := rx * target_width in
  bind_result (py_div (svg_y - vb_y) vb_height) (fun ry =>
  let qt_y := ry * target_height in
  let qt_x := py_round qt_x 2 in
  let qt_y := py_round qt_y 2 in
  Ok (qt_x, qt_y))).

(** The list [['input', 'output', 'bidirectional']] of
    [_determine_port_type]. *)
Definition port_kinds : list string := ["input"; "output"; "bidirectional"].

(** [SVGPortParser._determine_port_type]. *)
Definition _determine_port_type (circle_id : string) (circle : Element) : string :=
  let data_type := lower (get circle "data-type" "") in
  if bool_decide (data_type ∈ port_kinds) then data_type
  else
    let class_attr := lower (get circle "class" "") in
    match List.find (fun port_type => contains port_type class_attr)
                    port_kinds with
    | Some port_type => port_type
    | None =>
        let id_lower := lower circle_id in
        match List.find (fun kv => contains (fst kv) id_lower) port_type_mapping with
        | Some (_, port_type) => port_type
        | None =>
            match search_digits circle_id with
            | Some digits =>
                let port_num := py_int digits in
                if (port_num mod 2 =? 1)%N then "input" else "output"
            | None => "bidirectional"
            end
        end
    end.

(** The numeric suffix of an identifier: its longest suffix made of digits,
    [None] when the identifier does not end with a digit. *)
Fixpoint numeric_suffix (s : string) : option string :=
  match s with
  | EmptyString => None
  | String _ rest => if all_chars is_digit s then Some s else numeric_suffix rest
  end.

(** The port kind as the specification words it: the precedence of
    [_determine_port_type] with, at step (d), the parity of the numeric
    suffix of the identifier. *)
Definition port_type_by_numeric_suffix (circle_id : string) (circle : Element) : string :=
  let data_type := lower (get circle "data-type" "") in
  if bool_decide (data_type ∈ port_kinds) then data_type
  else
    let class_attr := lower (get circle "class" "") in
    match List.find (fun port_type => contains port_type class_attr)
                    port_kinds with
    | Some port_type => port_type
    | None =>
        let id_lower := lower circle_id in
        match List.find (fun kv => contains (fst kv) id_lower) port_type_mapping with
        | Some (_, port_type) => port_type
        | None =>
            match numeric_suffix circle_id with
            | Some digits =>
                if (py_int digits mod 2 =? 1)%N then "input" else "output"
            | None => "bidirectional"
            end
        end
    end.

(** [re.sub(r'^[Pp]ort[-_]?', '', svg_id)]. *)
Definition strip_port_prefix (svg_id : string) : string :=
  if String.prefix "Port" svg_id || String.prefix "port" svg_id then
    match String.substring 4 (String.length svg_id - 4) svg_id with
    | String c rest => if Ascii.eqb c "-" || Ascii.eqb c "_" then rest
                       else String c rest
    | EmptyString => EmptyString
    end
  else svg_id.

(** [SVGPortParser._clean_port_id]. *)
Definition _clean_port_id (svg_id : string) : string :=
  let cleaned := strip_port_prefix svg_id in
  if (cleaned =? "")%string then lower svg_id else lower cleaned.

(** [SVGPortParser._extract_port_number]. *)
Definition _extract_port_number (svg_id : string) : N :=
  match search_digits svg_id with
  | Some digits => py_int digits
  | None => 999%N
  end.

(** The dictionary built by [_analyze_circle_as_port]; the entries that only
    repeat the inputs (description, original circle, conversion info) are
    left out. *)
Record PortInfo : Type := mkPortInfo {
  info_id : string;
  info_type : string;
  info_position : R * R;
  svg_element_id : string
}.

(** The sort key of [parse_svg_ports]:
    [lambda p: self._extract_port_number(p['svg_element_id'])]. *)
Definition port_key (p : PortInfo) : N :=
  _extract_port_number (svg_element_id p).

Section WithFloat.

(** [float(s)] on a string: [None] when it raises [ValueError]. *)
Variable py_float : string -> option R.

(** [float(circle.get(key, 0))]. *)
Definition float_attribute (circle : Element) (key : string) : option R :=
  match attrib circle !! key with
  | Some s => py_float s
  | None => Some 0
  end.

(** [SVGPortParser._extract_circle_position]. *)
Definition _extract_circle_position (circle : Element) : option (R * R) :=
  match float_attribute circle "cx" with
  | Some cx =>
      match float_attribute circle "cy" with
      | Some cy => Some (cx, cy)
      | None => None
      end
  | None => None
  end.

(** [SVGPortParser._analyze_circle_as_port]. *)
Definition _analyze_circle_as_port (circle : Element)
    (viewbox : R * R * R * R) (target_size : R * R) : result (option PortInfo) :=
  let circle_id := get circle "id" "" in
  if negb (_is_port_id circle_id) then Ok None
  else
    match _extract_circle_position circle with
    | None => Ok None
    | Some svg_position =>
        bind_result (_convert_svg_to_qt_coordinates svg_position viewbox target_size)
          (fun qt_position =>
             let port_type := _determine_port_type circle_id circle in
             Ok (Some {| info_id := _clean_port_id circle_id;
                         info_type := port_type;
                         info_position := qt_position;
                         svg_element_id := circle_id |}))
    end.

(** The [for circle in circles] loop of [parse_svg_ports]. *)
Fixpoint collect_ports (circles : list Element)
    (viewbox : R * R * R * R) (target_size : R * R) (ports : list PortInfo)
    : result (list PortInfo) :=
  match circles with
  | [] => Ok ports
  | circle :: rest =>
      bind_result (_analyze_circle_as_port circle viewbox target_size)
        (fun port_info =>
           match port_info with
           | Some info => collect_ports rest viewbox target_size (ports ++ [info])
           | None => collect_ports rest viewbox target_size ports
           end)
  end.

(** [SVGPortParser.parse_svg_ports], from the parsed root element on; the
    viewBox and the target size, which the source reads from the attributes
    of the root, are inputs. An exception raised on the way is caught and
    the result is the empty list. *)
Definition parse_svg_ports (root : Element)
    (viewbox : R * R * R * R) (target_size : R * R) : list PortInfo :=
  match collect_ports (_find_all_circles root) viewbox target_size [] with
  | Ok ports => sort_by_key port_key ports
  | Raise _ => []
  end.

End WithFloat.

(** A drawing with two port circles, [Port1000] and then [Port_a]. *)
Definition drawing_with_port_1000 : Element :=
  Elem "svg" ∅
    [ Elem "circle" {[ "id" := "Port1000" ]} [];
      Elem "circle" {[ "id" := "Port_a" ]} [] ].

End SVGPortParser.

(** *** components/ports.py *)

Module Ports.

(** [Port.BASE_RADIUS]. *)
Definition BASE_RADIUS : R := 3.

(** A [Port]. [scene] tells whether the port has been added to a graphics
    scene ([port.scene()] is not [None]) and [scenePos] is its position
    there: a port has no parent item, so [setPos] sets [scenePos]. The
    owner ([parent_component]) is the component whose [ports] list holds the
    port, and [connected_pipe] is the identifier of the pipe. *)
Record Port : Type := mkPort {
  port_id : string;
  port_type : string;
  is_connected : bool;
  connected_pipe : option string;
  initial_position : QPointF;
  current_scale : R;
  effective_radius : R;
  scene : bool;
  scenePos : QPointF
}.

(** [Port.__init__]: a port is created outside any scene, at the origin. *)
Definition __init__ (port_id port_type : string) (position : QPointF) : Port :=
  {| port_id := port_id;
     port_type := port_type;
     is_connected := false;
     connected_pipe := None;
     initial_position := position;
     current_scale := 1;
     effective_radius := BASE_RADIUS;
     scene := false;
     scenePos := QPoint 0 0 |}.

(** [port.initial_position = position]. *)
Definition set_initial_position (position : QPointF) (port : Port) : Port :=
  {| port_id := port_id port;
     port_type := port_type port;
     is_connected := is_connected port;
     connected_pipe := connected_pipe port;
     initial_position := position;
     current_scale := current_scale port;
     effective_radius := effective_radius port;
     scene := scene port;
     scenePos := scenePos port |}.

(** [port.setPos(position)]. *)
Definition setPos (position : QPointF) (port : Port) : Port :=
  {| port_id := port_id port;
     port_type := port_type port;
     is_connected := is_connected port;
     connected_pipe := connected_pipe port;
     initial_position := initial_position port;
     current_scale := current_scale port;
     effective_radius := effective_radius port;
     scene := scene port;
     scenePos := position |}.

(** [scene.addItem(port)]. *)
Definition add_to_scene (port : Port) : Port :=
  {| port_id := port_id port;
     port_type := port_type port;
     is_connected := is_connected port;
     connected_pipe := connected_pipe port;
     initial_position := initial_position port;
     current_scale := current_scale port;
     effective_radius := effective_radius port;
     scene := true;
     scenePos := scenePos port |}.

(** [Port.update_scale]. *)
Definition update_scale (scale : R) (port : Port) : Port :=
  if Req_dec_T scale (current_scale port) then port
  else
    {| port_id := port_id port;
       port_type := port_type port;
       is_connected := is_connected port;
       connected_pipe := connected_pipe port;
       initial_position := initial_position port;
       current_scale := scale;
       effective_radius := BASE_RADIUS * scale;
       scene := scene port;
       scenePos := scenePos port |}.

(** [Port.connect_to_pipe]. *)
Definition connect_to_pipe (pipe : string) (port : Port) : Port :=
  {| port_id := port_id port;
     port_type := port_type port;
     is_connected := true;
     connected_pipe := Some pipe;
     initial_position := initial_position port;
     current_scale := current_scale port;
     effective_radius := effective_radius port;
     scene := scene port;
     scenePos := scenePos port |}.

(** [Port.disconnect_from_pipe]. *)
Definition disconnect_from_pipe (port : Port) : Port :=
  {| port_id := port_id port;
     port_type := port_type port;
     is_connected := false;
     connected_pipe := None;
     initial_position := initial_position port;
     current_scale := current_scale port;
     effective_radius := effective_radius port;
     scene := scene port;
     scenePos := scenePos port |}.

(** A reference to a port object: the position of its component among the
    components and its position among the ports of that component. Two
    references are equal when they designate the same object. *)
Definition PortRef : Type := nat * nat.

(** [Port.can_connect_to]; [self_ref] and [other_ref] designate [self] and
    [other_port]. *)
Definition can_connect_to (self_ref : PortRef) (self : Port)
    (other_ref : PortRef) (other_port : Port) : bool :=
  if is_connected self || is_connected other_port then false
  else if bool_decide (self_ref = other_ref) then false
  else if bool_decide (fst self_ref = fst other_ref) then false
  else true.

End Ports.

(** *** config/hydraulic_objects.py: the configuration of a type *)

(** An entry of the port list that [get_port_configs] returns: the ports
    come from [parse_svg_ports], whose positions are tuples. *)
Record PortConfig : Type := mkPortConfig {
  cfg_id : string;
  cfg_type : string;
  cfg_position : R * R
}.

(** What a hydraulic object reads of the configuration of its type: the
    value of [config.get("svg_scale", 1.0)] and of
    [get_port_configs(object_type)]. *)
Record ObjectConfig : Type := mkObjectConfig {
  svg_scale : R;
  port_configs : list PortConfig
}.

(** *** components/hydraulic_object.py *)

Module HydraulicObjects.
Import Ports.

(** A [HydraulicObject]. [scenePos] and [rotation] are those of the
    graphics item, [scale] is the scale of the group ([setScale]) and
    [transform] is the diagonal [(m11, m22)] of its [QTransform], which the
    controllers only compose with axis flips. The ports are not children of
    the group. *)
Record HydraulicObject : Type := mkObject {
  component_id : string;
  object_type : string;
  base_svg_scale : R;
  current_scale : R;
  ports : list Port;
  is_created : bool;
  scenePos : QPointF;
  rotation : R;
  scale : R;
  transform : R * R
}.

Definition set_ports (new_ports : list Port) (self : HydraulicObject) : HydraulicObject :=
  {| component_id := component_id self;
     object_type := object_type self;
     base_svg_scale := base_svg_scale self;
     current_scale := current_scale self;
     ports := new_ports;
     is_created := is_created self;
     scenePos := scenePos self;
     rotation := rotation self;
     scale := scale self;
     transform := transform self |}.

Section WithConfiguration.

(** [HYDRAULIC_OBJECT_TYPES], and the class attribute [GLOBAL_SCALE]. *)
Variable HYDRAULIC_OBJECT_TYPES : gmap string ObjectConfig.
Variable GLOBAL_SCALE : R.

(** [get_port_configs(object_type)]: an unknown type has no port. *)
Definition get_port_configs (object_type : string) : list PortConfig :=
  match HYDRAULIC_OBJECT_TYPES !! object_type with
  | Some config => port_configs config
  | None => []
  end.

(** [HydraulicObject.create_ports]. *)
Definition create_ports (object_type : string) : list Port :=
  map (fun port_config =>
         let base_position := cfg_position port_config in
         let position := QPoint (fst base_position) (snd base_position) in
         Ports.__init__ (cfg_id port_config) (cfg_type port_config) position)
      (get_port_configs object_type).

(** The body of the loop of [update_ports_scale] for the port of index [i]. *)
Definition update_port_scale (self : HydraulicObject)
    (port_configs : list PortConfig) (i : nat) (port : Port) : Port :=
  match port_configs !! i with
  | Some port_config =>
      let base_position := cfg_position port_config in
      let scaled_x := fst base_position * current_scale self in
      let scaled_y := snd base_position * current_scale self in
      let new_position := QPoint scaled_x scaled_y in
      let port := set_initial_position new_position port in
      let port :=
        if Ports.scene port
        then Ports.setPos (padd (scenePos self) new_position) port
        else port in
      Ports.update_scale (current_scale self) port
  | None => port
  end.

(** [HydraulicObject.update_ports_scale]. *)
Definition update_ports_scale (self : HydraulicObject) : HydraulicObject :=
  let port_configs := get_port_configs (object_type self) in
  set_ports (imap (update_port_scale self port_configs) (ports self)) self.

(** [HydraulicObject.__init__]; an unknown type raises [ValueError]. *)
Definition __init__ (component_id object_type : string) : result HydraulicObject :=
  match HYDRAULIC_OBJECT_TYPES !! object_type with
  | None => Raise ValueError
  | Some config =>
      let self :=
        {| component_id := component_id;
           object_type := object_type;
           base_svg_scale := svg_scale config;
           current_scale := svg_scale config * GLOBAL_SCALE;
           ports := create_ports object_type;
           is_created := false;
           scenePos := QPoint 0 0;
           rotation := 0;
           scale := svg_scale config * GLOBAL_SCALE;
           transform := (1, 1) |} in
      let self := update_ports_scale self in
      Ok {| component_id := HydraulicObjects.component_id self;
            object_type := HydraulicObjects.object_type self;
            base_svg_scale := base_svg_scale self;
            current_scale := current_scale self;
            ports := ports self;
            is_created := true;
            scenePos := scenePos self;
            rotation := rotation self;
            scale := scale self;
            transform := transform self |}
  end.

(** [HydraulicObject.update_scale]. *)
Definition update_scale (new_global_scale : option R) (self : HydraulicObject)
    : HydraulicObject :=
  let new_scale :=
    match new_global_scale with
    | Some s => base_svg_scale self * s
    | None => base_svg_scale self * GLOBAL_SCALE
    end in
  if Req_dec_T new_scale (current_scale self) then self
  else
    let self :=
      {| component_id := component_id self;
         object_type := object_type self;
         base_svg_scale := base_svg_scale self;
         current_scale := new_scale;
         ports := ports self;
         is_created := is_created self;
         scenePos := scenePos self;
         rotation := rotation self;
         scale := new_scale;
         transform := transform self |} in
    update_ports_scale self.

End WithConfiguration.

(** The loop of [HydraulicObject.get_port_by_id]: the first port of the
    identifier and its position in [ports]. *)
Definition find_port (self : HydraulicObject) (port_id : string) : option (nat * Port) :=
  list_find (fun port => Ports.port_id port = port_id) (ports self).

(** [HydraulicObject.get_port_by_id]. *)
Definition get_port_by_id (self : HydraulicObject) (port_id : string) : option Port :=
  snd <$> find_port self port_id.

(** [HydraulicObject.update_ports_positions]. *)
Definition update_ports_positions (new_component_position : QPointF)
    (self : HydraulicObject) : HydraulicObject :=
  set_ports
    (map (fun port =>
            Ports.setPos (padd new_component_position (initial_position port)) port)
         (ports self))
    self.

(** [obj.setPos(position)]: the item sends its geometry changes, so
    [itemChange] moves the ports before the position is stored. *)
Definition setPos (position : QPointF) (self : HydraulicObject) : HydraulicObject :=
  let self := update_ports_positions position self in
  {| component_id := component_id self;
     object_type := object_type self;
     base_svg_scale := base_svg_scale self;
     current_scale := current_scale self;
     ports := ports self;
     is_created := is_created self;
     scenePos := position;
     rotation := rotation self;
     scale := scale self;
     transform := transform self |}.

(** [obj.setRotation(angle)]. *)
Definition setRotation (angle : R) (self : HydraulicObject) : HydraulicObject :=
  {| component_id := component_id self;
     object_type := object_type self;
     base_svg_scale := base_svg_scale self;
     current_scale := current_scale self;
     ports := ports self;
     is_created := is_created self;
     scenePos := scenePos self;
     rotation := angle;
     scale := scale self;
     transform := transform self |}.

(** [obj.setTransform(transform)]. *)
Definition setTransform (new_transform : R * R) (self : HydraulicObject)
    : HydraulicObject :=
  {| component_id := component_id self;
     object_type := object_type self;
     base_svg_scale := base_svg_scale self;
     current_scale := current_scale self;
     ports := ports self;
     is_created := is_created self;
     scenePos := scenePos self;
     rotation := rotation self;
     scale := scale self;
     transform := new_transform |}.

(** [ComponentController.add_object_ports_to_scene]. *)
Definition add_object_ports_to_scene (position : QPointF) (hydraulic_obj : HydraulicObject)
    : HydraulicObject :=
  set_ports
    (map (fun port =>
            Ports.add_to_scene
              (Ports.setPos (padd position (initial_position port)) port))
         (ports hydraulic_obj))
    hydraulic_obj.

(** What [ComponentController.add_object] does with a new object:
    [create_hydraulic_object] without a custom scale and at [position], then
    the ports are added to the scene. *)
Definition add_object (HYDRAULIC_OBJECT_TYPES : gmap string ObjectConfig)
    (GLOBAL_SCALE : R) (object_id object_type : string) (position : QPointF)
    : result HydraulicObject :=
  bind_result (__init__ HYDRAULIC_OBJECT_TYPES GLOBAL_SCALE object_id object_type)
    (fun obj => Ok (add_object_ports_to_scene position (setPos position obj))).

(** The relative and the absolute positions of the ports. *)
Definition relative_positions (self : HydraulicObject) : list QPointF :=
  map initial_position (ports self).

Definition absolute_positions (self : HydraulicObject) : list QPointF :=
  map Ports.scenePos (ports self).

End HydraulicObjects.

(** *** components/pipe.py: the orthogonal router *)

Module Pipe.

(** [OrthogonalPipe.create_orthogonal_segments]. *)
Definition create_orthogonal_segments (start end_pos : QPointF) : list QPointF :=
  let dx := px end_pos - px start in
  let dy := py end_pos - py start in
  if Rge_dec (Rabs dx) (Rabs dy)
  then [start; QPoint (px end_pos) (py start); end_pos]
  else [start; QPoint (px start) (py end_pos); end_pos].

(** The [for waypoint in waypoints] loop of [calculate_orthogonal_path]:
    the state is [(points, current_pos)]. *)
Fixpoint waypoint_loop (points : list QPointF) (current_pos : QPointF)
    (waypoints : list QPointF) : list QPointF * QPointF :=
  match waypoints with
  | [] => (points, current_pos)
  | waypoint :: rest =>
      let ortho_points := create_orthogonal_segments current_pos waypoint in
      waypoint_loop (points ++ tail ortho_points) waypoint rest
  end.

(** [OrthogonalPipe.calculate_orthogonal_path]. *)
Definition calculate_orthogonal_path (start_pos end_pos : QPointF)
    (waypoints : list QPointF) : list QPointF :=
  let '(points, current_pos) := waypoint_loop [start_pos] start_pos waypoints in
  let final_points := create_orthogonal_segments current_pos end_pos in
  points ++ tail final_points.

(** [OrthogonalPipe.calculate_total_length]. *)
Fixpoint sum_segments (points : list QPointF) : R :=
  match points with
  | p :: ((q :: _) as rest) =>
      let dx := px q - px p in
      let dy := py q - py p in
      sqrt (dx * dx + dy * dy) + sum_segments rest
  | _ => 0
  end.

Definition calculate_total_length (points : list QPointF) : R :=
  py_round (sum_segments points * (5 / 10)) 1.

End Pipe.

(** *** components/pipe.py: the pipe *)

Module OrthogonalPipes.
Import HydraulicObjects.

(** An [OrthogonalPipe]. [start_component] and [end_component] refer to
    components by their position among the components; [path] holds the
    points of the painter path of the item. The list [connected_pipes]
    that the pipe adds to its components and the waypoint indicators are
    left out. *)
Record OrthogonalPipe : Type := mkPipe {
  start_component : nat;
  start_port : string;
  end_component : nat;
  end_port : string;
  waypoints : list QPointF;
  length : R;
  pipe_id : string;
  path : list QPointF
}.

(** What [update_orthogonal_path] prints. *)
Inductive PathReport : Type :=
| PathUpdated (points : nat) (length : R)
| PortsNotFound
| UpdateError
| NothingPrinted.

(** [OrthogonalPipe.update_orthogonal_path]. A reference that designates
    no component stands for an object without [get_port_by_id]: the
    exception is caught by the [except] clause. *)
Definition update_orthogonal_path (components : list HydraulicObject)
    (self : OrthogonalPipe) : OrthogonalPipe * PathReport :=
  match components !! start_component self, components !! end_component self with
  | Some start_component_obj, Some end_component_obj =>
      match get_port_by_id start_component_obj (start_port self),
            get_port_by_id end_component_obj (end_port self) with
      | Some start_port_obj, Some end_port_obj =>
          let start_pos := Ports.scenePos start_port_obj in
          let end_pos := Ports.scenePos end_port_obj in
          let points := Pipe.calculate_orthogonal_path start_pos end_pos (waypoints self) in
          match points with
          | [] => (self, NothingPrinted)
          | _ =>
              let new_length := Pipe.calculate_total_length points in
              ({| start_component := start_component self;
                  start_port := start_port self;
                  end_component := end_component self;
                  end_port := end_port self;
                  waypoints := waypoints self;
                  length := new_length;
                  pipe_id := pipe_id self;
                  path := points |},
               PathUpdated (List.length points) new_length)
          end
      | _, _ => (self, PortsNotFound)
      end
  | _, _ => (self, UpdateError)
  end.

(** [OrthogonalPipe.__init__]. The provisional identifier, made from the
    address of the object, is replaced as soon as the pipe is registered. *)
Definition __init__ (components : list HydraulicObject)
    (start_component : nat) (start_port : string)
    (end_component : nat) (end_port : string) (waypoints : list QPointF)
    : OrthogonalPipe :=
  fst (update_orthogonal_path components
         {| start_component := start_component;
            start_port := start_port;
            end_component := end_component;
            end_port := end_port;
            waypoints := waypoints;
            length := 0;
            pipe_id := "";
            path := [] |}).

(** [pipe.pipe_id = pipe_id]. *)
Definition set_pipe_id (new_pipe_id : string) (self : OrthogonalPipe) : OrthogonalPipe :=
  {| start_component := start_component self;
     start_port := start_port self;
     end_component := end_component self;
     end_port := end_port self;
     waypoints := waypoints self;
     length := length self;
     pipe_id := new_pipe_id;
     path := path self |}.

(** A pipe of the scene between the ports [1] of the components 0 and 1,
    with a path and a length. *)
Definition routed_pipe : OrthogonalPipe :=
  {| start_component := 0;
     start_port := "1";
     end_component := 1;
     end_port := "1";
     waypoints := [];
     length := 5;
     pipe_id := "pipe_001";
     path := [QPoint 0 0; QPoint 10 0; QPoint 10 0] |}.

End OrthogonalPipes.

(** *** controllers/connection_controller.py

    A method of the controller returns the controller as it is afterwards.
    The components of the scene are fixed; the signals, the preview path
    and the scene items other than the components are left out. *)

Module ConnectionController.
Import HydraulicObjects.

(** An [InteractivePipeBuilder]. *)
Record InteractivePipeBuilder : Type := mkBuilder {
  builder_start_component : nat;
  builder_start_port : string;
  builder_waypoints : list QPointF
}.

(** A [ConnectionController]. [components] are the items of the scene that
    have a [component_id], in the order of [scene.items()]; a component is
    referred to by its position in this list. *)
Record ConnectionController : Type := mkController {
  components : list HydraulicObject;
  connection_mode : bool;
  pipe_builder : option InteractivePipeBuilder;
  start_component : option nat;
  start_port_id : option string;
  hovering_port : option (string * string);
  pipes : gmap string OrthogonalPipes.OrthogonalPipe;
  pipe_counter : nat
}.

(** [ConnectionController.__init__]. *)
Definition __init__ (components : list HydraulicObject) : ConnectionController :=
  {| components := components;
     connection_mode := false;
     pipe_builder := None;
     start_component := None;
     start_port_id := None;
     hovering_port := None;
     pipes := ∅;
     pipe_counter := 0 |}.

(** [ConnectionController.find_component_by_id]. *)
Definition find_component_by_id (self : ConnectionController) (component_id : string)
    : option nat :=
  fst <$> list_find (fun item => HydraulicObjects.component_id item = component_id)
                    (components self).

(** [component.get_port_by_id(port_id)] on a reference to a component: the
    port and the reference to it. *)
Definition port_by_id (components : list HydraulicObject)
    (component : nat) (port_id : string) : option (Ports.PortRef * Ports.Port) :=
  match components !! component with
  | Some obj =>
      match find_port obj port_id with
      | Some (i, port) => Some ((component, i), port)
      | None => None
      end
  | None => None
  end.

(** The assignment of [new_port] to the port object that [ref] designates. *)
Definition set_port (ref : Ports.PortRef) (new_port : Ports.Port)
    (components : list HydraulicObject) : list HydraulicObject :=
  alter (fun obj => set_ports (<[snd ref := new_port]> (ports obj)) obj)
        (fst ref) components.

(** [ConnectionController.can_connect_ports]. *)
Definition can_connect_ports (start_port end_port : option (Ports.PortRef * Ports.Port))
    : bool :=
  match start_port, end_port with
  | Some (start_ref, start_port), Some (end_ref, end_port) =>
      Ports.can_connect_to start_ref start_port end_ref end_port
  | _, _ => false
  end.

(** [ConnectionController.cleanup_pipe_construction]. *)
Definition cleanup_pipe_construction (self : ConnectionController) : ConnectionController :=
  {| components := components self;
     connection_mode := connection_mode self;
     pipe_builder := None;
     start_component := None;
     start_port_id := None;
     hovering_port := None;
     pipes := pipes self;
     pipe_counter := pipe_counter self |}.

(** [ConnectionController.cancel_pipe_construction]. *)
Definition cancel_pipe_construction (self : ConnectionController) : ConnectionController :=
  match pipe_builder self with
  | Some _ => cleanup_pipe_construction self
  | None => self
  end.

(** [ConnectionController.start_pipe_construction]. *)
Definition start_pipe_construction (new_start_component : nat) (new_start_port_id : string)
    (self : ConnectionController) : ConnectionController :=
  let self := cancel_pipe_construction self in
  {| components := components self;
     connection_mode := connection_mode self;
     pipe_builder := Some {| builder_start_component := new_start_component;
                             builder_start_port := new_start_port_id;
                             builder_waypoints := [] |};
     start_component := Some new_start_component;
     start_port_id := Some new_start_port_id;
     hovering_port := hovering_port self;
     pipes := pipes self;
     pipe_counter := pipe_counter self |}.

(** [ConnectionController.add_waypoint]. *)
Definition add_waypoint (position : QPointF) (self : ConnectionController)
    : ConnectionController :=
  match pipe_builder self with
  | None => self
  | Some builder =>
      {| components := components self;
         connection_mode := connection_mode self;
         pipe_builder := Some {| builder_start_component := builder_start_component builder;
                                 builder_start_port := builder_start_port builder;
                                 builder_waypoints := builder_waypoints builder ++ [position] |};
         start_component := start_component self;
         start_port_id := start_port_id self;
         hovering_port := hovering_port self;
         pipes := pipes self;
         pipe_counter := pipe_counter self |}
  end.

(** [InteractivePipeBuilder.finish_pipe]. *)
Definition finish_pipe (components : list HydraulicObject)
    (builder : InteractivePipeBuilder) (end_component : nat) (end_port : string)
    : OrthogonalPipes.OrthogonalPipe :=
  OrthogonalPipes.__init__ components
    (builder_start_component builder) (builder_start_port builder)
    end_component end_port (builder_waypoints builder).

(** [f"pipe_{pipe_counter:03d}"]. *)
Definition format_pipe_id (pipe_counter : nat) : string :=
  let digits := pretty pipe_counter in
  String.append "pipe_"
    (String.append (match String.length digits with
                    | 1%nat => "00"
                    | 2%nat => "0"
                    | _ => ""
                    end) digits).

(** [ConnectionController.finish_pipe_construction]. With a builder the
    controller always has a start component and a start port. *)
Definition finish_pipe_construction (end_component_id end_port_id : string)
    (self : ConnectionController) : ConnectionController :=
  match pipe_builder self, start_component self, start_port_id self with
  | Some builder, Some start_component_ref, Some start_port_name =>
      match find_component_by_id self end_component_id with
      | None => self
      | Some end_component =>
          let start_port := port_by_id (components self) start_component_ref start_port_name in
          let end_port := port_by_id (components self) end_component end_port_id in
          if negb (can_connect_ports start_port end_port) then self
          else
            match start_port, end_port with
            | Some (start_ref, start_port_obj), Some (end_ref, end_port_obj) =>
                let pipe := finish_pipe (components self) builder end_component end_port_id in
                let new_counter := S (pipe_counter self) in
                let pipe_id := format_pipe_id new_counter in
                let pipe := OrthogonalPipes.set_pipe_id pipe_id pipe in
                let components :=
                  set_port start_ref (Ports.connect_to_pipe pipe_id start_port_obj)
                           (components self) in
                let components :=
                  set_port end_ref (Ports.connect_to_pipe pipe_id end_port_obj)
                           components in
                cleanup_pipe_construction
                  {| components := components;
                     connection_mode := connection_mode self;
                     pipe_builder := pipe_builder self;
                     start_component := start_component self;
                     start_port_id := start_port_id self;
                     hovering_port := hovering_port self;
                     pipes := <[pipe_id := pipe]> (pipes self);
                     pipe_counter := new_counter |}
            | _, _ => self
            end
      end
  | _, _, _ => self
  end.

(** [port.disconnect_from_pipe()] on the port that [port_id] designates in
    a component, when there is one. *)
Definition disconnect_port (component : nat) (port_id : string)
    (components : list HydraulicObject) : list HydraulicObject :=
  match port_by_id components component port_id with
  | Some (ref, port) => set_port ref (Ports.disconnect_from_pipe port) components
  | None => components
  end.

(** [ConnectionController.remove_pipe]: the ports are disconnected by the
    controller and then again by [delete_pipe]. *)
Definition remove_pipe (pipe_id : string) (self : ConnectionController)
    : ConnectionController :=
  match pipes self !! pipe_id with
  | None => self
  | Some pipe =>
      let disconnect_both components :=
        disconnect_port (OrthogonalPipes.end_component pipe) (OrthogonalPipes.end_port pipe)
          (disconnect_port (OrthogonalPipes.start_component pipe)
             (OrthogonalPipes.start_port pipe) components) in
      {| components := disconnect_both (disconnect_both (components self));
         connection_mode := connection_mode self;
         pipe_builder := pipe_builder self;
         start_component := start_component self;
         start_port_id := start_port_id self;
         hovering_port := hovering_port self;
         pipes := delete pipe_id (pipes self);
         pipe_counter := pipe_counter self |}
  end.

(** [ConnectionController.set_all_ports_connection_mode] changes the look
    of the ports only, and [toggle_mode] is then: *)
Definition toggle_mode (active : option bool) (self : ConnectionController)
    : ConnectionController :=
  let active := match active with
                | Some a => a
                | None => negb (connection_mode self)
                end in
  if bool_decide (active = connection_mode self) then self
  else
    let self :=
      {| components := components self;
         connection_mode := active;
         pipe_builder := pipe_builder self;
         start_component := start_component self;
         start_port_id := start_port_id self;
         hovering_port := hovering_port self;
         pipes := pipes self;
         pipe_counter := pipe_counter self |} in
    if active then self else cancel_pipe_construction self.

(** [ConnectionController.on_port_clicked]. *)
Definition on_port_clicked (component : nat) (port_id : string)
    (self : ConnectionController) : ConnectionController :=
  if negb (connection_mode self) then self
  else
    match components self !! component with
    | None => self
    | Some component_obj =>
        match get_port_by_id component_obj port_id with
        | None => self
        | Some port =>
            if Ports.is_connected port then self
            else
              match pipe_builder self, start_component self, start_port_id self with
              | None, _, _ => start_pipe_construction component port_id self
              | Some _, Some start_ref, Some start_port_name =>
                  let same_component :=
                    match components self !! start_ref with
                    | Some start_obj =>
                        bool_decide (component_id start_obj = component_id component_obj)
                    | None => false
                    end in
                  if same_component && bool_decide (start_port_name = port_id)
                  then cancel_pipe_construction self
                  else finish_pipe_construction (component_id component_obj) port_id self
              | Some _, _, _ => self
              end
        end
    end.

(** [ConnectionController.on_port_hovered]. *)
Definition on_port_hovered (component : nat) (port_id : string) (is_entering : bool)
    (self : ConnectionController) : ConnectionController :=
  if negb (connection_mode self) then self
  else
    match components self !! component with
    | None => self
    | Some component_obj =>
        {| components := components self;
           connection_mode := connection_mode self;
           pipe_builder := pipe_builder self;
           start_component := start_component self;
           start_port_id := start_port_id self;
           hovering_port := if is_entering
                            then Some (component_id component_obj, port_id)
                            else None;
           pipes := pipes self;
           pipe_counter := pipe_counter self |}
    end.

(** [ConnectionController.handle_mouse_click]; [left_button] tells whether
    the button is the left one. *)
Definition handle_mouse_click (position : QPointF) (left_button : bool)
    (self : ConnectionController) : ConnectionController :=
  if negb (connection_mode self) || negb left_button then self
  else
    match pipe_builder self with
    | None => self
    | Some _ =>
        match hovering_port self with
        | Some (component_id, port_id) =>
            finish_pipe_construction component_id port_id self
        | None => add_waypoint position self
        end
    end.

(** [ConnectionController.clear_all]. *)
Definition clear_all (self : ConnectionController) : ConnectionController :=
  let self := cancel_pipe_construction self in
  let pipe_ids := map fst (map_to_list (pipes self)) in
  let self := foldl (fun self pipe_id => remove_pipe pipe_id self) self pipe_ids in
  let self :=
    {| components := components self;
       connection_mode := connection_mode self;
       pipe_builder := pipe_builder self;
       start_component := start_component self;
       start_port_id := start_port_id self;
       hovering_port := hovering_port self;
       pipes := pipes self;
       pipe_counter := 0 |} in
  if connection_mode self then toggle_mode (Some false) self else self.

(** What reaches the controller: the signals of the work area and of the
    ports it is connected to, and the calls of its public methods. *)
Inductive Event : Type :=
| ToggleMode (active : option bool)
| PortClicked (component : nat) (port_id : string)
| PortHovered (component : nat) (port_id : string) (is_entering : bool)
| MouseClicked (position : QPointF) (left_button : bool)
| StartPipeConstruction (component : nat) (port_id : string)
| AddWaypoint (position : QPointF)
| FinishPipeConstruction (end_component_id end_port_id : string)
| CancelPipeConstruction
| RemovePipe (pipe_id : string)
| ClearAll.

Definition handle (self : ConnectionController) (event : Event) : ConnectionController :=
  match event with
  | ToggleMode active => toggle_mode active self
  | PortClicked component port_id => on_port_clicked component port_id self
  | PortHovered component port_id is_entering =>
      on_port_hovered component port_id is_entering self
  | MouseClicked position left_button => handle_mouse_click position left_button self
  | StartPipeConstruction component port_id =>
      start_pipe_construction component port_id self
  | AddWaypoint position => add_waypoint position self
  | FinishPipeConstruction end_component_id end_port_id =>
      finish_pipe_construction end_component_id end_port_id self
  | CancelPipeConstruction => cancel_pipe_construction self
  | RemovePipe pipe_id => remove_pipe pipe_id self
  | ClearAll => clear_all self
  end.

(** The controller created over [components] after a sequence of events. *)
Definition run (components : list HydraulicObject) (events : list Event)
    : ConnectionController :=
  foldl handle (__init__ components) events.

End ConnectionController.

(** *** controllers/transform_controller.py

    An operation of the controller mutates the selected objects in place
    and answers [True] or [False]; here it returns the selected hydraulic
    objects as they are afterwards, or [None] when it answers [False]
    (nothing has been changed then). The objects of a selection are
    distinct. The history and the signals of the controller are left out. *)

Module TransformController.
Import Ports HydraulicObjects.

(** An item of the selection: a hydraulic object, or an item without the
    attributes [component_id] and [object_type]. *)
Inductive SceneItem : Type :=
| Hydraulic (obj : HydraulicObject)
| OtherItem.

(** [TransformController._filter_hydraulic_objects]. *)
Definition _filter_hydraulic_objects (objects : list SceneItem) : list HydraulicObject :=
  flat_map (fun item => match item with
                        | Hydraulic obj => [obj]
                        | OtherItem => []
                        end) objects.

(** [math.radians]. *)
Definition radians (angle_degrees : R) : R := angle_degrees * PI / 180.

(** [TransformController._calculate_objects_center]. *)
Definition _calculate_objects_center (objects : list HydraulicObject) : QPointF :=
  match objects with
  | [] => QPoint 0 0
  | _ =>
      let total_x := fold_left Rplus (map (fun obj => px (scenePos obj)) objects) 0 in
      let total_y := fold_left Rplus (map (fun obj => py (scenePos obj)) objects) 0 in
      let center_x := total_x / INR (length objects) in
      let center_y := total_y / INR (length objects) in
      QPoint center_x center_y
  end.

(** [TransformController._rotate_object_ports]. A [HydraulicObject] has no
    method [rotate_ports_around_center] (the function of that name is
    defined at the level of the module), so the loop of the controller
    runs. *)
Definition _rotate_object_ports (angle_degrees : R) (obj : HydraulicObject)
    : HydraulicObject :=
  let angle_rad := radians angle_degrees in
  let cos_a := cos angle_rad in
  let sin_a := sin angle_rad in
  set_ports
    (map (fun port =>
            let initial_relative_pos := initial_position port in
            let old_rel_x := px initial_relative_pos in
            let old_rel_y := py initial_relative_pos in
            let new_rel_x := old_rel_x * cos_a - old_rel_y * sin_a in
            let new_rel_y := old_rel_x * sin_a + old_rel_y * cos_a in
            let port := set_initial_position (QPoint new_rel_x new_rel_y) port in
            let new_object_pos := scenePos obj in
            let new_global_pos := padd new_object_pos (QPoint new_rel_x new_rel_y) in
            Ports.setPos new_global_pos port)
         (ports obj))
    obj.

(** [TransformController._rotate_single_object]. *)
Definition _rotate_single_object (angle_degrees : R) (center : QPointF)
    (obj : HydraulicObject) : HydraulicObject :=
  let current_pos := scenePos obj in
  let dx := px current_pos - px center in
  let dy := py current_pos - py center in
  let angle_rad := radians angle_degrees in
  let cos_a := cos angle_rad in
  let sin_a := sin angle_rad in
  let new_x := px center + (dx * cos_a - dy * sin_a) in
  let new_y := py center + (dx * sin_a + dy * cos_a) in
  let obj := HydraulicObjects.setPos (QPoint new_x new_y) obj in
  let current_rotation := rotation obj in
  let obj := setRotation (current_rotation + angle_degrees) obj in
  let obj := _rotate_object_ports angle_degrees obj in
  update_ports_positions (QPoint new_x new_y) obj.

(** [TransformController.rotate_objects]. *)
Definition rotate_objects (objects : list SceneItem) (angle_degrees : R)
    : option (list HydraulicObject) :=
  match objects with
  | [] => None
  | _ =>
      let hydraulic_objects := _filter_hydraulic_objects objects in
      match hydraulic_objects with
      | [] => None
      | _ =>
          let rotation_center := _calculate_objects_center hydraulic_objects in
          Some (map (_rotate_single_object angle_degrees rotation_center)
                    hydraulic_objects)
      end
  end.


(** [TransformController._calculate_alignment_reference]. *)
Definition _calculate_alignment_reference (objects : list HydraulicObject)
    (alignment_type : string) : result R :=
  match last objects with
  | None => Raise ValueError
  | Some reference_object =>
      let reference_pos := scenePos reference_object in
      if (alignment_type =? "horizontal")%string then Ok (py reference_pos)
      else if (alignment_type =? "vertical")%string then Ok (px reference_pos)
      else Raise ValueError
  end.

(** [TransformController._update_object_ports_after_move]. *)
Definition _update_object_ports_after_move (new_pos : QPointF) (obj : HydraulicObject)
    : HydraulicObject :=
  update_ports_positions new_pos obj.

(** [TransformController._align_single_object]: the object afterwards and
    the answer. *)
Definition _align_single_object (reference_line : R) (alignment_type : string)
    (obj : HydraulicObject) : HydraulicObject * bool :=
  let current_pos := scenePos obj in
  if (alignment_type =? "horizontal")%string then
    let new_pos := QPoint (px current_pos) reference_line in
    (_update_object_ports_after_move new_pos (HydraulicObjects.setPos new_pos obj), true)
  else if (alignment_type =? "vertical")%string then
    let new_pos := QPoint reference_line (py current_pos) in
    (_update_object_ports_after_move new_pos (HydraulicObjects.setPos new_pos obj), true)
  else (obj, false).

(** [TransformController._align_objects]. *)
Definition _align_objects (objects : list SceneItem) (alignment_type : string)
    : option (list HydraulicObject) :=
  if (length objects <? 2)%nat then None
  else
    let hydraulic_objects := _filter_hydraulic_objects objects in
    if (length hydraulic_objects <? 2)%nat then None
    else
      match _calculate_alignment_reference hydraulic_objects alignment_type with
      | Raise _ => None
      | Ok reference_line =>
          Some (map (fun obj => fst (_align_single_object reference_line alignment_type obj))
                    hydraulic_objects)
      end.

(** [TransformController.align_objects_horizontal]. *)
Definition align_objects_horizontal (objects : list SceneItem)
    : option (list HydraulicObject) :=
  _align_objects objects "horizontal".

(** [TransformController.align_objects_vertical]. *)
Definition align_objects_vertical (objects : list SceneItem)
    : option (list HydraulicObject) :=
  _align_objects objects "vertical".

(** [TransformController._flip_object_ports]. *)
Definition _flip_object_ports (flip_type : string) (obj : HydraulicObject)
    : HydraulicObject :=
  set_ports
    (map (fun port =>
            let current_rel_pos := initial_position port in
            if (flip_type =? "horizontal")%string then
              let new_rel_pos := QPoint (- px current_rel_pos) (py current_rel_pos) in
              let port := set_initial_position new_rel_pos port in
              Ports.setPos (padd (scenePos obj) new_rel_pos) port
            else if (flip_type =? "vertical")%string then
              let new_rel_pos := QPoint (px current_rel_pos) (- py current_rel_pos) in
              let port := set_initial_position new_rel_pos port in
              Ports.setPos (padd (scenePos obj) new_rel_pos) port
            else port)
         (ports obj))
    obj.

(** [TransformController._flip_single_object_around_center]: the object
    afterwards and the answer. *)
Definition _flip_single_object_around_center (flip_type : string)
    (obj : HydraulicObject) : HydraulicObject * bool :=
  let obj := _flip_object_ports flip_type obj in
  let current_transform := transform obj in
  if (flip_type =? "horizontal")%string then
    (setTransform (fst current_transform * -1, snd current_transform * 1) obj, true)
  else if (flip_type =? "vertical")%string then
    (setTransform (fst current_transform * 1, snd current_transform * -1) obj, true)
  else (obj, false).

(** The common body of [flip_objects_horizontal] and
    [flip_objects_vertical]. *)
Definition flip_objects (flip_type : string) (objects : list SceneItem)
    : option (list HydraulicObject) :=
  match objects with
  | [] => None
  | _ =>
      let hydraulic_objects := _filter_hydraulic_objects objects in
      match hydraulic_objects with
      | [] => None
      | _ =>
          Some (map (fun obj => fst (_flip_single_object_around_center flip_type obj))
                    hydraulic_objects)
      end
  end.

(** [TransformController.flip_objects_horizontal]. *)
Definition flip_objects_horizontal (objects : list SceneItem)
    : option (list HydraulicObject) :=
  flip_objects "horizontal" objects.

(** [TransformController.flip_objects_vertical]. *)
Definition flip_objects_vertical (objects : list SceneItem)
    : option (list HydraulicObject) :=
  flip_objects "vertical" objects.


(** A component of the scene with one port, of relative position (30, 4). *)
Definition placed_component (component_id : string) (position : QPointF)
    : HydraulicObject :=
  {| component_id := component_id;
     object_type := "VALVE";
     base_svg_scale := 2;
     current_scale := 2;
     ports := [ Ports.add_to_scene
                  (Ports.setPos (padd position (QPoint 30 4))
                     (Ports.__init__ "2" "output" (QPoint 30 4))) ];
     is_created := true;
     scenePos := position;
     rotation := 0;
     scale := 2;
     transform := (1, 1) |}.

End TransformController.

(** *** Predicates on paths *)

(** Every two consecutive elements of a list are related by [P]. *)
Fixpoint consecutive {A : Type} (P : A -> A -> Prop) (l : list A) : Prop :=
  match l with
  | a :: ((b :: _) as rest) => P a b /\ consecutive P rest
  | _ => True
  end.

(** The segment from [p] to [q] is horizontal or vertical (its length may
    be zero). *)
Definition axis_aligned (p q : QPointF) : Prop :=
  px p = px q \/ py p = py q.

(** [p] and [q] differ in exactly one coordinate. *)
Definition one_axis_differs (p q : QPointF) : Prop :=
  (px p = px q /\ py p <> py q) \/ (px p <> px q /\ py p = py q).

(** [a] occurs before [b] in [l]. *)
Definition occurs_before {A : Type} (a b : A) (l : list A) : Prop :=
  exists l1 l2 l3, l = l1 ++ a :: l2 ++ b :: l3.

(** [needle] is a substring of [hay]. *)
Definition is_substring (needle hay : string) : Prop :=
  exists before after, hay = String.append before (String.append needle after).

(** *** Predicates on connections *)

(** The port object that an identifier designates in a component, and
    whether it is connected. *)
Definition port_state (components : list HydraulicObjects.HydraulicObject)
    (component : nat) (port_id : string) : option (Ports.PortRef * bool) :=
  match ConnectionController.port_by_id components component port_id with
  | Some (ref, port) => Some (ref, Ports.is_connected port)
  | None => None
  end.

(** The port objects at the ends of a pipe. *)
Definition pipe_ports (components : list HydraulicObjects.HydraulicObject)
    (pipe : OrthogonalPipes.OrthogonalPipe) : list Ports.PortRef :=
  omap (fun '(component, port_id) => fst <$> port_state components component port_id)
       [ (OrthogonalPipes.start_component pipe, OrthogonalPipes.start_port pipe);
         (OrthogonalPipes.end_component pipe, OrthogonalPipes.end_port pipe) ].

(** A pipe joins two port objects of two different components, and both
    ports are marked connected. *)
Definition joins_two_components (components : list HydraulicObjects.HydraulicObject)
    (pipe : OrthogonalPipes.OrthogonalPipe) : Prop :=
  exists start_ref end_ref,
    port_state components (OrthogonalPipes.start_component pipe)
               (OrthogonalPipes.start_port pipe) = Some (start_ref, true) /\
    port_state components (OrthogonalPipes.end_component pipe)
               (OrthogonalPipes.end_port pipe) = Some (end_ref, true) /\
    start_ref <> end_ref /\
    OrthogonalPipes.start_component pipe <> OrthogonalPipes.end_component pipe.

(** The registered pipes of a controller: each joins two components, and no
    two of them end at the same port object. *)
Definition pipes_well_connected (self : ConnectionController.ConnectionController) : Prop :=
  (forall pipe_id pipe,
     ConnectionController.pipes self !! pipe_id = Some pipe ->
     joins_two_components (ConnectionController.components self) pipe) /\
  (forall pipe_id1 pipe_id2 pipe1 pipe2,
     pipe_id1 <> pipe_id2 ->
     ConnectionController.pipes self !! pipe_id1 = Some pipe1 ->
     ConnectionController.pipes self !! pipe_id2 = Some pipe2 ->
     forall ref, ref ∈ pipe_ports (ConnectionController.components self) pipe1 ->
                 ref ∉ pipe_ports (ConnectionController.components self) pipe2).

(** The builder of a controller starts at the start component and the start
    port of the controller. *)
Definition builder_consistent (self : ConnectionController.ConnectionController) : Prop :=
  forall builder,
    ConnectionController.pipe_builder self = Some builder ->
    ConnectionController.start_component self
    = Some (ConnectionController.builder_start_component builder) /\
    ConnectionController.start_port_id self
    = Some (ConnectionController.builder_start_port builder).

(** No port of the components is connected. *)
Definition all_ports_free (components : list HydraulicObjects.HydraulicObject) : Prop :=
  Forall (fun obj => Forall (fun port => Ports.is_connected port = false)
                            (HydraulicObjects.ports obj))
         components.

(** The port objects are the same in [components'] as in [components], and
    the connection flag of each has changed along [flag]. *)
Definition same_ports (flag : Ports.PortRef -> bool -> bool)
    (components components' : list HydraulicObjects.HydraulicObject) : Prop :=
  forall component port_id,
    port_state components' component port_id
    = (fun '(ref, connected) => (ref, flag ref connected))
        <$> port_state components component port_id.

(** The two ports of a pipe are disconnected, the start port first: what
    [remove_pipe] does, and what [delete_pipe] does again. *)
Definition disconnect_both (pipe : OrthogonalPipes.OrthogonalPipe)
    (components : list HydraulicObjects.HydraulicObject)
    : list HydraulicObjects.HydraulicObject :=
  ConnectionController.disconnect_port
    (OrthogonalPipes.end_component pipe) (OrthogonalPipes.end_port pipe)
    (ConnectionController.disconnect_port
       (OrthogonalPipes.start_component pipe) (OrthogonalPipes.start_port pipe)
       components).

(** The invariant of a controller. *)
Definition connections_ok (self : ConnectionController.ConnectionController) : Prop :=
  builder_consistent self /\ pipes_well_connected self.

(** *** Predicates on components *)

(** The positions of a template at a scale. *)
Definition scaled_template (scale : R) (port_configs : list PortConfig) : list QPointF :=
  map (fun port_config =>
         QPoint (fst (cfg_position port_config) * scale)
                (snd (cfg_position port_config) * scale))
      port_configs.

(** The object has the scale and as many ports as the configuration says. *)
Definition built_from (config : ObjectConfig) (obj : HydraulicObjects.HydraulicObject)
    : Prop :=
  HydraulicObjects.base_svg_scale obj = svg_scale config /\
  length (HydraulicObjects.ports obj) = length (port_configs config).

(** The object is of a type of the table, built as its configuration
    says. *)
Definition of_type (types : gmap string ObjectConfig) (config : ObjectConfig)
    (obj : HydraulicObjects.HydraulicObject) : Prop :=
  types !! HydraulicObjects.object_type obj = Some config /\ built_from config obj.

(** Every port of the object is in the scene. *)
Definition ports_in_scene (obj : HydraulicObjects.HydraulicObject) : Prop :=
  Forall (fun port => Ports.scene port = true) (HydraulicObjects.ports obj).

(** The relative positions of the ports are those of the template at the
    effective scale of the object: no rotation or flip has moved them since
    the last rescale. *)
Definition relative_at_template (port_configs : list PortConfig)
    (obj : HydraulicObjects.HydraulicObject) : Prop :=
  HydraulicObjects.relative_positions obj
  = scaled_template (HydraulicObjects.current_scale obj) port_configs.

(** The absolute position of every port is the scene position of the
    object plus the relative position of the port. *)
Definition ports_follow (obj : HydraulicObjects.HydraulicObject) : Prop :=
  HydraulicObjects.absolute_positions obj
  = map (padd (HydraulicObjects.scenePos obj)) (HydraulicObjects.relative_positions obj).

Definition ports_at_template (port_configs : list PortConfig)
    (obj : HydraulicObjects.HydraulicObject) : Prop :=
  relative_at_template port_configs obj /\ ports_follow obj.

(** A table of types with one type, a valve of scale 2 with one port. *)
Definition valve_types : gmap string ObjectConfig :=
  {[ "VALVE" := {| svg_scale := 2;
                   port_configs := [ {| cfg_id := "2";
                                        cfg_type := "output";
                                        cfg_position := (15, 2) |} ] |} ]}.



(** *** Routes *)

(** The corner of the leg from [p] to [q] that
    [create_orthogonal_segments] puts between them. *)
Definition corner (p q : QPointF) : QPointF :=
  if Rge_dec (Rabs (px q - px p)) (Rabs (py q - py p))
  then QPoint (px q) (py p)
  else QPoint (px p) (py q).

(** The points of a route after [current]: for each stop, the corner of the
    leg that leads to it and the stop. *)
Fixpoint legs (current : QPointF) (stops : list QPointF) : list QPointF :=
  match stops with
  | [] => []
  | stop :: rest => corner current stop :: stop :: legs stop rest
  end.



(** *** components/pipe.py: the interactive builder *)

Module PipeBuilder.
Import HydraulicObjects ConnectionController.

(** [InteractivePipeBuilder.create_orthogonal_segments]. *)
Definition create_orthogonal_segments (start end_pos : QPointF) : list QPointF :=
  let dx := px end_pos - px start in
  let dy := py end_pos - py start in
  if Rge_dec (Rabs dx) (Rabs dy)
  then [start; QPoint (px end_pos) (py start); end_pos]
  else [start; QPoint (px start) (py end_pos); end_pos].

(** The [for waypoint in self.waypoints] loop of [calculate_preview_path]:
    the state is [(points, current_pos)]. *)
Fixpoint preview_loop (points : list QPointF) (current_pos : QPointF)
    (waypoints : list QPointF) : list QPointF * QPointF :=
  match waypoints with
  | [] => (points, current_pos)
  | waypoint :: rest =>
      let ortho_points := create_orthogonal_segments current_pos waypoint in
      preview_loop (points ++ tail ortho_points) waypoint rest
  end.

(** [InteractivePipeBuilder.calculate_preview_path]. *)
Definition calculate_preview_path (self : InteractivePipeBuilder)
    (start_pos end_pos : QPointF) : list QPointF :=
  let '(points, current_pos) :=
    preview_loop [start_pos] start_pos (builder_waypoints self) in
  let final_points := create_orthogonal_segments current_pos end_pos in
  points ++ tail final_points.

(** [InteractivePipeBuilder.update_preview]: the points of the path given to
    the preview item, [None] when the preview is left as it is. *)
Definition update_preview (components : list HydraulicObject)
    (self : InteractivePipeBuilder) (current_mouse_pos : QPointF)
    : option (list QPointF) :=
  match components !! builder_start_component self with
  | Some start_component_obj =>
      match get_port_by_id start_component_obj (builder_start_port self) with
      | None => None
      | Some start_port_obj =>
          let start_pos := Ports.scenePos start_port_obj in
          let points := calculate_preview_path self start_pos current_mouse_pos in
          match points with
          | [] => None
          | _ => Some points
          end
      end
  | None => None
  end.

End PipeBuilder.

(** Every registered pipe carries the identifier under which it is
    registered, and this identifier is the one made from a number between 1
    and the counter of the controller. *)
Definition pipe_ids_ok (self : ConnectionController.ConnectionController) : Prop :=
  forall pipe_id pipe,
    ConnectionController.pipes self !! pipe_id = Some pipe ->
    OrthogonalPipes.pipe_id pipe = pipe_id /\
    exists k, (1 <= k <= ConnectionController.pipe_counter self)%nat /\
              pipe_id = ConnectionController.format_pipe_id k.

(** *** controllers/transform_controller.py: the mirror about an axis *)

Module GroupFlip.
Import Ports HydraulicObjects TransformController.




End GroupFlip.


(** *** controllers/transform_controller.py: the history *)

Module TransformHistory.
Import HydraulicObjects.

Section WithParameters.

(** The dictionary of the parameters of a transformation. *)
Variable Parameters : Type.

(** A record of the history. *)
Record TransformationRecord : Type := mkRecord {
  operation : string;
  timestamp : R;
  objects : list string;
  parameters : Parameters
}.

(** What a [TransformController] keeps of its history. *)
Record History : Type := mkHistory {
  transformation_history : list TransformationRecord;
  max_history : nat
}.

(** [TransformController.__init__]. *)
Definition __init__ : History :=
  {| transformation_history := []; max_history := 50 |}.

(** [TransformController._record_transformation]; [now] is the value of
    [time.time()]. *)
Definition _record_transformation (now : R) (operation : string)
    (objs : list HydraulicObject) (params : Parameters) (self : History) : History :=
  let record := {| operation := operation;
                   timestamp := now;
                   objects := map component_id objs;
                   parameters := params |} in
  let history := transformation_history self ++ [record] in
  let history :=
    if (max_history self <? length history)%nat then tail history else history in
  {| transformation_history := history; max_history := max_history self |}.

(** [TransformController.get_transformation_history]. *)
Definition get_transformation_history (self : History) : list TransformationRecord :=
  transformation_history self.

(** [TransformController.clear_history]. *)
Definition clear_history (self : History) : History :=
  {| transformation_history := []; max_history := max_history self |}.

(** A call of [_record_transformation]: the time, the operation, the objects
    and the parameters. *)
Definition Call : Type := R * string * list HydraulicObject * Parameters.

Definition record_call (self : History) (call : Call) : History :=
  let '(now, operation, objs, params) := call in
  _record_transformation now operation objs params self.

(** The record that a call adds to the history. *)
Definition record_of (call : Call) : TransformationRecord :=
  let '(now, operation, objs, params) := call in
  {| operation := operation;
     timestamp := now;
     objects := map component_id objs;
     parameters := params |}.

End WithParameters.

Arguments operation {Parameters} _.
Arguments timestamp {Parameters} _.
Arguments objects {Parameters} _.
Arguments parameters {Parameters} _.
Arguments transformation_history {Parameters} _.
Arguments max_history {Parameters} _.
Arguments __init__ {Parameters}.
Arguments _record_transformation {Parameters} _ _ _ _ _.
Arguments get_transformation_history {Parameters} _.
Arguments clear_history {Parameters} _.
Arguments record_call {Parameters} _ _.
Arguments record_of {Parameters} _.

End TransformHistory.

(** *** components/ports.py and components/hydraulic_object.py: queries *)

Module PortQueries.
Import Ports HydraulicObjects.

(** [create_scaled_port]. *)
Definition create_scaled_port (port_id port_type : string) (position : QPointF)
    (initial_scale : R) : Port :=
  let port := Ports.__init__ port_id port_type position in
  if Req_dec_T initial_scale 1 then port else Ports.update_scale initial_scale port.

(** [Port.get_current_scale] and [Port.get_effective_radius]. *)
Definition get_current_scale (port : Port) : R := Ports.current_scale port.
Definition get_effective_radius (port : Port) : R := effective_radius port.

(** [HydraulicObject.get_available_ports]. *)
Definition get_available_ports (self : HydraulicObject) : list Port :=
  List.filter (fun port => negb (is_connected port)) (ports self).

(** [HydraulicObject.get_connected_ports]. *)
Definition get_connected_ports (self : HydraulicObject) : list Port :=
  List.filter (fun port => is_connected port) (ports self).

End PortQueries.

(** *** components/hydraulic_object.py: the hydraulic properties *)

Module Properties.

Section WithValue.

(** The values of the properties; [py_none] is Python's [None]. *)
Context {Value : Type} `{EqDecision Value}.
Variable py_none : Value.

(** [dict.get(key, default)]. *)
Definition dict_get (d : gmap string Value) (key : string) (default_value : Value)
    : Value :=
  default default_value (d !! key).

(** [HydraulicObject.get_property]. *)
Definition get_property (properties : gmap string Value) (key : string)
    (default_value : Value) : Value :=
  dict_get properties key default_value.

(** [HydraulicObject.set_property]: the properties afterwards, and the
    change that is signalled when the object is created. *)
Definition set_property (is_created : bool) (key : string) (value : Value)
    (properties : gmap string Value)
    : gmap string Value * option (string * Value) :=
  let old_value := dict_get properties key py_none in
  let properties := <[key := value]> properties in
  if bool_decide (old_value <> value) && is_created
  then (properties, Some (key, value))
  else (properties, None).

(** The body of the loop of [update_properties]: the state is
    [(properties, changes)]. *)
Definition update_property (state : gmap string Value * gmap string Value)
    (item : string * Value) : gmap string Value * gmap string Value :=
  let '(properties, changes) := state in
  let '(key, value) := item in
  let old_value := dict_get properties key py_none in
  if bool_decide (old_value <> value)
  then (<[key := value]> properties, <[key := value]> changes)
  else (properties, changes).

(** [HydraulicObject.update_properties]; [new_properties] are the items of
    the dictionary, in its order. The result is the properties afterwards
    and the changes that are signalled, if any. *)
Definition update_properties (is_created : bool)
    (new_properties : list (string * Value)) (properties : gmap string Value)
    : gmap string Value * option (gmap string Value) :=
  let '(properties, changes) := foldl update_property (properties, ∅) new_properties in
  if negb (bool_decide (changes = ∅)) && is_created
  then (properties, Some changes)
  else (properties, None).

(** [HydraulicObject.get_all_properties]. *)
Definition get_all_properties (properties : gmap string Value) : gmap string Value :=
  properties.

End WithValue.

End Properties.

(** *** components/hydraulic_object.py: saving and restoring *)

Module Serialization.
Import Ports HydraulicObjects.

(** The entry [scale_info] of a saved object. *)
Record ScaleInfo : Type := mkScaleInfo {
  saved_base_svg_scale : option R;
  saved_current_scale : option R
}.

(** The dictionary of a saved object: an entry that may be missing is an
    option. The hydraulic properties are left out. *)
Record SavedObject : Type := mkSavedObject {
  saved_component_id : string;
  saved_object_type : string;
  saved_position : option (R * R);
  saved_scale_info : option ScaleInfo
}.

(** [HydraulicObject.to_dict]. *)
Definition to_dict (self : HydraulicObject) : SavedObject :=
  {| saved_component_id := component_id self;
     saved_object_type := object_type self;
     saved_position := Some (px (scenePos self), py (scenePos self));
     saved_scale_info :=
       Some {| saved_base_svg_scale := Some (base_svg_scale self);
               saved_current_scale := Some (current_scale self) |} |}.

(** [obj.current_scale = scale]. *)
Definition set_current_scale (new_scale : R) (self : HydraulicObject) : HydraulicObject :=
  {| component_id := component_id self;
     object_type := object_type self;
     base_svg_scale := base_svg_scale self;
     current_scale := new_scale;
     ports := ports self;
     is_created := is_created self;
     scenePos := scenePos self;
     rotation := rotation self;
     scale := scale self;
     transform := transform self |}.

Section WithConfiguration.

Variable HYDRAULIC_OBJECT_TYPES : gmap string ObjectConfig.
Variable GLOBAL_SCALE : R.

(** [HydraulicObject.from_dict]. *)
Definition from_dict (data : SavedObject) : result HydraulicObject :=
  bind_result
    (HydraulicObjects.__init__ HYDRAULIC_OBJECT_TYPES GLOBAL_SCALE
       (saved_component_id data) (saved_object_type data))
    (fun obj =>
       let pos_data := default (0, 0) (saved_position data) in
       let obj := HydraulicObjects.setPos (QPoint (fst pos_data) (snd pos_data)) obj in
       match saved_scale_info data with
       | Some scale_info =>
           match saved_current_scale scale_info with
           | Some saved_scale =>
               Ok (HydraulicObjects.update_scale HYDRAULIC_OBJECT_TYPES GLOBAL_SCALE None
                     (set_current_scale saved_scale obj))
           | None => Ok obj
           end
       | None => Ok obj
       end).

(** The body of the loop of [reset_ports_to_config_positions] for the port
    of index [i]; the positions of a configuration are lists, so the test
    [isinstance(base_position, (list, tuple))] holds. *)
Definition reset_port (self : HydraulicObject) (port_configs : list PortConfig)
    (i : nat) (port : Port) : Port :=
  match port_configs !! i with
  | Some port_config =>
      let base_position := cfg_position port_config in
      let scaled_x := fst base_position * current_scale self in
      let scaled_y := snd base_position * current_scale self in
      let new_position := QPoint scaled_x scaled_y in
      let port := set_initial_position new_position port in
      Ports.setPos (padd (scenePos self) new_position) port
  | None => port
  end.

(** [reset_ports_to_config_positions]. *)
Definition reset_ports_to_config_positions (self : HydraulicObject) : HydraulicObject :=
  let port_configs := get_port_configs HYDRAULIC_OBJECT_TYPES (object_type self) in
  set_ports (imap (reset_port self port_configs) (ports self)) self.

End WithConfiguration.

End Serialization.

(** *** config/svg_port_parser.py: the validation of a drawing *)

Module SVGValidation.
Import SVGPortParser.

(** The warnings of [validate_svg_ports]; the last one names the port and
    its position. *)
Inductive Warning : Type :=
| NoPortDetected
| NoInputPort
| NoOutputPort
| DuplicatedPortIds
| NegativePosition (port_id : string) (position : R * R).

Section WithFloat.

Variable py_float : string -> option R.

(** The circles that make a port: the identifier is that of a port and the
    centre is read. *)
Definition makes_a_port (circle : Element) : bool :=
  _is_port_id (get circle "id" "") &&
  match _extract_circle_position py_float circle with
  | Some _ => true
  | None => false
  end.

(** The body of the last loop of [validate_svg_ports]. *)
Definition check_position (warnings : list Warning) (port : PortInfo) : list Warning :=
  let '(x, y) := info_position port in
  if Rlt_dec x 0 then warnings ++ [NegativePosition (info_id port) (info_position port)]
  else if Rlt_dec y 0 then warnings ++ [NegativePosition (info_id port) (info_position port)]
  else warnings.

(** [SVGPortParser.validate_svg_ports], from the parsed root element on. *)
Definition validate_svg_ports (root : Element)
    (viewbox : R * R * R * R) (target_size : R * R) : bool * list Warning :=
  let warnings := [] in
  let ports := parse_svg_ports py_float root viewbox target_size in
  match ports with
  | [] => (false, warnings ++ [NoPortDetected])
  | _ =>
      let types := map info_type ports in
      let warnings :=
        if bool_decide ("input" ∉ types) && bool_decide ("bidirectional" ∉ types)
        then warnings ++ [NoInputPort] else warnings in
      let warnings :=
        if bool_decide ("output" ∉ types) && bool_decide ("bidirectional" ∉ types)
        then warnings ++ [NoOutputPort] else warnings in
      let ids := map info_id ports in
      let warnings :=
        if bool_decide (length ids <> size (list_to_set ids : gset string))
        then warnings ++ [DuplicatedPortIds] else warnings in
      let warnings := foldl check_position warnings ports in
      let is_valid := bool_decide (length warnings = 0%nat) in
      (is_valid, warnings)
  end.

End WithFloat.

End SVGValidation.

(** *** controllers/component_controller.py *)

Module ComponentController.
Import Ports HydraulicObjects Serialization.

(** A Python [dict] in the order of its keys: the assignment [d[key] = value]
    keeps the place of a key that is present and puts a new key last. *)
Fixpoint dict_set {V : Type} (key : string) (value : V) (d : list (string * V))
    : list (string * V) :=
  match d with
  | [] => [(key, value)]
  | (k, v) :: rest =>
      if decide (k = key) then (k, value) :: rest
      else (k, v) :: dict_set key value rest
  end.

(** [d.get(key)]. *)
Fixpoint dict_lookup {V : Type} (key : string) (d : list (string * V)) : option V :=
  match d with
  | [] => None
  | (k, v) :: rest => if decide (k = key) then Some v else dict_lookup key rest
  end.

(** [del d[key]]: the entries of the other keys stay, in their order. *)
Fixpoint dict_del {V : Type} (key : string) (d : list (string * V))
    : list (string * V) :=
  match d with
  | [] => []
  | (k, v) :: rest =>
      if decide (k = key) then dict_del key rest else (k, v) :: dict_del key rest
  end.

(** [l.remove(x)]: the first occurrence is removed. *)
Fixpoint list_remove (x : string) (l : list string) : list string :=
  match l with
  | [] => []
  | y :: rest => if decide (y = x) then rest else y :: list_remove x rest
  end.

(** [f"{counter:03d}"]. *)
Definition format_counter (counter : nat) : string :=
  let digits := pretty counter in
  String.append (match String.length digits with
                 | 1%nat => "00"
                 | 2%nat => "0"
                 | _ => ""
                 end) digits.

(** A [ComponentController]; the signals it emits are left out. *)
Record ComponentController : Type := mkComponentController {
  objects : list (string * HydraulicObject);
  objects_by_type : list (string * list string);
  type_counters : gmap string nat;
  next_position : QPointF;
  position_offset : QPointF;
  max_objects_per_row : nat;
  current_row_count : nat
}.

(** [ComponentController.__init__]. *)
Definition __init__ : ComponentController :=
  {| objects := [];
     objects_by_type := [];
     type_counters := ∅;
     next_position := QPoint 100 100;
     position_offset := QPoint 150 120;
     max_objects_per_row := 6;
     current_row_count := 0 |}.

(** [ComponentController.generate_object_id]. *)
Definition generate_object_id (object_type : string) (self : ComponentController)
    : string * ComponentController :=
  let counters := type_counters self in
  let counters :=
    match counters !! object_type with
    | None => <[object_type := 0%nat]> counters
    | Some _ => counters
    end in
  let counters := <[object_type := S (counters !!! object_type)]> counters in
  let counter := counters !!! object_type in
  let prefix := lower object_type in
  (String.append prefix (String.append "_" (format_counter counter)),
   {| objects := objects self;
      objects_by_type := objects_by_type self;
      type_counters := counters;
      next_position := next_position self;
      position_offset := position_offset self;
      max_objects_per_row := max_objects_per_row self;
      current_row_count := current_row_count self |}).

(** The identifiers that successive calls of [generate_object_id] return
    for a list of types, and the controller afterwards. *)
Fixpoint generate_object_ids (object_types : list string) (self : ComponentController)
    : list string * ComponentController :=
  match object_types with
  | [] => ([], self)
  | object_type :: rest =>
      let '(object_id, self) := generate_object_id object_type self in
      let '(object_ids, self) := generate_object_ids rest self in
      (object_id :: object_ids, self)
  end.

(** [ComponentController.calculate_next_position]. *)
Definition calculate_next_position (self : ComponentController)
    : QPointF * ComponentController :=
  let position := next_position self in
  let row_count := S (current_row_count self) in
  if (max_objects_per_row self <=? row_count)%nat then
    (position,
     {| objects := objects self;
        objects_by_type := objects_by_type self;
        type_counters := type_counters self;
        next_position := padd (QPoint 100 (py (next_position self)))
                              (QPoint 0 (py (position_offset self)));
        position_offset := position_offset self;
        max_objects_per_row := max_objects_per_row self;
        current_row_count := 0 |})
  else
    (position,
     {| objects := objects self;
        objects_by_type := objects_by_type self;
        type_counters := type_counters self;
        next_position := padd (next_position self) (QPoint (px (position_offset self)) 0);
        position_offset := position_offset self;
        max_objects_per_row := max_objects_per_row self;
        current_row_count := row_count |}).

(** The places of the automatic layout: six objects a row, 150 apart, the
    rows 120 apart, from (100, 100). *)
Definition grid (k : nat) : QPointF :=
  QPoint (100 + 150 * INR (k mod 6)) (100 + 120 * INR (k / 6)).

(** [ComponentController.register_object]. *)
Definition register_object (hydraulic_obj : HydraulicObject) (object_type : string)
    (self : ComponentController) : ComponentController :=
  let object_id := component_id hydraulic_obj in
  let by_type := objects_by_type self in
  let by_type :=
    match dict_lookup object_type by_type with
    | None => dict_set object_type [] by_type
    | Some _ => by_type
    end in
  let by_type :=
    dict_set object_type (default [] (dict_lookup object_type by_type) ++ [object_id])
             by_type in
  {| objects := dict_set object_id hydraulic_obj (objects self);
     objects_by_type := by_type;
     type_counters := type_counters self;
     next_position := next_position self;
     position_offset := position_offset self;
     max_objects_per_row := max_objects_per_row self;
     current_row_count := current_row_count self |}.

(** [ComponentController.get_object]. *)
Definition get_object (object_id : string) (self : ComponentController)
    : option HydraulicObject :=
  dict_lookup object_id (objects self).

(** [ComponentController.get_objects_by_type]. *)
Definition get_objects_by_type (object_type : string) (self : ComponentController)
    : list HydraulicObject :=
  let object_ids := default [] (dict_lookup object_type (objects_by_type self)) in
  omap (fun obj_id => dict_lookup obj_id (objects self)) object_ids.

(** [ComponentController.get_all_objects]. *)
Definition get_all_objects (self : ComponentController) : list HydraulicObject :=
  map snd (objects self).

(** The loop of [remove_object] on [objects_by_type]: the identifier is
    removed from the first list that holds it. *)
Fixpoint remove_from_types (object_id : string) (by_type : list (string * list string))
    : list (string * list string) :=
  match by_type with
  | [] => []
  | (object_type, object_ids) :: rest =>
      if bool_decide (object_id ∈ object_ids)
      then (object_type, list_remove object_id object_ids) :: rest
      else (object_type, object_ids) :: remove_from_types object_id rest
  end.

(** [ComponentController.remove_object]; the object that is removed, and
    its ports, leave the scene and the controller. *)
Definition remove_object (object_id : string) (self : ComponentController)
    : bool * ComponentController :=
  match dict_lookup object_id (objects self) with
  | None => (false, self)
  | Some hydraulic_obj =>
      (true,
       {| objects := dict_del object_id (objects self);
          objects_by_type := remove_from_types object_id (objects_by_type self);
          type_counters := type_counters self;
          next_position := next_position self;
          position_offset := position_offset self;
          max_objects_per_row := max_objects_per_row self;
          current_row_count := current_row_count self |})
  end.

(** [ComponentController.clear_all]. *)
Definition clear_all (self : ComponentController) : ComponentController :=
  let object_ids := map fst (objects self) in
  let self := foldl (fun self object_id => snd (remove_object object_id self))
                    self object_ids in
  {| objects := objects self;
     objects_by_type := [];
     type_counters := ∅;
     next_position := QPoint 100 100;
     position_offset := position_offset self;
     max_objects_per_row := max_objects_per_row self;
     current_row_count := 0 |}.

(** [ComponentController.export_objects_data]. *)
Definition export_objects_data (self : ComponentController) : list SavedObject :=
  map (fun entry => to_dict (snd entry)) (objects self).

Section WithConfiguration.

Variable HYDRAULIC_OBJECT_TYPES : gmap string ObjectConfig.
Variable GLOBAL_SCALE : R.

(** [ComponentController.add_object]: the identifier of the new object, or
    [None]. The properties of the object are left out. An exception raised
    on the way is caught, and what was done before it stays. The object is
    made, moved and its ports are put in the scene as
    [HydraulicObjects.add_object] says ([create_hydraulic_object] does not
    move an object to the null point, where a new object is already). *)
Definition add_object (object_type : string) (position : option QPointF)
    (self : ComponentController) : option string * ComponentController :=
  match HYDRAULIC_OBJECT_TYPES !! object_type with
  | None => (None, self)
  | Some _ =>
      let '(object_id, self) := generate_object_id object_type self in
      let '(position, self) :=
        match position with
        | None => calculate_next_position self
        | Some position => (position, self)
        end in
      match HydraulicObjects.add_object HYDRAULIC_OBJECT_TYPES GLOBAL_SCALE
              object_id object_type position with
      | Raise _ => (None, self)
      | Ok hydraulic_obj =>
          let self := register_object hydraulic_obj object_type self in
          (Some object_id, self)
      end
  end.

(** The request [add_object(object_type, position=position)] makes the
    controller choose the position: the type is known and no position is
    given. *)
Definition placed_automatically (request : string * option QPointF) : bool :=
  bool_decide (is_Some (HYDRAULIC_OBJECT_TYPES !! fst request)) &&
  match snd request with
  | None => true
  | Some _ => false
  end.

(** The body of the loop of [import_objects_data]: an object that cannot be
    made again is skipped. *)
Definition import_object (self : ComponentController) (obj_data : SavedObject)
    : ComponentController :=
  match from_dict HYDRAULIC_OBJECT_TYPES GLOBAL_SCALE obj_data with
  | Raise _ => self
  | Ok hydraulic_obj =>
      let hydraulic_obj :=
        add_object_ports_to_scene (scenePos hydraulic_obj) hydraulic_obj in
      register_object hydraulic_obj (object_type hydraulic_obj) self
  end.

(** [ComponentController.import_objects_data]. *)
Definition import_objects_data (objects_data : list SavedObject)
    (self : ComponentController) : ComponentController :=
  let self := clear_all self in
  foldl import_object self objects_data.

End WithConfiguration.

End ComponentController.

(** *** config/hydraulic_objects.py: the constraints on the properties *)

Module PropertyConstraints.

(** An entry of [property_constraints]: the bounds that are given. *)
Record Constraint : Type := mkConstraint {
  constraint_min : option R;
  constraint_max : option R
}.

Section WithValue.

(** The values of the properties; [as_number value] is the number that
    [value] is when [isinstance(value, (int, float))] holds. *)
Context {Value : Type}.
Variable as_number : Value -> option R.

(** [config.get("property_constraints", {})] and
    [config.get("default_properties", {})] for the configuration of a type,
    both empty for an unknown type. *)
Variable property_constraints : string -> gmap string Constraint.
Variable default_properties : string -> gmap string Value.

(** [get_default_properties]. *)
Definition get_default_properties (object_type : string) : gmap string Value :=
  default_properties object_type.

(** [validate_property]. *)
Definition validate_property (object_type property_name : string) (value : Value) : bool :=
  let constraints := property_constraints object_type in
  match constraints !! property_name with
  | None => true
  | Some constraint =>
      match as_number value with
      | Some number =>
          let min_val := constraint_min constraint in
          let max_val := constraint_max constraint in
          match min_val with
          | Some min_val =>
              if Rlt_dec number min_val then false
              else match max_val with
                   | Some max_val => if Rgt_dec number max_val then false else true
                   | None => true
                   end
          | None =>
              match max_val with
              | Some max_val => if Rgt_dec number max_val then false else true
              | None => true
              end
          end
      | None => true
      end
  end.

(** The body of the loop of [ComponentController.prepare_object_properties]:
    the state is the properties and the keys whose value was refused, for
    which [property_validation_failed] is emitted. *)
Definition prepare_property (object_type : string)
    (state : gmap string Value * list string) (item : string * Value)
    : gmap string Value * list string :=
  let '(properties, refused) := state in
  let '(key, value) := item in
  if validate_property object_type key value
  then (<[key := value]> properties, refused)
  else (properties, refused ++ [key]).

(** [ComponentController.prepare_object_properties]; [custom_properties] are
    the items of the dictionary, in its order, or [None]. *)
Definition prepare_object_properties (object_type : string)
    (custom_properties : option (list (string * Value)))
    : gmap string Value * list string :=
  let properties := get_default_properties object_type in
  match custom_properties with
  | None | Some [] => (properties, [])
  | Some custom_properties =>
      foldl (prepare_property object_type) (properties, []) custom_properties
  end.

End WithValue.

End PropertyConstraints.

(** ** Part II. The properties *)

(** *** Lists and strings *)

Lemma find_first {A : Type} (f : A -> bool) (l : list A) (i : nat) (a : A) :
  l !! i = Some a -> f a = true ->
  (forall j b, (j < i)%nat -> l !! j = Some b -> f b = false) ->
  List.find f l = Some a.
Proof.
  revert i. induction l as [|b l IH]; intros i Hi Ha Hbefore; [discriminate|].
  destruct i as [|i]; simpl in *.
  - injection Hi as ->. rewrite Ha. reflexivity.
  - rewrite (Hbefore O b) by (simpl; auto with arith).
    apply (IH i); auto.
    intros j c Hj Hc. apply (Hbefore (S j) c); simpl; auto with arith.
Qed.

Lemma find_nothing {A : Type} (f : A -> bool) (l : list A) :
  (forall a, a ∈ l -> f a = false) -> List.find f l = None.
Proof.
  induction l as [|b l IH]; intros H; [reflexivity|]. simpl.
  rewrite (H b) by constructor. apply IH. intros a Ha. apply H. now constructor.
Qed.

Lemma append_String (c : ascii) (s t : string) :
  String.append (String c s) t = String c (String.append s t).
Proof. reflexivity. Qed.

Lemma prefix_spec (n h : string) :
  String.prefix n h = true <-> exists after, h = String.append n after.
Proof.
  revert h. induction n as [|c n IH]; intros h.
  - split; [simpl; eauto|]. intros _. destruct h; reflexivity.
  - destruct h as [|d h]; simpl.
    + split; [discriminate|]. intros [after H]. discriminate.
    + destruct (Ascii.ascii_dec c d) as [->|Hne].
      * rewrite IH. split; intros [after H]; exists after.
        -- now rewrite H.
        -- now injection H.
      * split; [discriminate|]. intros [after H]. injection H as H _.
        symmetry in H. contradiction.
Qed.

Lemma contains_spec (n h : string) :
  contains n h = true <-> is_substring n h.
Proof.
  unfold is_substring. induction h as [|c h IH].
  - cbn [contains]. destruct (String.prefix n "") eqn:E.
    + split; [|reflexivity]. intros _. apply prefix_spec in E as [after E].
      exists "", after. exact E.
    + split; [discriminate|]. intros (before & after & H).
      destruct before; simpl in H.
      * assert (String.prefix n "" = true) by (apply prefix_spec; eauto). congruence.
      * discriminate.
  - cbn [contains]. destruct (String.prefix n (String c h)) eqn:E.
    + split; [|reflexivity]. intros _. apply prefix_spec in E as [after E].
      exists "", after. exact E.
    + rewrite IH. split; intros (before & after & H).
      * exists (String c before), after. simpl. now rewrite H.
      * destruct before as [|d before]; simpl in H.
        -- assert (String.prefix n (String c h) = true) by (apply prefix_spec; eauto).
           congruence.
        -- injection H as _ H. eauto.
Qed.

(** *** The stable sort *)

Section SortByKey.
Context {A : Type} (key : A -> N).

Definition key_le (a b : A) : Prop := (key a <= key b)%N.

Lemma insert_by_key_perm (a : A) (l : list A) :
  Permutation (a :: l) (insert_by_key key a l).
Proof.
  induction l as [|b l IH]; simpl; [reflexivity|].
  destruct (key a <=? key b)%N; [reflexivity|].
  rewrite perm_swap. now apply perm_skip.
Qed.

Lemma sort_by_key_perm (l : list A) : Permutation l (sort_by_key key l).
Proof.
  induction l as [|a l IH]; simpl; [reflexivity|].
  rewrite <- insert_by_key_perm. now apply perm_skip.
Qed.

Lemma insert_by_key_sorted (a : A) (l : list A) :
  StronglySorted key_le l -> StronglySorted key_le (insert_by_key key a l).
Proof.
  induction 1 as [|b l Hl IH Hb]; simpl.
  - repeat constructor.
  - destruct (N.leb_spec (key a) (key b)) as [Hab|Hba].
    + constructor; [now constructor|].
      constructor; [exact Hab|].
      eapply Forall_impl; [exact Hb|]. unfold key_le. intros c Hc. lia.
    + constructor; [exact IH|].
      rewrite <- insert_by_key_perm. constructor; [|exact Hb].
      unfold key_le. lia.
Qed.

Lemma sort_by_key_sorted (l : list A) : StronglySorted key_le (sort_by_key key l).
Proof.
  induction l as [|a l IH]; simpl; [constructor|].
  now apply insert_by_key_sorted.
Qed.

Lemma insert_by_key_stable (k : N) (a : A) (l : list A) :
  filter (fun b => key b = k) (insert_by_key key a l)
  = filter (fun b => key b = k) (a :: l).
Proof.
  induction l as [|b l IH]; simpl; [reflexivity|].
  destruct (N.leb_spec (key a) (key b)) as [Hab|Hba]; [reflexivity|].
  rewrite filter_cons, IH, !filter_cons.
  repeat case_decide; try reflexivity; lia.
Qed.

Lemma sort_by_key_stable (k : N) (l : list A) :
  filter (fun b => key b = k) (sort_by_key key l) = filter (fun b => key b = k) l.
Proof.
  induction l as [|a l IH]; simpl; [reflexivity|].
  rewrite insert_by_key_stable, !filter_cons, IH. reflexivity.
Qed.

Lemma sorted_occurs_before (l : list A) (a b : A) :
  StronglySorted key_le l -> a ∈ l -> b ∈ l -> (key a < key b)%N ->
  occurs_before a b l.
Proof.
  intros Hs. induction Hs as [|c l Hs IH Hc]; intros Ha Hb Hlt.
  - inversion Ha.
  - rewrite Forall_forall in Hc. unfold key_le in Hc.
    apply elem_of_cons in Hb as [->|Hb].
    + apply elem_of_cons in Ha as [->|Ha]; [lia|].
      specialize (Hc a Ha). lia.
    + apply elem_of_cons in Ha as [->|Ha].
      * apply list_elem_of_split in Hb as (l2 & l3 & ->).
        exists [], l2, l3. reflexivity.
      * destruct (IH Ha Hb Hlt) as (l1 & l2 & l3 & ->).
        exists (c :: l1), l2, l3. reflexivity.
Qed.

End SortByKey.

(** *** Rounding *)


Lemma py_div_ok (a b : R) : b <> 0 -> py_div a b = Ok (a / b).
Proof.
  intros Hb. unfold py_div. destruct (Req_dec_T b 0); [contradiction|reflexivity].
Qed.

Lemma py_div_by_zero (a : R) : py_div a 0 = Raise ZeroDivisionError.
Proof.
  unfold py_div. destruct (Req_dec_T 0 0) as [_|n]; [reflexivity|].
  exfalso; apply n; reflexivity.
Qed.

(** *** The SVG port parser *)

Section CoordinateConversion.
Import SVGPortParser.



Lemma convert_svg_to_qt_coordinates_formula_ok
    (svg_x svg_y vb_x vb_y vb_width vb_height target_width target_height : R) :
  vb_width <> 0 -> vb_height <> 0 ->
  exists q,
    _convert_svg_to_qt_coordinates
      (svg_x, svg_y) (vb_x, vb_y, vb_width, vb_height) (target_width, target_height)
    = Ok q.
Proof.
  intros Hw Hh. unfold _convert_svg_to_qt_coordinates.
  rewrite (py_div_ok _ _ Hw). cbn [bind_result].
  rewrite (py_div_ok _ _ Hh). cbn [bind_result]. eauto.
Qed.

Lemma convert_svg_to_qt_coordinates_zero_width
    (svg_pos : R * R) (vb_x vb_y vb_height : R) (target_size : R * R) :
  _convert_svg_to_qt_coordinates svg_pos (vb_x, vb_y, 0, vb_height) target_size
  = Raise ZeroDivisionError.
Proof.
  destruct svg_pos, target_size. unfold _convert_svg_to_qt_coordinates.
  rewrite py_div_by_zero. reflexivity.
Qed.

End CoordinateConversion.

Section PortKind.
Import SVGPortParser.

Lemma analyze_circle_as_port_some (py_float : string -> option R)
    (circle : Element) (viewbox : R * R * R * R) (target_size : R * R)
    (info : PortInfo) :
  _analyze_circle_as_port py_float circle viewbox target_size = Ok (Some info) ->
  _is_port_id (get circle "id" "") = true /\
  svg_element_id info = get circle "id" "" /\
  info_type info = _determine_port_type (get circle "id" "") circle.
Proof.
  unfold _analyze_circle_as_port.
  destruct (_is_port_id (get circle "id" "")); simpl; [|discriminate].
  destruct (_extract_circle_position py_float circle); [|discriminate].
  destruct (_convert_svg_to_qt_coordinates _ _ _); simpl; [|discriminate].
  intros H. injection H as <-. auto.
Qed.

Lemma search_digits_first_run (s digits : string) :
  search_digits s = Some digits ->
  exists before after,
    s = String.append before (String.append digits after) /\
    all_chars (fun c => negb (is_digit c)) before = true /\
    digits1 digits = true /\
    take_while is_digit after = "".
Proof.
  induction s as [|c s IH]; simpl; [discriminate|].
  destruct (is_digit c) eqn:Ec.
  - intros H. injection H as <-. exists "".
    assert (G : forall t, exists after,
                 t = String.append (take_while is_digit t) after /\
                 all_chars is_digit (take_while is_digit t) = true /\
                 take_while is_digit after = "").
    { induction t as [|d t IHt]; simpl.
      - exists "". auto.
      - destruct (is_digit d) eqn:Ed.
        + destruct IHt as (after & E1 & E2 & E3). exists after.
          cbn [all_chars]. rewrite append_String, Ed, E2, <- E1. auto.
        + exists (String d t). simpl. rewrite Ed. auto. }
    destruct (G s) as (after & E1 & E2 & E3). exists after.
    rewrite append_String, <- E1. unfold digits1.
    cbn [all_chars String.eqb negb]. rewrite Ec, E2. auto.
  - intros H. destruct (IH H) as (before & after & E1 & E2 & E3 & E4).
    exists (String c before), after.
    cbn [all_chars]. rewrite append_String, Ec, E2, <- E1. auto.
Qed.

Local Ltac in_vocabulary :=
  apply (bool_decide_unpack _); vm_compute; exact I.

(** C7, as amended. The port kind of a circle is, in this order of
    precedence: (a) the lower-cased [data-type] attribute when it is input,
    output or bidirectional; (b) the first of input, output, bidirectional
    contained in the lower-cased [class] attribute; (c) the kind of the
    first keyword of the vocabulary, in the order of the table, contained
    in the lower-cased identifier (the table maps inlet, aspiration and
    suction to input, outlet, discharge and refoulement to output,
    connection and both to bidirectional); (d) the parity of the first run
    of digits of the identifier, odd giving input and even output; (e)
    bidirectional. The kind recorded for a circle recognised as a port is
    this one. *)
Theorem determine_port_type_precedence (circle_id : string) (circle : Element) :
  let data_type := lower (get circle "data-type" "") in
  let class_attr := lower (get circle "class" "") in
  let id_lower := lower circle_id in
  let not_a := data_type ∉ port_kinds in
  let not_b := forall kind, kind ∈ port_kinds -> ~ is_substring kind class_attr in
  let not_c := forall keyword kind,
      (keyword, kind) ∈ port_type_mapping -> ~ is_substring keyword id_lower in
  (data_type ∈ port_kinds ->
     _determine_port_type circle_id circle = data_type) /\
  (not_a ->
     forall i kind, port_kinds !! i = Some kind ->
       is_substring kind class_attr ->
       (forall j kind', (j < i)%nat -> port_kinds !! j = Some kind' ->
          ~ is_substring kind' class_attr) ->
       _determine_port_type circle_id circle = kind) /\
  (not_a -> not_b ->
     forall i keyword kind, port_type_mapping !! i = Some (keyword, kind) ->
       is_substring keyword id_lower ->
       (forall j keyword' kind', (j < i)%nat ->
          port_type_mapping !! j = Some (keyword', kind') ->
          ~ is_substring keyword' id_lower) ->
       _determine_port_type circle_id circle = kind) /\
  (not_a -> not_b -> not_c ->
     forall digits, search_digits circle_id = Some digits ->
       _determine_port_type circle_id circle
       = if (py_int digits mod 2 =? 1)%N then "input" else "output") /\
  (not_a -> not_b -> not_c -> search_digits circle_id = None ->
     _determine_port_type circle_id circle = "bidirectional") /\
  ((forall keyword, keyword ∈ ["inlet"; "aspiration"; "suction"] ->
      (keyword, "input") ∈ port_type_mapping) /\
   (forall keyword, keyword ∈ ["outlet"; "discharge"; "refoulement"] ->
      (keyword, "output") ∈ port_type_mapping) /\
   (forall keyword, keyword ∈ ["connection"; "both"] ->
      (keyword, "bidirectional") ∈ port_type_mapping)) /\
  (forall py_float viewbox target_size info,
     get circle "id" "" = circle_id ->
     _analyze_circle_as_port py_float circle viewbox target_size = Ok (Some info) ->
     _is_port_id circle_id = true /\
     info_type info = _determine_port_type circle_id circle).
Proof.
  intros data_type class_attr id_lower not_a not_b not_c.
  assert (Hb : not_b -> List.find (fun k => contains k class_attr) port_kinds = None).
  { intros Hnb. apply find_nothing. intros k Hk.
    destruct (contains k class_attr) eqn:E; [|reflexivity].
    apply contains_spec in E. destruct (Hnb k Hk E). }
  assert (Hc : not_c ->
               List.find (fun kv => contains (fst kv) id_lower) port_type_mapping = None).
  { intros Hnc. apply find_nothing. intros [kw ty] Hk. simpl.
    destruct (contains kw id_lower) eqn:E; [|reflexivity].
    apply contains_spec in E. destruct (Hnc kw ty Hk E). }
  unfold _determine_port_type. fold data_type class_attr id_lower.
  split; [|split; [|split; [|split; [|split; [|split; [repeat split|]]]]]].
  - intros Ha. now rewrite bool_decide_eq_true_2.
  - intros Hna i kind Hi Hk Hbefore. rewrite bool_decide_eq_false_2 by exact Hna.
    rewrite (find_first _ _ i kind Hi); [reflexivity|now apply contains_spec|].
    intros j k' Hj Hk'. destruct (contains k' class_attr) eqn:E; [|reflexivity].
    apply contains_spec in E. destruct (Hbefore j k' Hj Hk' E).
  - intros Hna Hnb i keyword kind Hi Hk Hbefore.
    rewrite bool_decide_eq_false_2 by exact Hna. rewrite (Hb Hnb).
    rewrite (find_first _ _ i (keyword, kind) Hi); [reflexivity|now apply contains_spec|].
    intros j [kw' k'] Hj Hk'. simpl.
    destruct (contains kw' id_lower) eqn:E; [|reflexivity].
    apply contains_spec in E. destruct (Hbefore j kw' k' Hj Hk' E).
  - intros Hna Hnb Hnc digits Hd.
    rewrite bool_decide_eq_false_2 by exact Hna. now rewrite (Hb Hnb), (Hc Hnc), Hd.
  - intros Hna Hnb Hnc Hd.
    rewrite bool_decide_eq_false_2 by exact Hna. now rewrite (Hb Hnb), (Hc Hnc), Hd.
  - intros kw H.
    repeat (apply elem_of_cons in H as [->|H]; [in_vocabulary|]). inversion H.
  - intros kw H.
    repeat (apply elem_of_cons in H as [->|H]; [in_vocabulary|]). inversion H.
  - intros kw H.
    repeat (apply elem_of_cons in H as [->|H]; [in_vocabulary|]). inversion H.
  - intros py_float viewbox target_size info Hid Hinfo.
    destruct (analyze_circle_as_port_some _ _ _ _ _ Hinfo) as (A & _ & B).
    subst circle_id. split; [exact A|]. rewrite B. reflexivity.
Qed.

(** C7, the claim as stated fails: the number whose parity decides is the
    first run of digits of the identifier, not its numeric suffix. The
    identifier [Port1_2] matches the port patterns and holds no keyword;
    its first run of digits is 1, so the parser answers input, while its
    numeric suffix 2 is even. *)
Lemma port_kind_is_not_by_numeric_suffix :
  _is_port_id "Port1_2" = true /\
  numeric_suffix "Port1_2" = Some "2" /\
  _determine_port_type "Port1_2" (Elem "circle" ∅ []) = "input" /\
  port_type_by_numeric_suffix "Port1_2" (Elem "circle" ∅ []) = "output".
Proof. vm_compute. auto. Qed.

End PortKind.

Section PortOrder.
Import SVGPortParser.

Lemma extract_port_number_sentinel (svg_id : string) :
  search_digits svg_id = None -> _extract_port_number svg_id = 999%N.
Proof. unfold _extract_port_number. now intros ->. Qed.

Lemma extract_port_number_digits (svg_id digits : string) :
  search_digits svg_id = Some digits -> _extract_port_number svg_id = py_int digits.
Proof. unfold _extract_port_number. now intros ->. Qed.

Lemma analyze_circle_as_port_ok (py_float : string -> option R)
    (circle : Element) (vb_x vb_y vb_width vb_height : R)
    (target_size : R * R) (svg_position : R * R) :
  _is_port_id (get circle "id" "") = true ->
  _extract_circle_position py_float circle = Some svg_position ->
  vb_width <> 0 -> vb_height <> 0 ->
  exists info,
    _analyze_circle_as_port py_float circle (vb_x, vb_y, vb_width, vb_height) target_size
    = Ok (Some info) /\
    svg_element_id info = get circle "id" "".
Proof.
  intros Hid Hpos Hw Hh. unfold _analyze_circle_as_port.
  rewrite Hid, Hpos. cbn [negb]. destruct svg_position, target_size.
  destruct (convert_svg_to_qt_coordinates_formula_ok r r0 vb_x vb_y vb_width vb_height r1 r2 Hw Hh)
    as [q ->].
  cbn [bind_result]. eexists. split; reflexivity.
Qed.

(** C8, as amended. The ports of a parsed drawing are sorted by the number
    of their original identifier (its first run of digits, 999 when it
    holds none), ports with the same key staying in document order; hence
    an identifier without a number comes after every identifier whose
    number is below 999, and before every identifier whose number is above
    999. *)
Theorem parse_svg_ports_sorted (py_float : string -> option R)
    (root : Element) (viewbox : R * R * R * R) (target_size : R * R) :
  let ports := parse_svg_ports py_float root viewbox target_size in
  StronglySorted (key_le port_key) ports /\
  (forall collected,
     collect_ports py_float (_find_all_circles root) viewbox target_size []
     = Ok collected ->
     Permutation collected ports /\
     forall k, filter (fun p => port_key p = k) ports
               = filter (fun p => port_key p = k) collected) /\
  (forall p, search_digits (svg_element_id p) = None -> port_key p = 999%N) /\
  (forall p q digits, p ∈ ports -> q ∈ ports ->
     search_digits (svg_element_id p) = None ->
     search_digits (svg_element_id q) = Some digits ->
     ((py_int digits < 999)%N -> occurs_before q p ports) /\
     ((999 < py_int digits)%N -> occurs_before p q ports)).
Proof.
  intros ports. subst ports. unfold parse_svg_ports.
  destruct (collect_ports py_float (_find_all_circles root) viewbox target_size [])
    as [collected|e].
  - pose proof (sort_by_key_sorted port_key collected) as Hs.
    split; [exact Hs|]. split; [|split].
    + intros c Hc. injection Hc as <-. split.
      * apply sort_by_key_perm.
      * intros k. apply sort_by_key_stable.
    + intros p Hp. now apply extract_port_number_sentinel.
    + intros p q digits Hp Hq Hnone Hsome.
      pose proof (extract_port_number_sentinel _ Hnone) as Kp.
      pose proof (extract_port_number_digits _ _ Hsome) as Kq.
      split; intros Hlt; apply (sorted_occurs_before port_key); auto;
        unfold port_key; lia.
  - split; [constructor|]. split; [discriminate|]. split.
    + intros p Hp. now apply extract_port_number_sentinel.
    + intros p q digits Hp. inversion Hp.
Qed.

Lemma sort_by_key_map {A B : Type} (f : A -> B) (key : B -> N) (l : list A) :
  map f (sort_by_key (fun a => key (f a)) l) = sort_by_key key (map f l).
Proof.
  induction l as [|a l IH]; simpl; [reflexivity|]. rewrite <- IH.
  generalize (sort_by_key (fun a => key (f a)) l). intros s.
  induction s as [|b s IHs]; simpl; [reflexivity|].
  destruct (key (f a) <=? key (f b))%N; simpl; [reflexivity|]. now rewrite IHs.
Qed.

(** C8, the claim as stated fails: the key of an identifier without a
    number is 999, so it sorts before an identifier whose number is larger.
    In a drawing whose port circles are [Port1000] and [Port_a], in this
    order, the parser lists [Port_a] first. *)
Lemma parse_svg_ports_number_above_sentinel :
  map svg_element_id
      (parse_svg_ports (fun _ => None) drawing_with_port_1000 (0, 0, 30, 30) (30, 30))
  = ["Port_a"; "Port1000"].
Proof.
  unfold parse_svg_ports.
  replace (_find_all_circles drawing_with_port_1000)
    with [Elem "circle" {[ "id" := "Port1000" ]} [];
          Elem "circle" {[ "id" := "Port_a" ]} []]
    by (vm_compute; reflexivity).
  cbn [collect_ports].
  destruct (analyze_circle_as_port_ok (fun _ => None)
              (Elem "circle" {[ "id" := "Port1000" ]} []) 0 0 30 30 (30, 30) (0, 0))
    as (i1 & -> & E1); [reflexivity|reflexivity|lra|lra|].
  cbn [bind_result app].
  destruct (analyze_circle_as_port_ok (fun _ => None)
              (Elem "circle" {[ "id" := "Port_a" ]} []) 0 0 30 30 (30, 30) (0, 0))
    as (i2 & -> & E2); [reflexivity|reflexivity|lra|lra|].
  cbn [bind_result app].
  change port_key with (fun p => _extract_port_number (svg_element_id p)).
  rewrite (sort_by_key_map svg_element_id _extract_port_number).
  cbn [map]. rewrite E1, E2. reflexivity.
Qed.

End PortOrder.

(** *** Rescaling a hydraulic object *)

Section Scale.
Import Ports HydraulicObjects.

Variable types : gmap string ObjectConfig.
Variable global_scale : R.

Lemma port_update_scale_initial_position (scale : R) (port : Port) :
  initial_position (Ports.update_scale scale port) = initial_position port.
Proof. unfold Ports.update_scale. now destruct (Req_dec_T _ _). Qed.

Lemma port_update_scale_scenePos (scale : R) (port : Port) :
  Ports.scenePos (Ports.update_scale scale port) = Ports.scenePos port.
Proof. unfold Ports.update_scale. now destruct (Req_dec_T _ _). Qed.

Lemma port_update_scale_scene (scale : R) (port : Port) :
  Ports.scene (Ports.update_scale scale port) = Ports.scene port.
Proof. unfold Ports.update_scale. now destruct (Req_dec_T _ _). Qed.

Lemma update_port_scale_shift (self : HydraulicObject) (c : PortConfig)
    (cfgs : list PortConfig) (i : nat) (port : Port) :
  update_port_scale self (c :: cfgs) (S i) port = update_port_scale self cfgs i port.
Proof. reflexivity. Qed.

Lemma rescaled_ports_relative (self : HydraulicObject) :
  forall (port_list : list Port) (cfgs : list PortConfig),
    length port_list = length cfgs ->
    map initial_position (imap (update_port_scale self cfgs) port_list)
    = scaled_template (current_scale self) cfgs.
Proof.
  induction port_list as [|port port_list IH]; intros [|c cfgs] Hlen;
    try discriminate; [reflexivity|].
  cbn [imap map scaled_template]. f_equal.
  - unfold update_port_scale. cbn [lookup list_lookup].
    rewrite port_update_scale_initial_position. now destruct (Ports.scene _).
  - rewrite (imap_ext _ (update_port_scale self cfgs)); [|reflexivity].
    apply IH. now injection Hlen.
Qed.

Lemma rescaled_ports_absolute (self : HydraulicObject) :
  forall (port_list : list Port) (cfgs : list PortConfig),
    length port_list = length cfgs ->
    Forall (fun port => Ports.scene port = true) port_list ->
    map Ports.scenePos (imap (update_port_scale self cfgs) port_list)
    = map (padd (scenePos self)) (scaled_template (current_scale self) cfgs).
Proof.
  induction port_list as [|port port_list IH]; intros [|c cfgs] Hlen Hscene;
    try discriminate; [reflexivity|].
  apply Forall_cons in Hscene as [Hport Hscene].
  cbn [imap map scaled_template]. f_equal.
  - unfold update_port_scale. cbn [lookup list_lookup].
    rewrite port_update_scale_scenePos.
    change (Ports.scene (set_initial_position ?q port)) with (Ports.scene port).
    now rewrite Hport.
  - rewrite (imap_ext _ (update_port_scale self cfgs)); [|reflexivity].
    apply IH; [now injection Hlen|exact Hscene].
Qed.

Lemma rescaled_ports_scene (self : HydraulicObject) :
  forall (port_list : list Port) (cfgs : list PortConfig),
    Forall (fun port => Ports.scene port = true) port_list ->
    Forall (fun port => Ports.scene port = true)
           (imap (update_port_scale self cfgs) port_list).
Proof.
  induction port_list as [|port port_list IH]; intros cfgs Hscene; [constructor|].
  apply Forall_cons in Hscene as [Hport Hscene].
  cbn [imap]. constructor.
  - destruct cfgs as [|c cfgs]; [exact Hport|].
    unfold update_port_scale. cbn [lookup list_lookup].
    rewrite port_update_scale_scene.
    change (Ports.scene (set_initial_position ?q port)) with (Ports.scene port).
    now rewrite Hport.
  - destruct cfgs as [|c cfgs].
    + rewrite (imap_ext _ (update_port_scale self [])); [|reflexivity].
      now apply IH.
    + rewrite (imap_ext _ (update_port_scale self cfgs)); [|reflexivity].
      now apply IH.
Qed.

Section OneType.

Variable config : ObjectConfig.

Lemma update_ports_scale_of_type (obj : HydraulicObject) :
  of_type types config obj -> of_type types config (update_ports_scale types obj).
Proof.
  intros (Ht & Hb & Hl). repeat split; auto.
  cbn. now rewrite length_imap.
Qed.

Lemma update_ports_scale_relative (obj : HydraulicObject) :
  of_type types config obj -> relative_at_template (port_configs config) (update_ports_scale types obj).
Proof.
  intros (Ht & Hb & Hl). unfold relative_at_template, relative_positions.
  unfold update_ports_scale, get_port_configs. rewrite Ht. cbn.
  now apply rescaled_ports_relative.
Qed.

Lemma update_ports_scale_follow (obj : HydraulicObject) :
  of_type types config obj -> ports_in_scene obj -> ports_follow (update_ports_scale types obj).
Proof.
  intros (Ht & Hb & Hl) Hs. unfold ports_follow, absolute_positions, relative_positions.
  unfold update_ports_scale, get_port_configs. rewrite Ht. cbn.
  rewrite rescaled_ports_absolute, rescaled_ports_relative; auto.
Qed.

Lemma update_ports_scale_in_scene (obj : HydraulicObject) :
  ports_in_scene obj -> ports_in_scene (update_ports_scale types obj).
Proof. intros Hs. unfold ports_in_scene. cbn. now apply rescaled_ports_scene. Qed.

(** [update_scale] does nothing when the effective scale is unchanged. *)
Lemma update_scale_unchanged (s : R) (obj : HydraulicObject) :
  base_svg_scale obj * s = current_scale obj -> update_scale types global_scale (Some s) obj = obj.
Proof.
  intros H. unfold update_scale.
  now destruct (Req_dec_T _ _).
Qed.

Lemma update_scale_frame (s : R) (obj : HydraulicObject) :
  let obj' := update_scale types global_scale (Some s) obj in
  current_scale obj' = base_svg_scale obj * s /\
  scenePos obj' = scenePos obj /\
  (of_type types config obj -> of_type types config obj') /\
  (ports_in_scene obj -> ports_in_scene obj').
Proof.
  cbv zeta. unfold update_scale.
  destruct (Req_dec_T _ _) as [E|_]; [now rewrite E|].
  split; [reflexivity|]. split; [reflexivity|]. split.
  - intros H. apply update_ports_scale_of_type. exact H.
  - intros H. apply update_ports_scale_in_scene. exact H.
Qed.

Lemma update_scale_changed_relative (s : R) (obj : HydraulicObject) :
  of_type types config obj -> base_svg_scale obj * s <> current_scale obj ->
  relative_at_template (port_configs config) (update_scale types global_scale (Some s) obj).
Proof.
  intros Ht Hne. unfold update_scale.
  destruct (Req_dec_T _ _) as [E|_]; [contradiction|].
  apply update_ports_scale_relative. exact Ht.
Qed.

Lemma update_scale_changed_follow (s : R) (obj : HydraulicObject) :
  of_type types config obj -> ports_in_scene obj -> base_svg_scale obj * s <> current_scale obj ->
  ports_follow (update_scale types global_scale (Some s) obj).
Proof.
  intros Ht Hs Hne. unfold update_scale.
  destruct (Req_dec_T _ _) as [E|_]; [contradiction|].
  apply update_ports_scale_follow; [exact Ht|exact Hs].
Qed.

Lemma update_scale_relative (s : R) (obj : HydraulicObject) :
  of_type types config obj -> relative_at_template (port_configs config) obj ->
  relative_at_template (port_configs config) (update_scale types global_scale (Some s) obj).
Proof.
  intros Ht Hr.
  destruct (Req_dec_T (base_svg_scale obj * s) (current_scale obj)) as [E|Hne].
  - now rewrite update_scale_unchanged.
  - now apply update_scale_changed_relative.
Qed.

Lemma update_scale_follow (s : R) (obj : HydraulicObject) :
  of_type types config obj -> ports_in_scene obj -> ports_follow obj ->
  ports_follow (update_scale types global_scale (Some s) obj).
Proof.
  intros Ht Hs Hf.
  destruct (Req_dec_T (base_svg_scale obj * s) (current_scale obj)) as [E|Hne].
  - now rewrite update_scale_unchanged.
  - now apply update_scale_changed_follow.
Qed.

Lemma init_fresh (component_id object_type : string) :
  types !! object_type = Some config ->
  exists fresh,
    __init__ types global_scale component_id object_type = Ok fresh /\
    of_type types config fresh /\
    relative_at_template (port_configs config) fresh /\
    current_scale fresh = svg_scale config * global_scale.
Proof.
  intros Ht. unfold __init__. rewrite Ht. eexists. split; [reflexivity|].
  assert (Hlen : length (create_ports types object_type) = length (port_configs config)).
  { unfold create_ports, get_port_configs. rewrite Ht. apply length_map. }
  split; [|split; [|reflexivity]].
  - split; [exact Ht|]. split; [reflexivity|].
    cbn. now rewrite length_imap.
  - unfold relative_at_template, relative_positions. cbn.
    unfold get_port_configs. rewrite Ht.
    now rewrite rescaled_ports_relative.
Qed.

Lemma add_object_placed (object_id object_type : string) (position : QPointF) :
  types !! object_type = Some config ->
  exists placed,
    add_object types global_scale object_id object_type position = Ok placed /\
    of_type types config placed /\
    ports_in_scene placed /\
    ports_at_template (port_configs config) placed /\
    scenePos placed = position /\
    current_scale placed = svg_scale config * global_scale.
Proof.
  intros Ht. unfold add_object.
  destruct (init_fresh object_id object_type Ht)
    as (fresh & -> & (Hty & Hb & Hl) & Hrel & Hcur).
  cbn [bind_result]. eexists. split; [reflexivity|].
  assert (Hr : relative_positions
                 (add_object_ports_to_scene position (HydraulicObjects.setPos position fresh))
               = relative_positions fresh).
  { unfold relative_positions. cbn. rewrite !map_map. apply map_ext. reflexivity. }
  split; [|split; [|split; [split|split; [reflexivity|exact Hcur]]]].
  - split; [exact Hty|]. split; [exact Hb|].
    cbn. now rewrite !length_map.
  - unfold ports_in_scene. cbn. apply Forall_map, Forall_map, Forall_true. reflexivity.
  - unfold relative_at_template. rewrite Hr. exact Hrel.
  - unfold ports_follow. rewrite Hr.
    unfold absolute_positions, relative_positions. cbn. rewrite !map_map.
    apply map_ext. reflexivity.
Qed.

(** C2, as amended. Take a component whose ports are in the scene, and
    scale multipliers s1 and s2 such that one of the calls changes the
    effective scale (the effective scale of the component is not base * s1,
    or base * s1 is not base * s2), or take a component whose ports are at
    their scaled template positions. After [update_scale(s1)],
    [update_scale(s2)], [update_scale(s1)] the relative position of every
    port is the one of a component constructed fresh and rescaled by
    [update_scale(s1)], and its absolute position the one of a component
    created at the same scene position and rescaled by
    [update_scale(s1)]. *)
Theorem update_scale_round_trip (obj : HydraulicObject) (s1 s2 : R) :
  of_type types config obj ->
  ports_in_scene obj ->
  base_svg_scale obj * s1 <> current_scale obj \/
  base_svg_scale obj * s1 <> base_svg_scale obj * s2 \/
  ports_at_template (port_configs config) obj ->
  exists fresh placed,
    __init__ types global_scale (component_id obj) (object_type obj) = Ok fresh /\
    add_object types global_scale (component_id obj) (object_type obj) (scenePos obj)
    = Ok placed /\
    let rescale s := update_scale types global_scale (Some s) in
    relative_positions (rescale s1 (rescale s2 (rescale s1 obj)))
    = relative_positions (rescale s1 fresh) /\
    absolute_positions (rescale s1 (rescale s2 (rescale s1 obj)))
    = absolute_positions (rescale s1 placed).
Proof.
  intros Ht Hs Hcase.
  pose proof Ht as (Hty & Hbase & _).
  destruct (init_fresh (component_id obj) (object_type obj) Hty)
    as (fresh & Hfresh & Hft & Hfrel & _).
  destruct (add_object_placed (component_id obj) (object_type obj) (scenePos obj) Hty)
    as (placed & Hplaced & Hpt & Hps & (Hprel & Hpfol) & Hppos & _).
  exists fresh, placed. split; [exact Hfresh|]. split; [exact Hplaced|]. cbv zeta.
  set (o1 := update_scale types global_scale (Some s1) obj).
  set (o2 := update_scale types global_scale (Some s2) o1).
  set (o3 := update_scale types global_scale (Some s1) o2).
  destruct (update_scale_frame s1 obj) as (C1 & P1 & T1 & S1). fold o1 in C1, P1, T1, S1.
  specialize (T1 Ht). specialize (S1 Hs).
  destruct (update_scale_frame s2 o1) as (C2 & P2 & T2 & S2). fold o2 in C2, P2, T2, S2.
  specialize (T2 T1). specialize (S2 S1).
  destruct (update_scale_frame s1 o2) as (C3 & P3 & T3 & S3). fold o3 in C3, P3, T3, S3.
  specialize (T3 T2). specialize (S3 S2).
  assert (B1 : base_svg_scale o1 = base_svg_scale obj).
  { destruct T1 as (_ & -> & _). now rewrite Hbase. }
  assert (B2 : base_svg_scale o2 = base_svg_scale obj).
  { destruct T2 as (_ & -> & _). now rewrite Hbase. }
  assert (H3 : ports_at_template (port_configs config) o3).
  { destruct Hcase as [Hne|[Hne|[Hrel Hfol]]].
    - assert (H1 : ports_at_template (port_configs config) o1).
      { split; [now apply update_scale_changed_relative
               |now apply update_scale_changed_follow]. }
      destruct H1 as [R1 F1].
      split; [now apply update_scale_relative, update_scale_relative
             |now apply update_scale_follow, update_scale_follow].
    - split.
      + apply update_scale_changed_relative; [exact T2|]. rewrite B2, C2, B1.
        exact Hne.
      + apply update_scale_changed_follow; [exact T2|exact S2|]. rewrite B2, C2, B1.
        exact Hne.
    - split.
      + now apply update_scale_relative, update_scale_relative, update_scale_relative.
      + now apply update_scale_follow, update_scale_follow, update_scale_follow. }
  destruct H3 as [R3 F3]. unfold relative_at_template in R3. unfold ports_follow in F3.
  rewrite C3, B2 in R3.
  assert (Rf : relative_positions (update_scale types global_scale (Some s1) fresh)
               = scaled_template (base_svg_scale obj * s1) (port_configs config)).
  { pose proof (update_scale_relative s1 fresh Hft Hfrel) as Hr.
    unfold relative_at_template in Hr. rewrite Hr.
    destruct (update_scale_frame s1 fresh) as (-> & _).
    destruct Hft as (_ & -> & _). now rewrite Hbase. }
  assert (Rp : relative_positions (update_scale types global_scale (Some s1) placed)
               = scaled_template (base_svg_scale obj * s1) (port_configs config)).
  { pose proof (update_scale_relative s1 placed Hpt Hprel) as Hr.
    unfold relative_at_template in Hr. rewrite Hr.
    destruct (update_scale_frame s1 placed) as (-> & _).
    destruct Hpt as (_ & -> & _). now rewrite Hbase. }
  split; [now rewrite R3, Rf|].
  rewrite F3, R3, P3, P2, P1.
  pose proof (update_scale_follow s1 placed Hpt Hps Hpfol) as Fp.
  unfold ports_follow in Fp. rewrite Fp, Rp.
  destruct (update_scale_frame s1 placed) as (_ & -> & _). now rewrite Hppos.
Qed.

End OneType.
End Scale.

(** *** Recomputing the route of a pipe *)

Section PipeUpdate.
Import HydraulicObjects.

(** C9. A pipe whose start port or end port is not found by
    [get_port_by_id] in its component reports the error and keeps its
    path, its length and everything else; the update is a total function
    of the pipe and the components, which returns and never raises. *)
Theorem update_orthogonal_path_unresolved
    (components : list HydraulicObject) (pipe : OrthogonalPipes.OrthogonalPipe)
    (start_component_obj end_component_obj : HydraulicObject) :
  components !! OrthogonalPipes.start_component pipe = Some start_component_obj ->
  components !! OrthogonalPipes.end_component pipe = Some end_component_obj ->
  get_port_by_id start_component_obj (OrthogonalPipes.start_port pipe) = None \/
  get_port_by_id end_component_obj (OrthogonalPipes.end_port pipe) = None ->
  let '(pipe', report) := OrthogonalPipes.update_orthogonal_path components pipe in
  report = OrthogonalPipes.PortsNotFound /\
  pipe' = pipe /\
  OrthogonalPipes.path pipe' = OrthogonalPipes.path pipe /\
  OrthogonalPipes.length pipe' = OrthogonalPipes.length pipe.
Proof.
  intros Hs He Hnone. unfold OrthogonalPipes.update_orthogonal_path.
  rewrite Hs, He. destruct Hnone as [-> | ->].
  - auto.
  - destruct (get_port_by_id start_component_obj _); auto.
Qed.

(** An instance of C9: the components have a port [2] and no port [1]. *)
Lemma update_orthogonal_path_unresolved_example :
  let components := [ TransformController.placed_component "A" (QPoint 0 0);
                      TransformController.placed_component "B" (QPoint 10 5) ] in
  let '(pipe', report) :=
    OrthogonalPipes.update_orthogonal_path components OrthogonalPipes.routed_pipe in
  report = OrthogonalPipes.PortsNotFound /\
  pipe' = OrthogonalPipes.routed_pipe /\
  OrthogonalPipes.path pipe' = OrthogonalPipes.path OrthogonalPipes.routed_pipe /\
  OrthogonalPipes.length pipe' = OrthogonalPipes.length OrthogonalPipes.routed_pipe.
Proof.
  apply (update_orthogonal_path_unresolved
           [ TransformController.placed_component "A" (QPoint 0 0);
             TransformController.placed_component "B" (QPoint 10 5) ]
           OrthogonalPipes.routed_pipe
           (TransformController.placed_component "A" (QPoint 0 0))
           (TransformController.placed_component "B" (QPoint 10 5)));
    [reflexivity|reflexivity|left; reflexivity].
Defined.

(** A reference that designates no component: the exception is caught and
    the pipe is unchanged as well. *)
Lemma update_orthogonal_path_no_component
    (components : list HydraulicObject) (pipe : OrthogonalPipes.OrthogonalPipe) :
  components !! OrthogonalPipes.start_component pipe = None \/
  components !! OrthogonalPipes.end_component pipe = None ->
  OrthogonalPipes.update_orthogonal_path components pipe
  = (pipe, OrthogonalPipes.UpdateError).
Proof.
  unfold OrthogonalPipes.update_orthogonal_path. intros [-> | ->]; [reflexivity|].
  now destruct (components !! OrthogonalPipes.start_component pipe).
Qed.

End PipeUpdate.

(** *** The transform controller *)

Section Flip.
Import Ports HydraulicObjects TransformController.

Lemma QPoint_eta (p : QPointF) : QPoint (px p) (py p) = p.
Proof. now destruct p. Qed.

Lemma flip_ports_horizontal (obj : HydraulicObject) :
  ports (_flip_object_ports "horizontal" obj)
  = map (fun port =>
           let new_rel_pos := QPoint (- px (initial_position port))
                                     (py (initial_position port)) in
           Ports.setPos (padd (scenePos obj) new_rel_pos)
                        (set_initial_position new_rel_pos port))
        (ports obj).
Proof. reflexivity. Qed.

Lemma flip_ports_vertical (obj : HydraulicObject) :
  ports (_flip_object_ports "vertical" obj)
  = map (fun port =>
           let new_rel_pos := QPoint (px (initial_position port))
                                     (- py (initial_position port)) in
           Ports.setPos (padd (scenePos obj) new_rel_pos)
                        (set_initial_position new_rel_pos port))
        (ports obj).
Proof. reflexivity. Qed.

Lemma flip_horizontal_relative (obj : HydraulicObject) :
  relative_positions (fst (_flip_single_object_around_center "horizontal" obj))
  = map (fun p => QPoint (- px p) (py p)) (relative_positions obj).
Proof. unfold relative_positions. cbn. now rewrite !map_map. Qed.

Lemma flip_vertical_relative (obj : HydraulicObject) :
  relative_positions (fst (_flip_single_object_around_center "vertical" obj))
  = map (fun p => QPoint (px p) (- py p)) (relative_positions obj).
Proof. unfold relative_positions. cbn. now rewrite !map_map. Qed.

(** C4. Flipping a component mirrors it about its own centre: its scene
    position is unchanged, a horizontal flip negates the relative X of
    every port and a vertical flip the relative Y, the absolute position of
    every port becomes the scene position plus the new relative position,
    and two horizontal flips (or two vertical flips) give back the relative
    positions exactly. *)
Theorem flip_around_own_center (obj : HydraulicObject) :
  let h := fst (_flip_single_object_around_center "horizontal" obj) in
  let v := fst (_flip_single_object_around_center "vertical" obj) in
  let hh := fst (_flip_single_object_around_center "horizontal" h) in
  let vv := fst (_flip_single_object_around_center "vertical" v) in
  (scenePos h = scenePos obj /\ scenePos v = scenePos obj) /\
  relative_positions h
    = map (fun p => QPoint (- px p) (py p)) (relative_positions obj) /\
  relative_positions v
    = map (fun p => QPoint (px p) (- py p)) (relative_positions obj) /\
  Forall (fun port => Ports.scenePos port
                      = padd (scenePos obj) (initial_position port)) (ports h) /\
  Forall (fun port => Ports.scenePos port
                      = padd (scenePos obj) (initial_position port)) (ports v) /\
  relative_positions hh = relative_positions obj /\
  relative_positions vv = relative_positions obj /\
  flip_objects_horizontal [Hydraulic obj] = Some [h] /\
  flip_objects_vertical [Hydraulic obj] = Some [v].
Proof.
  cbv zeta.
  pose proof flip_horizontal_relative as Hh.
  pose proof flip_vertical_relative as Hv.
  split; [split; reflexivity|].
  split; [apply Hh|]. split; [apply Hv|].
  split; [apply Forall_map, Forall_true; reflexivity|].
  split; [apply Forall_map, Forall_true; reflexivity|].
  split; [|split; [|split; reflexivity]].
  - rewrite !Hh, map_map.
    rewrite <- (map_id (relative_positions obj)) at 2.
    apply map_ext. intros p. cbn. rewrite Ropp_involutive. apply QPoint_eta.
  - rewrite !Hv, map_map.
    rewrite <- (map_id (relative_positions obj)) at 2.
    apply map_ext. intros p. cbn. rewrite Ropp_involutive. apply QPoint_eta.
Qed.

(** An instance of C2: a valve of the scene rescaled by 3, by 5 and by 3. *)
Lemma update_scale_round_trip_example :
  let obj := placed_component "valve_001" (QPoint 100 100) in
  exists fresh placed,
    HydraulicObjects.__init__ valve_types 1 "valve_001" "VALVE" = Ok fresh /\
    add_object valve_types 1 "valve_001" "VALVE" (QPoint 100 100) = Ok placed /\
    let rescale s := HydraulicObjects.update_scale valve_types 1 (Some s) in
    relative_positions (rescale 3 (rescale 5 (rescale 3 obj)))
    = relative_positions (rescale 3 fresh) /\
    absolute_positions (rescale 3 (rescale 5 (rescale 3 obj)))
    = absolute_positions (rescale 3 placed).
Proof.
  intros obj.
  apply (update_scale_round_trip valve_types 1
           {| svg_scale := 2;
              port_configs := [ {| cfg_id := "2"; cfg_type := "output";
                                   cfg_position := (15, 2) |} ] |}
           obj 3 5).
  - split; [reflexivity|]. split; reflexivity.
  - repeat constructor.
  - left. cbn. lra.
Defined.

(** C2, the claim as stated fails: [update_scale] returns at once when the
    effective scale is unchanged, so it does not bring back to the template
    a component whose ports a flip has moved. A valve is created in the
    scene at the global scale 1 and flipped horizontally: three calls of
    [update_scale(1)] leave its port at the mirrored relative position,
    which is not the one of a fresh valve after [update_scale(1)]. *)
Lemma update_scale_keeps_a_flip :
  exists placed fresh,
    add_object valve_types 1 "valve_001" "VALVE" (QPoint 100 100) = Ok placed /\
    HydraulicObjects.__init__ valve_types 1 "valve_001" "VALVE" = Ok fresh /\
    let flipped := fst (_flip_single_object_around_center "horizontal" placed) in
    let rescale := HydraulicObjects.update_scale valve_types 1 (Some 1) in
    relative_positions (rescale (rescale (rescale flipped)))
    <> relative_positions (rescale fresh).
Proof.
  pose (config := {| svg_scale := 2;
                     port_configs := [ {| cfg_id := "2"; cfg_type := "output";
                                          cfg_position := (15, 2) |} ] |}).
  destruct (add_object_placed valve_types 1 config "valve_001" "VALVE"
              (QPoint 100 100) eq_refl)
    as (placed & Hplaced & (_ & Hpb & _) & _ & (Hprel & _) & _ & Hpcur).
  destruct (init_fresh valve_types 1 config "valve_001" "VALVE" eq_refl)
    as (fresh & Hfresh & (_ & Hfb & _) & Hfrel & Hfcur).
  exists placed, fresh. split; [exact Hplaced|]. split; [exact Hfresh|]. cbv zeta.
  rewrite (update_scale_unchanged valve_types 1 1 fresh) by (now rewrite Hfb, Hfcur).
  rewrite !(update_scale_unchanged valve_types 1 1
              (fst (_flip_single_object_around_center "horizontal" placed)))
    by (cbn; now rewrite Hpb, Hpcur).
  rewrite flip_horizontal_relative, Hprel, Hfrel, Hpcur, Hfcur. cbn.
  intros H. inversion H. lra.
Qed.

End Flip.

Section Align.
Import Ports HydraulicObjects TransformController.

Lemma Forall2_map_self {A B : Type} (P : A -> B -> Prop) (f : A -> B) (l : list A) :
  (forall a, P a (f a)) -> Forall2 P l (map f l).
Proof. intros H. induction l; simpl; constructor; auto. Qed.

Lemma last_map {A B : Type} (f : A -> B) (l : list A) (a : A) :
  last l = Some a -> last (map f l) = Some (f a).
Proof.
  induction l as [|b l IH]; [discriminate|].
  destruct l as [|c l]; simpl in *.
  - intros H. now injection H as ->.
  - exact IH.
Qed.

Lemma filter_hydraulic_objects_length (objects : list SceneItem) :
  (length (_filter_hydraulic_objects objects) <= length objects)%nat.
Proof.
  induction objects as [|[obj|] objects IH]; simpl; lia.
Qed.

Lemma update_ports_positions_relative (position : QPointF) (obj : HydraulicObject) :
  relative_positions (update_ports_positions position obj) = relative_positions obj.
Proof.
  unfold relative_positions, update_ports_positions. cbn. rewrite map_map.
  apply map_ext. reflexivity.
Qed.

Lemma update_ports_positions_absolute (position : QPointF) (obj : HydraulicObject) :
  absolute_positions (update_ports_positions position obj)
  = map (padd position) (relative_positions obj).
Proof.
  unfold absolute_positions, relative_positions, update_ports_positions. cbn.
  rewrite !map_map. apply map_ext. reflexivity.
Qed.

Lemma align_single_object_horizontal (reference_line : R) (obj : HydraulicObject) :
  fst (_align_single_object reference_line "horizontal" obj)
  = let new_pos := QPoint (px (scenePos obj)) reference_line in
    update_ports_positions new_pos (HydraulicObjects.setPos new_pos obj).
Proof. reflexivity. Qed.

Lemma align_single_object_vertical (reference_line : R) (obj : HydraulicObject) :
  fst (_align_single_object reference_line "vertical" obj)
  = let new_pos := QPoint reference_line (py (scenePos obj)) in
    update_ports_positions new_pos (HydraulicObjects.setPos new_pos obj).
Proof. reflexivity. Qed.

Lemma setPos_relative (position : QPointF) (obj : HydraulicObject) :
  relative_positions (HydraulicObjects.setPos position obj) = relative_positions obj.
Proof.
  unfold HydraulicObjects.setPos, relative_positions. cbn. rewrite map_map.
  apply map_ext. reflexivity.
Qed.

Lemma align_objects_on_reference (objects : list SceneItem)
    (alignment_type : string) (reference_line : R) :
  (2 <= length (_filter_hydraulic_objects objects))%nat ->
  _calculate_alignment_reference (_filter_hydraulic_objects objects) alignment_type
  = Ok reference_line ->
  _align_objects objects alignment_type
  = Some (map (fun obj => fst (_align_single_object reference_line alignment_type obj))
              (_filter_hydraulic_objects objects)).
Proof.
  intros Hlen Href. unfold _align_objects.
  pose proof (filter_hydraulic_objects_length objects) as Hle.
  destruct (Nat.ltb_spec (length objects) 2); [lia|].
  destruct (Nat.ltb_spec (length (_filter_hydraulic_objects objects)) 2); [lia|].
  now rewrite Href.
Qed.

(** C6. For every selection that holds two or more components, the
    reference of an alignment is the last of them: a horizontal alignment
    gives every component the Y of the last one and keeps its X, a
    vertical alignment gives every component the X of the last one and
    keeps its Y, and the last component stays where it is; the ports keep
    their relative positions and follow their component. *)
Theorem align_on_last_object (objects : list SceneItem) (reference : HydraulicObject) :
  let hydraulic_objects := _filter_hydraulic_objects objects in
  (2 <= length hydraulic_objects)%nat ->
  last hydraulic_objects = Some reference ->
  (exists aligned reference',
     align_objects_horizontal objects = Some aligned /\
     Forall2 (fun obj obj' =>
                scenePos obj' = QPoint (px (scenePos obj)) (py (scenePos reference)) /\
                relative_positions obj' = relative_positions obj /\
                absolute_positions obj'
                = map (padd (scenePos obj')) (relative_positions obj'))
             hydraulic_objects aligned /\
     last aligned = Some reference' /\
     scenePos reference' = scenePos reference) /\
  (exists aligned reference',
     align_objects_vertical objects = Some aligned /\
     Forall2 (fun obj obj' =>
                scenePos obj' = QPoint (px (scenePos reference)) (py (scenePos obj)) /\
                relative_positions obj' = relative_positions obj /\
                absolute_positions obj'
                = map (padd (scenePos obj')) (relative_positions obj'))
             hydraulic_objects aligned /\
     last aligned = Some reference' /\
     scenePos reference' = scenePos reference).
Proof.
  intros hs Hlen Hlast. subst hs. split.
  - eexists _, _. split; [|split; [|split]].
    + apply align_objects_on_reference; [exact Hlen|].
      unfold _calculate_alignment_reference. rewrite Hlast. reflexivity.
    + apply Forall2_map_self. intros obj.
      rewrite align_single_object_horizontal. cbv zeta.
      rewrite update_ports_positions_relative, update_ports_positions_absolute.
      rewrite setPos_relative. auto.
    + apply last_map. exact Hlast.
    + cbn. apply QPoint_eta.
  - eexists _, _. split; [|split; [|split]].
    + apply align_objects_on_reference; [exact Hlen|].
      unfold _calculate_alignment_reference. rewrite Hlast. reflexivity.
    + apply Forall2_map_self. intros obj.
      rewrite align_single_object_vertical. cbv zeta.
      rewrite update_ports_positions_relative, update_ports_positions_absolute.
      rewrite setPos_relative. auto.
    + apply last_map. exact Hlast.
    + cbn. apply QPoint_eta.
Qed.

(** The instances of C6 named in the claim: [A, B, C] is aligned on C and
    [C, B, A] on A. *)
Lemma align_on_last_object_examples :
  let A := placed_component "A" (QPoint 0 0) in
  let B := placed_component "B" (QPoint 10 5) in
  let C := placed_component "C" (QPoint 20 9) in
  (exists A' B' C',
     align_objects_horizontal [Hydraulic A; Hydraulic B; Hydraulic C]
     = Some [A'; B'; C'] /\
     scenePos A' = QPoint 0 9 /\ scenePos B' = QPoint 10 9 /\
     scenePos C' = QPoint 20 9) /\
  (exists C' B' A',
     align_objects_horizontal [Hydraulic C; Hydraulic B; Hydraulic A]
     = Some [C'; B'; A'] /\
     scenePos C' = QPoint 20 0 /\ scenePos B' = QPoint 10 0 /\
     scenePos A' = QPoint 0 0).
Proof.
  intros A B C. split.
  - destruct (align_on_last_object [Hydraulic A; Hydraulic B; Hydraulic C] C)
      as [(aligned & ref' & E & F & _) _]; [simpl; lia|reflexivity|].
    inversion F as [|? A' ? l1 [HA _] F1]; subst.
    inversion F1 as [|? B' ? l2 [HB _] F2]; subst.
    inversion F2 as [|? C' ? l3 [HC _] F3]; subst.
    inversion F3; subst.
    exists A', B', C'. auto.
  - destruct (align_on_last_object [Hydraulic C; Hydraulic B; Hydraulic A] A)
      as [(aligned & ref' & E & F & _) _]; [simpl; lia|reflexivity|].
    inversion F as [|? C' ? l1 [HC _] F1]; subst.
    inversion F1 as [|? B' ? l2 [HB _] F2]; subst.
    inversion F2 as [|? A' ? l3 [HA _] F3]; subst.
    inversion F3; subst.
    exists C', B', A'. auto.
Defined.

End Align.

Section Rotate.
Import Ports HydraulicObjects TransformController.













End Rotate.

Section PipeRouting.
Import Pipe.

Lemma consecutive_app_two {A : Type} (P : A -> A -> Prop) (l : list A) (a b c : A) :
  last l = Some a -> consecutive P l -> P a b -> P b c ->
  consecutive P (l ++ [b; c]).
Proof.
  induction l as [|u l IH]; intros Hlast Hl Hab Hbc; [discriminate|].
  destruct l as [|v l].
  - simpl in Hlast. injection Hlast as ->. simpl. tauto.
  - destruct Hl as [Huv Hl]. split; [exact Huv|].
    apply IH; auto.
Qed.

Lemma segments_aligned (s e : QPointF) :
  exists m, create_orthogonal_segments s e = [s; m; e] /\
            axis_aligned s m /\ axis_aligned m e.
Proof.
  unfold create_orthogonal_segments.
  destruct (Rge_dec _ _); eexists; (split; [reflexivity|]);
    unfold axis_aligned; simpl; auto.
Qed.

Lemma waypoint_loop_inv (ws : list QPointF) :
  forall (points : list QPointF) (cur s : QPointF),
    head points = Some s -> last points = Some cur ->
    consecutive axis_aligned points ->
    let '(points', cur') := waypoint_loop points cur ws in
    head points' = Some s /\ last points' = Some cur' /\
    consecutive axis_aligned points'.
Proof.
  induction ws as [|w ws IH]; intros points cur s Hh Hl Hc.
  - simpl. auto.
  - cbn [waypoint_loop].
    destruct (segments_aligned cur w) as (m & -> & H1 & H2). cbn [tail].
    apply IH.
    + destruct points; [discriminate|exact Hh].
    + change [m; w] with ([m] ++ [w]). rewrite app_assoc. apply last_snoc.
    + eapply consecutive_app_two; eauto.
Qed.

(** C3, as amended. For every start point, end point and list of waypoints
    the computed path starts at the start point, ends at the end point, and
    every two consecutive points share a coordinate: each segment is
    horizontal or vertical, and may have length zero. *)
Theorem orthogonal_path_axis_aligned
    (start_pos end_pos : QPointF) (waypoints : list QPointF) :
  let path := calculate_orthogonal_path start_pos end_pos waypoints in
  head path = Some start_pos /\
  last path = Some end_pos /\
  consecutive axis_aligned path.
Proof.
  unfold calculate_orthogonal_path.
  pose proof (waypoint_loop_inv waypoints [start_pos] start_pos start_pos
                eq_refl eq_refl I) as H.
  destruct (waypoint_loop [start_pos] start_pos waypoints) as [points cur].
  destruct H as (Hh & Hl & Hc).
  destruct (segments_aligned cur end_pos) as (m & -> & H1 & H2).
  cbn [tail]. repeat split.
  - destruct points; [discriminate|exact Hh].
  - change [m; end_pos] with ([m] ++ [end_pos]).
    rewrite app_assoc. apply last_snoc.
  - eapply consecutive_app_two; eauto.
Qed.

(** C3, the claim as stated fails: between two points that share their Y
    coordinate the corner of the leg is the end point itself, so the path
    holds the end point twice and its last segment differs in no
    coordinate. *)
Lemma orthogonal_path_repeats_a_point :
  calculate_orthogonal_path (QPoint 0 0) (QPoint 10 0) []
    = [QPoint 0 0; QPoint 10 0; QPoint 10 0] /\
  ~ consecutive one_axis_differs
      (calculate_orthogonal_path (QPoint 0 0) (QPoint 10 0) []).
Proof.
  assert (E : calculate_orthogonal_path (QPoint 0 0) (QPoint 10 0) []
              = [QPoint 0 0; QPoint 10 0; QPoint 10 0]).
  { unfold calculate_orthogonal_path, create_orthogonal_segments; simpl.
    destruct (Rge_dec _ _) as [_|n]; [reflexivity|].
    exfalso; apply n.
    replace (10 - 0) with 10 by lra. replace (0 - 0) with 0 by lra.
    rewrite Rabs_R0, Rabs_pos_eq; lra. }
  split; [exact E|].
  rewrite E. simpl. unfold one_axis_differs; simpl.
  intros (_ & [[_ H]|[H _]] & _); apply H; reflexivity.
Qed.

End PipeRouting.

(** *** Connections *)

Section Connections.
Import HydraulicObjects ConnectionController.

Lemma list_find_cons {A : Type} (P : A -> Prop) `{!forall x, Decision (P x)}
    (x : A) (l : list A) :
  list_find P (x :: l)
  = if decide (P x) then Some (0%nat, x)
    else fmap (M:=option) (prod_map S Datatypes.id) (list_find P l).
Proof. reflexivity. Qed.

Lemma list_find_insert_same {A : Type} (P : A -> Prop) `{!forall x, Decision (P x)}
    (l : list A) (i : nat) (new old : A) :
  l !! i = Some old -> (P new <-> P old) ->
  list_find P (<[i:=new]> l)
  = (fun '(j, y) => (j, if decide (j = i) then new else y)) <$> list_find P l.
Proof.
  revert i. induction l as [|x l IH]; intros i Hi HP; [discriminate|].
  destruct i as [|i]; simpl in Hi.
  - injection Hi as ->. change (<[0%nat:=new]> (old :: l)) with (new :: l).
    rewrite !list_find_cons.
    destruct (decide (P new)) as [Hn|Hn], (decide (P old)) as [Ho|Ho];
      try tauto; try reflexivity.
    destruct (list_find P l) as [[j y]|]; reflexivity.
  - change (<[S i:=new]> (x :: l)) with (x :: <[i:=new]> l).
    rewrite !list_find_cons.
    destruct (decide (P x)); [reflexivity|].
    rewrite (IH i Hi HP).
    destruct (list_find P l) as [[j y]|]; [|reflexivity]. cbn.
    destruct (decide (j = i)), (decide (S j = S i)); try lia; reflexivity.
Qed.

Lemma port_by_id_some (comps : list HydraulicObject) (c : nat) (pid : string)
    (r : Ports.PortRef) (p : Ports.Port) :
  port_by_id comps c pid = Some (r, p) ->
  fst r = c /\ Ports.port_id p = pid /\
  exists obj, comps !! c = Some obj /\ ports obj !! snd r = Some p.
Proof.
  unfold port_by_id. destruct (comps !! c) as [obj|] eqn:E; [|discriminate].
  destruct (find_port obj pid) as [[i q]|] eqn:F; [|discriminate].
  intros H. injection H as <- <-. apply list_find_Some in F as (F1 & F2 & _).
  cbn. eauto.
Qed.

Lemma port_by_id_set_port (comps : list HydraulicObject) (ref : Ports.PortRef)
    (new old : Ports.Port) (obj : HydraulicObject) (c : nat) (pid : string) :
  comps !! fst ref = Some obj -> ports obj !! snd ref = Some old ->
  Ports.port_id new = Ports.port_id old ->
  port_by_id (set_port ref new comps) c pid
  = (fun '(r, p) => (r, if decide (r = ref) then new else p)) <$> port_by_id comps c pid.
Proof.
  intros Hobj Hold Hid. unfold port_by_id, set_port. destruct ref as [c0 i0]. cbn in *.
  destruct (decide (c0 = c)) as [->|Hne].
  - rewrite list_lookup_alter_eq, Hobj. cbn. unfold find_port. cbn.
    rewrite (list_find_insert_same _ _ _ new old Hold) by (now rewrite Hid).
    destruct (list_find _ (ports obj)) as [[j y]|]; [|reflexivity]. cbn.
    destruct (decide (j = i0)) as [->|Hj].
    + now rewrite decide_True.
    + rewrite decide_False; [reflexivity|]. congruence.
  - rewrite list_lookup_alter_ne by exact Hne.
    destruct (comps !! c) as [o|]; [|reflexivity].
    destruct (find_port o pid) as [[j y]|]; [|reflexivity]. cbn.
    rewrite decide_False; [reflexivity|]. congruence.
Qed.


Lemma same_ports_refl (comps : list HydraulicObject) :
  same_ports (fun _ b => b) comps comps.
Proof. intros c pid. now destruct (port_state comps c pid) as [[r b]|]. Qed.

Lemma same_ports_trans (f g : Ports.PortRef -> bool -> bool)
    (c1 c2 c3 : list HydraulicObject) :
  same_ports f c1 c2 -> same_ports g c2 c3 ->
  same_ports (fun r b => g r (f r b)) c1 c3.
Proof.
  intros H1 H2 c pid. rewrite H2, H1.
  now destruct (port_state c1 c pid) as [[r b]|].
Qed.

Lemma same_ports_ext (f g : Ports.PortRef -> bool -> bool)
    (c1 c2 : list HydraulicObject) :
  (forall r b, f r b = g r b) -> same_ports f c1 c2 -> same_ports g c1 c2.
Proof.
  intros E H c pid. rewrite H.
  destruct (port_state c1 c pid) as [[r b]|]; [|reflexivity]. cbn. now rewrite E.
Qed.

Lemma same_ports_pipe_ports (f : Ports.PortRef -> bool -> bool)
    (comps comps' : list HydraulicObject) (pipe : OrthogonalPipes.OrthogonalPipe) :
  same_ports f comps comps' -> pipe_ports comps' pipe = pipe_ports comps pipe.
Proof.
  intros H. unfold pipe_ports. cbn. rewrite !H.
  destruct (port_state comps _ _) as [[r1 b1]|], (port_state comps _ _) as [[r2 b2]|];
    reflexivity.
Qed.

Lemma port_state_ref_flag (comps : list HydraulicObject) (c1 c2 : nat) (pid1 pid2 : string)
    (r : Ports.PortRef) (b1 b2 : bool) :
  port_state comps c1 pid1 = Some (r, b1) -> port_state comps c2 pid2 = Some (r, b2) ->
  b1 = b2.
Proof.
  unfold port_state.
  destruct (port_by_id comps c1 pid1) as [[r1 p1]|] eqn:E1; [|discriminate].
  destruct (port_by_id comps c2 pid2) as [[r2 p2]|] eqn:E2; [|discriminate].
  intros H1 H2. injection H1 as -> <-. injection H2 as -> <-.
  apply port_by_id_some in E1 as (F1 & _ & o1 & L1 & Q1).
  apply port_by_id_some in E2 as (F2 & _ & o2 & L2 & Q2).
  subst c1 c2. rewrite L1 in L2. injection L2 as <-. rewrite Q1 in Q2. now injection Q2 as <-.
Qed.

Lemma set_port_same_ports (comps : list HydraulicObject) (c : nat) (pid : string)
    (ref : Ports.PortRef) (old new : Ports.Port) :
  port_by_id comps c pid = Some (ref, old) ->
  Ports.port_id new = Ports.port_id old ->
  same_ports (fun r b => if decide (r = ref) then Ports.is_connected new else b)
             comps (set_port ref new comps).
Proof.
  intros Hold Hid c' pid'. unfold port_state.
  apply port_by_id_some in Hold as (<- & _ & obj & L & Q).
  rewrite (port_by_id_set_port comps ref new old obj c' pid' L Q Hid).
  destruct (port_by_id comps c' pid') as [[r p]|]; [|reflexivity]. cbn.
  now destruct (decide (r = ref)).
Qed.

Lemma disconnect_port_same_ports (comps : list HydraulicObject) (c : nat) (pid : string) :
  same_ports (fun r b => if decide (Some r = fst <$> port_state comps c pid)
                         then false else b)
             comps (disconnect_port c pid comps).
Proof.
  unfold disconnect_port, port_state.
  destruct (port_by_id comps c pid) as [[ref old]|] eqn:E.
  - eapply same_ports_ext; [|apply (set_port_same_ports _ _ _ _ _ _ E); reflexivity].
    intros r b. cbn. destruct (decide (r = ref)) as [->|Hne].
    + now rewrite decide_True.
    + rewrite decide_False; [reflexivity|]. congruence.
  - eapply same_ports_ext; [|apply same_ports_refl]. intros r b. cbn.
    now rewrite decide_False.
Qed.


Lemma elem_of_pipe_ports (comps : list HydraulicObject)
    (pipe : OrthogonalPipes.OrthogonalPipe) (r : Ports.PortRef) :
  r ∈ pipe_ports comps pipe <->
  Some r = fst <$> port_state comps (OrthogonalPipes.start_component pipe)
                              (OrthogonalPipes.start_port pipe) \/
  Some r = fst <$> port_state comps (OrthogonalPipes.end_component pipe)
                              (OrthogonalPipes.end_port pipe).
Proof.
  unfold pipe_ports. cbn.
  destruct (port_state comps (OrthogonalPipes.start_component pipe) _) as [[r1 b1]|],
           (port_state comps (OrthogonalPipes.end_component pipe) _) as [[r2 b2]|]; cbn;
    rewrite ?elem_of_cons, ?elem_of_nil; split; intros H;
    repeat match goal with
           | H : _ \/ _ |- _ => destruct H
           | H : Some _ = Some _ |- _ => injection H as ->
           | H : Some _ = None |- _ => discriminate H
           | H : False |- _ => destruct H
           end; subst; auto.
Qed.

Lemma disconnect_both_same_ports (comps : list HydraulicObject)
    (pipe : OrthogonalPipes.OrthogonalPipe) :
  same_ports (fun r b => if decide (r ∈ pipe_ports comps pipe) then false else b)
             comps (disconnect_both pipe comps).
Proof.
  unfold disconnect_both.
  pose proof (disconnect_port_same_ports comps (OrthogonalPipes.start_component pipe)
                (OrthogonalPipes.start_port pipe)) as H1.
  pose proof (disconnect_port_same_ports
                (disconnect_port (OrthogonalPipes.start_component pipe)
                   (OrthogonalPipes.start_port pipe) comps)
                (OrthogonalPipes.end_component pipe)
                (OrthogonalPipes.end_port pipe)) as H2.
  eapply same_ports_ext; [|exact (same_ports_trans _ _ _ _ _ H1 H2)].
  intros r b. cbn beta. rewrite (H1 (OrthogonalPipes.end_component pipe)).
  assert (E : forall o : option (Ports.PortRef * bool),
             fst <$> ((fun '(r, b) =>
                         (r, if decide (Some r = fst <$> port_state comps
                                          (OrthogonalPipes.start_component pipe)
                                          (OrthogonalPipes.start_port pipe))
                             then false else b)) <$> o)
             = fst <$> o).
  { now intros [[? ?]|]. }
  rewrite E.
  destruct (decide (r ∈ pipe_ports comps pipe)) as [Hin|Hout].
  - apply elem_of_pipe_ports in Hin as [Hin|Hin].
    + rewrite (decide_True (P := Some r = _ <$> port_state comps
                                   (OrthogonalPipes.start_component pipe) _)) by exact Hin.
      now destruct (decide _).
    + now rewrite (decide_True (P := Some r = _ <$> port_state comps
                                       (OrthogonalPipes.end_component pipe) _)).
  - rewrite elem_of_pipe_ports in Hout.
    rewrite !decide_False by tauto. reflexivity.
Qed.

Lemma disconnect_both_twice_same_ports (comps : list HydraulicObject)
    (pipe : OrthogonalPipes.OrthogonalPipe) :
  same_ports (fun r b => if decide (r ∈ pipe_ports comps pipe) then false else b)
             comps (disconnect_both pipe (disconnect_both pipe comps)).
Proof.
  pose proof (disconnect_both_same_ports comps pipe) as H1.
  pose proof (disconnect_both_same_ports (disconnect_both pipe comps) pipe) as H2.
  rewrite (same_ports_pipe_ports _ _ _ pipe H1) in H2.
  eapply same_ports_ext; [|exact (same_ports_trans _ _ _ _ _ H1 H2)].
  intros r b. cbn beta. now destruct (decide _).
Qed.


Lemma pipes_well_connected_frame (self self' : ConnectionController) :
  components self' = components self -> pipes self' = pipes self ->
  pipes_well_connected self -> pipes_well_connected self'.
Proof. unfold pipes_well_connected. intros -> ->. exact (fun H => H). Qed.

Lemma builder_consistent_frame (self self' : ConnectionController) :
  pipe_builder self' = pipe_builder self ->
  start_component self' = start_component self ->
  start_port_id self' = start_port_id self ->
  builder_consistent self -> builder_consistent self'.
Proof. unfold builder_consistent. intros -> -> ->. exact (fun H => H). Qed.

Lemma joins_two_components_same_ports (f : Ports.PortRef -> bool -> bool)
    (comps comps' : list HydraulicObject) (pipe : OrthogonalPipes.OrthogonalPipe) :
  same_ports f comps comps' ->
  (forall r, r ∈ pipe_ports comps pipe -> f r true = true) ->
  joins_two_components comps pipe -> joins_two_components comps' pipe.
Proof.
  intros H Hf (sr & er & Hs & He & Hne & Hc). exists sr, er.
  rewrite !H, Hs, He. cbn.
  rewrite !Hf by (apply elem_of_pipe_ports; rewrite Hs, He; cbn; auto).
  auto.
Qed.

Lemma pipe_ports_state (comps : list HydraulicObject)
    (pipe : OrthogonalPipes.OrthogonalPipe) (r : Ports.PortRef) (b1 b2 : bool)
    (r1 r2 : Ports.PortRef) :
  port_state comps (OrthogonalPipes.start_component pipe)
             (OrthogonalPipes.start_port pipe) = Some (r1, b1) ->
  port_state comps (OrthogonalPipes.end_component pipe)
             (OrthogonalPipes.end_port pipe) = Some (r2, b2) ->
  r ∈ pipe_ports comps pipe ->
  exists c pid b, port_state comps c pid = Some (r, b) /\ (b = b1 \/ b = b2).
Proof.
  intros H1 H2 Hin. apply elem_of_pipe_ports in Hin. rewrite H1, H2 in Hin. cbn in Hin.
  destruct Hin as [Hin|Hin]; injection Hin as ->; eauto 8.
Qed.

Lemma update_orthogonal_path_ends (comps : list HydraulicObject)
    (pipe : OrthogonalPipes.OrthogonalPipe) :
  let pipe' := fst (OrthogonalPipes.update_orthogonal_path comps pipe) in
  OrthogonalPipes.start_component pipe' = OrthogonalPipes.start_component pipe /\
  OrthogonalPipes.start_port pipe' = OrthogonalPipes.start_port pipe /\
  OrthogonalPipes.end_component pipe' = OrthogonalPipes.end_component pipe /\
  OrthogonalPipes.end_port pipe' = OrthogonalPipes.end_port pipe.
Proof.
  unfold OrthogonalPipes.update_orthogonal_path.
  destruct (comps !! _) as [o1|]; [|now cbn].
  destruct (comps !! _) as [o2|]; [|now cbn].
  destruct (get_port_by_id o1 _) as [p1|]; [|now cbn].
  destruct (get_port_by_id o2 _) as [p2|]; [|now cbn].
  cbv zeta. destruct (Pipe.calculate_orthogonal_path _ _ _); now cbn.
Qed.

Lemma finish_pipe_ends (comps : list HydraulicObject) (builder : InteractivePipeBuilder)
    (end_component : nat) (end_port new_pipe_id : string) :
  let pipe := OrthogonalPipes.set_pipe_id new_pipe_id
                (finish_pipe comps builder end_component end_port) in
  OrthogonalPipes.start_component pipe = builder_start_component builder /\
  OrthogonalPipes.start_port pipe = builder_start_port builder /\
  OrthogonalPipes.end_component pipe = end_component /\
  OrthogonalPipes.end_port pipe = end_port.
Proof.
  unfold finish_pipe, OrthogonalPipes.__init__.
  exact (update_orthogonal_path_ends comps _).
Qed.


Lemma can_connect_to_true (self_ref other_ref : Ports.PortRef) (self other : Ports.Port) :
  Ports.can_connect_to self_ref self other_ref other = true ->
  Ports.is_connected self = false /\ Ports.is_connected other = false /\
  self_ref <> other_ref /\ fst self_ref <> fst other_ref.
Proof.
  unfold Ports.can_connect_to.
  destruct (Ports.is_connected self), (Ports.is_connected other); cbn; try discriminate.
  destruct (bool_decide (self_ref = other_ref)) eqn:D1; [discriminate|].
  destruct (bool_decide (fst self_ref = fst other_ref)) eqn:D2; [discriminate|].
  apply bool_decide_eq_false in D1, D2. auto.
Qed.

Lemma register_pipe_well_connected (self self' : ConnectionController)
    (start_ref end_ref : Ports.PortRef) (start_port_obj end_port_obj : Ports.Port)
    (pipe : OrthogonalPipes.OrthogonalPipe) (new_pipe_id : string) :
  pipes_well_connected self ->
  port_by_id (components self) (OrthogonalPipes.start_component pipe)
             (OrthogonalPipes.start_port pipe) = Some (start_ref, start_port_obj) ->
  port_by_id (components self) (OrthogonalPipes.end_component pipe)
             (OrthogonalPipes.end_port pipe) = Some (end_ref, end_port_obj) ->
  Ports.can_connect_to start_ref start_port_obj end_ref end_port_obj = true ->
  components self'
  = set_port end_ref (Ports.connect_to_pipe new_pipe_id end_port_obj)
      (set_port start_ref (Ports.connect_to_pipe new_pipe_id start_port_obj)
         (components self)) ->
  pipes self' = <[new_pipe_id := pipe]> (pipes self) ->
  pipes_well_connected self'.
Proof.
  intros [Hj Hd] Es Ee Hcan HC HP.
  apply can_connect_to_true in Hcan as (Fs & Fe & Hne & Hc).
  pose proof (set_port_same_ports _ _ _ _ _
                (Ports.connect_to_pipe new_pipe_id start_port_obj) Es eq_refl) as S1.
  assert (Ee1 : port_by_id (set_port start_ref
                              (Ports.connect_to_pipe new_pipe_id start_port_obj)
                              (components self))
                  (OrthogonalPipes.end_component pipe) (OrthogonalPipes.end_port pipe)
                = Some (end_ref, end_port_obj)).
  { pose proof (port_by_id_some _ _ _ _ _ Es) as (F & _ & obj & L & Q).
    rewrite <- F in L.
    rewrite (port_by_id_set_port _ _ (Ports.connect_to_pipe new_pipe_id start_port_obj)
               start_port_obj obj _ _ L Q eq_refl), Ee. cbn.
    rewrite decide_False by congruence. reflexivity. }
  pose proof (set_port_same_ports _ _ _ _ _
                (Ports.connect_to_pipe new_pipe_id end_port_obj) Ee1 eq_refl) as S2.
  pose proof (same_ports_trans _ _ _ _ _ S1 S2) as S12. cbn in S12. rewrite <- HC in S12.
  assert (Ps : port_state (components self) (OrthogonalPipes.start_component pipe)
                 (OrthogonalPipes.start_port pipe) = Some (start_ref, false)).
  { unfold port_state. now rewrite Es, Fs. }
  assert (Pe : port_state (components self) (OrthogonalPipes.end_component pipe)
                 (OrthogonalPipes.end_port pipe) = Some (end_ref, false)).
  { unfold port_state. now rewrite Ee, Fe. }
  assert (Hfree : forall q r pipe_id, pipes self !! pipe_id = Some q ->
                    r ∈ pipe_ports (components self) q ->
                    r ∈ pipe_ports (components self) pipe -> False).
  { intros q r pipe_id L R1 R2. destruct (Hj _ _ L) as (r1 & r2 & Q1 & Q2 & _).
    destruct (pipe_ports_state _ _ _ _ _ _ _ Q1 Q2 R1) as (c1 & p1 & b1 & B1 & T1).
    destruct (pipe_ports_state _ _ _ _ _ _ _ Ps Pe R2) as (c2 & p2 & b2 & B2 & T2).
    pose proof (port_state_ref_flag _ _ _ _ _ _ _ _ B1 B2). intuition congruence. }
  split.
  - intros pipe_id q. rewrite HP. intros L.
    apply lookup_insert_Some in L as [[<- <-]|[Hn L]].
    + exists start_ref, end_ref. rewrite !S12, Ps, Pe. cbn.
      apply port_by_id_some in Es as (E1 & _), Ee as (E2 & _).
      repeat case_decide; repeat split; congruence.
    + eapply joins_two_components_same_ports; [exact S12| |exact (Hj _ _ L)].
      intros r _. cbn. repeat case_decide; reflexivity.
  - intros id1 id2 p1 p2 Hn. rewrite HP, !(same_ports_pipe_ports _ _ _ _ S12).
    intros L1 L2 r R1 R2.
    apply lookup_insert_Some in L1 as [[<- <-]|[N1 L1]];
      apply lookup_insert_Some in L2 as [[<- <-]|[N2 L2]].
    + congruence.
    + exact (Hfree _ _ _ L2 R2 R1).
    + exact (Hfree _ _ _ L1 R1 R2).
    + exact (Hd _ _ _ _ Hn L1 L2 r R1 R2).
Qed.

Lemma unregister_pipe_well_connected (self self' : ConnectionController)
    (pipe : OrthogonalPipes.OrthogonalPipe) (old_pipe_id : string) :
  pipes_well_connected self ->
  pipes self !! old_pipe_id = Some pipe ->
  components self' = disconnect_both pipe (disconnect_both pipe (components self)) ->
  pipes self' = delete old_pipe_id (pipes self) ->
  pipes_well_connected self'.
Proof.
  intros [Hj Hd] L HC HP.
  pose proof (disconnect_both_twice_same_ports (components self) pipe) as S.
  rewrite <- HC in S. split.
  - intros pipe_id q. rewrite HP. intros Lq. apply lookup_delete_Some in Lq as [Hn Lq].
    eapply joins_two_components_same_ports; [exact S| |exact (Hj _ _ Lq)].
    intros r R. cbn. rewrite decide_False; [reflexivity|].
    exact (Hd _ _ _ _ (not_eq_sym Hn) Lq L r R).
  - intros id1 id2 p1 p2 Hn. rewrite HP, !(same_ports_pipe_ports _ _ _ _ S).
    intros L1 L2. apply lookup_delete_Some in L1 as [_ L1], L2 as [_ L2].
    exact (Hd _ _ _ _ Hn L1 L2).
Qed.


Local Ltac framed H :=
  destruct H as [Hb Hw]; split;
  [ first [ solve [eapply builder_consistent_frame; [| | |exact Hb]; reflexivity]
          | solve [intros ? [=]] ]
  | eapply pipes_well_connected_frame; [| |exact Hw]; reflexivity ].

Lemma init_ok (comps : list HydraulicObject) : connections_ok (__init__ comps).
Proof.
  split; [intros ? [=]|]. split.
  - intros pipe_id pipe H. cbn in H. now rewrite lookup_empty in H.
  - intros id1 id2 p1 p2 _ H. cbn in H. now rewrite lookup_empty in H.
Qed.

Lemma cleanup_pipe_construction_ok (self : ConnectionController) :
  connections_ok self -> connections_ok (cleanup_pipe_construction self).
Proof. intros H. framed H. Qed.

Lemma cancel_pipe_construction_ok (self : ConnectionController) :
  connections_ok self -> connections_ok (cancel_pipe_construction self).
Proof.
  intros H. unfold cancel_pipe_construction.
  destruct (pipe_builder self); [now apply cleanup_pipe_construction_ok|exact H].
Qed.

Lemma start_pipe_construction_ok (component : nat) (port_id : string)
    (self : ConnectionController) :
  connections_ok self -> connections_ok (start_pipe_construction component port_id self).
Proof.
  intros H. apply cancel_pipe_construction_ok in H. destruct H as [_ Hw]. split.
  - intros builder [= <-]. now cbn.
  - eapply pipes_well_connected_frame; [| |exact Hw]; reflexivity.
Qed.

Lemma add_waypoint_ok (position : QPointF) (self : ConnectionController) :
  connections_ok self -> connections_ok (add_waypoint position self).
Proof.
  intros H. unfold add_waypoint. destruct (pipe_builder self) as [builder|] eqn:B; [|exact H].
  destruct H as [Hb Hw]. split.
  - intros builder' [= <-]. cbn. exact (Hb _ B).
  - eapply pipes_well_connected_frame; [| |exact Hw]; reflexivity.
Qed.

Lemma finish_pipe_construction_ok (end_component_id end_port_id : string)
    (self : ConnectionController) :
  connections_ok self ->
  connections_ok (finish_pipe_construction end_component_id end_port_id self).
Proof.
  intros H. unfold finish_pipe_construction.
  destruct (pipe_builder self) as [builder|] eqn:B; [|exact H].
  destruct (start_component self) as [start_ref|] eqn:Sc; [|exact H].
  destruct (start_port_id self) as [start_port_name|] eqn:Sp; [|exact H].
  destruct (find_component_by_id self end_component_id) as [end_component|]; [|exact H].
  cbv zeta.
  destruct (can_connect_ports _ _) eqn:Hcan; [|exact H]. cbn [negb].
  destruct (port_by_id (components self) start_ref start_port_name)
    as [[sr spo]|] eqn:Es; [|exact H].
  destruct (port_by_id (components self) end_component end_port_id)
    as [[er epo]|] eqn:Ee; [|exact H].
  destruct H as [Hb Hw]. split; [intros ? [=]|].
  destruct (Hb _ B) as [Hs Hp]. rewrite Sc in Hs. rewrite Sp in Hp.
  injection Hs as Hs. injection Hp as Hp.
  destruct (finish_pipe_ends (components self) builder end_component end_port_id
              (format_pipe_id (S (pipe_counter self)))) as (F1 & F2 & F3 & F4).
  cbv zeta in F1, F2, F3, F4.
  eapply (register_pipe_well_connected self _ sr er spo epo); [exact Hw| | |exact Hcan| |].
  - rewrite F1, F2, <- Hs, <- Hp. exact Es.
  - rewrite F3, F4. exact Ee.
  - reflexivity.
  - reflexivity.
Qed.

Lemma remove_pipe_ok (pipe_id : string) (self : ConnectionController) :
  connections_ok self -> connections_ok (remove_pipe pipe_id self).
Proof.
  intros [Hb Hw]. unfold remove_pipe.
  destruct (pipes self !! pipe_id) as [pipe|] eqn:L; [|now split]. split.
  - eapply builder_consistent_frame; [| | |exact Hb]; reflexivity.
  - eapply (unregister_pipe_well_connected self _ pipe pipe_id); [exact Hw|exact L| |];
      reflexivity.
Qed.

Lemma toggle_mode_ok (active : option bool) (self : ConnectionController) :
  connections_ok self -> connections_ok (toggle_mode active self).
Proof.
  intros H. unfold toggle_mode. cbv zeta. case_bool_decide; [exact H|].
  assert (connections_ok
            {| components := components self;
               connection_mode := match active with
                                  | Some a => a
                                  | None => negb (connection_mode self)
                                  end;
               pipe_builder := pipe_builder self;
               start_component := start_component self;
               start_port_id := start_port_id self;
               hovering_port := hovering_port self;
               pipes := pipes self;
               pipe_counter := pipe_counter self |}) as H' by framed H.
  destruct (match active with Some a => a | None => _ end);
    [exact H'|now apply cancel_pipe_construction_ok].
Qed.

Lemma on_port_clicked_ok (component : nat) (port_id : string) (self : ConnectionController) :
  connections_ok self -> connections_ok (on_port_clicked component port_id self).
Proof.
  intros H. unfold on_port_clicked.
  destruct (negb (connection_mode self)); [exact H|].
  destruct (components self !! component) as [obj|]; [|exact H].
  destruct (get_port_by_id obj port_id) as [port|]; [|exact H].
  destruct (Ports.is_connected port); [exact H|].
  destruct (pipe_builder self); [|now apply start_pipe_construction_ok].
  destruct (start_component self); [|exact H].
  destruct (start_port_id self); [|exact H].
  destruct (_ && _);
    [now apply cancel_pipe_construction_ok|now apply finish_pipe_construction_ok].
Qed.

Lemma on_port_hovered_ok (component : nat) (port_id : string) (is_entering : bool)
    (self : ConnectionController) :
  connections_ok self ->
  connections_ok (on_port_hovered component port_id is_entering self).
Proof.
  intros H. unfold on_port_hovered.
  destruct (negb (connection_mode self)); [exact H|].
  destruct (components self !! component); [|exact H]. framed H.
Qed.

Lemma handle_mouse_click_ok (position : QPointF) (left_button : bool)
    (self : ConnectionController) :
  connections_ok self -> connections_ok (handle_mouse_click position left_button self).
Proof.
  intros H. unfold handle_mouse_click.
  destruct (_ || _); [exact H|].
  destruct (pipe_builder self) eqn:B; [|exact H].
  destruct (hovering_port self) as [[cid pid]|];
    [now apply finish_pipe_construction_ok|now apply add_waypoint_ok].
Qed.

Lemma remove_pipes_ok (pipe_ids : list string) (self : ConnectionController) :
  connections_ok self ->
  connections_ok (foldl (fun self pipe_id => remove_pipe pipe_id self) self pipe_ids).
Proof.
  revert self. induction pipe_ids as [|pipe_id pipe_ids IH]; intros self H; [exact H|].
  cbn. apply IH. now apply remove_pipe_ok.
Qed.

Lemma clear_all_ok (self : ConnectionController) :
  connections_ok self -> connections_ok (clear_all self).
Proof.
  intros H. unfold clear_all. cbv zeta.
  apply cancel_pipe_construction_ok in H.
  apply (remove_pipes_ok (map fst (map_to_list (pipes (cancel_pipe_construction self))))) in H.
  set (cleared := foldl _ _ _) in *.
  assert (connections_ok
            {| components := components cleared;
               connection_mode := connection_mode cleared;
               pipe_builder := pipe_builder cleared;
               start_component := start_component cleared;
               start_port_id := start_port_id cleared;
               hovering_port := hovering_port cleared;
               pipes := pipes cleared;
               pipe_counter := 0 |}) as H' by framed H.
  cbn [connection_mode]. destruct (connection_mode cleared);
    [now apply toggle_mode_ok|exact H'].
Qed.

Lemma handle_ok (self : ConnectionController) (event : Event) :
  connections_ok self -> connections_ok (handle self event).
Proof.
  intros H. destruct event; cbn [handle];
    auto using toggle_mode_ok, on_port_clicked_ok, on_port_hovered_ok,
      handle_mouse_click_ok, start_pipe_construction_ok, add_waypoint_ok,
      finish_pipe_construction_ok, cancel_pipe_construction_ok, remove_pipe_ok,
      clear_all_ok.
Qed.

Lemma run_ok (comps : list HydraulicObject) (events : list Event) :
  connections_ok (run comps events).
Proof.
  unfold run. generalize (init_ok comps). generalize (__init__ comps).
  induction events as [|event events IH]; intros self H; [exact H|].
  cbn. apply IH. now apply handle_ok.
Qed.


Lemma finish_pipe_construction_registers (end_component_id end_port_id : string)
    (self : ConnectionController) :
  finish_pipe_construction end_component_id end_port_id self = self \/
  exists start_ref start_port_name end_component pipe,
    start_component self = Some start_ref /\
    start_port_id self = Some start_port_name /\
    find_component_by_id self end_component_id = Some end_component /\
    can_connect_ports (port_by_id (components self) start_ref start_port_name)
                      (port_by_id (components self) end_component end_port_id) = true /\
    pipes (finish_pipe_construction end_component_id end_port_id self)
    = <[format_pipe_id (S (pipe_counter self)) := pipe]> (pipes self).
Proof.
  unfold finish_pipe_construction.
  destruct (pipe_builder self) as [builder|]; [|now left].
  destruct (start_component self) as [start_ref|]; [|now left].
  destruct (start_port_id self) as [start_port_name|]; [|now left].
  destruct (find_component_by_id self end_component_id) as [end_component|]; [|now left].
  cbv zeta.
  destruct (can_connect_ports _ _) eqn:Hcan; [|now left]. cbn [negb].
  destruct (port_by_id (components self) start_ref start_port_name)
    as [[sr spo]|] eqn:Es; [|now left].
  destruct (port_by_id (components self) end_component end_port_id)
    as [[er epo]|] eqn:Ee; [|now left].
  right. eexists start_ref, start_port_name, end_component, _.
  split; [reflexivity|]. split; [reflexivity|]. split; [reflexivity|].
  split; [now rewrite Es, Ee|reflexivity].
Qed.

(** C10. [can_connect_to] is false as soon as one of the two ports is
    connected, the two ports are the same object, or they belong to the same
    component. [finish_pipe_construction] leaves the controller as it is, or
    [can_connect_ports] is true of the start port and the end port and one
    pipe is registered. After any sequence of events every registered pipe
    joins two different port objects of two different components, and no
    port object is at the end of two registered pipes. *)
Theorem connection_admissibility :
  (forall (self_ref other_ref : Ports.PortRef) (self other_port : Ports.Port),
     Ports.is_connected self = true \/ Ports.is_connected other_port = true \/
     self_ref = other_ref \/ fst self_ref = fst other_ref ->
     Ports.can_connect_to self_ref self other_ref other_port = false) /\
  (forall (self : ConnectionController) (end_component_id end_port_id : string),
     finish_pipe_construction end_component_id end_port_id self = self \/
     exists start_ref start_port_name end_component pipe,
       start_component self = Some start_ref /\
       start_port_id self = Some start_port_name /\
       find_component_by_id self end_component_id = Some end_component /\
       can_connect_ports (port_by_id (components self) start_ref start_port_name)
                         (port_by_id (components self) end_component end_port_id)
       = true /\
       pipes (finish_pipe_construction end_component_id end_port_id self)
       = <[format_pipe_id (S (pipe_counter self)) := pipe]> (pipes self)) /\
  (forall (components : list HydraulicObject) (events : list Event),
     pipes_well_connected (run components events)).
Proof.
  split; [|split].
  - intros self_ref other_ref self other_port H. unfold Ports.can_connect_to.
    destruct (Ports.is_connected self); [reflexivity|].
    destruct (Ports.is_connected other_port); [reflexivity|]. cbn.
    destruct H as [H|[H|[H|H]]]; try discriminate.
    + now rewrite bool_decide_eq_true_2.
    + case_bool_decide; [reflexivity|]. now rewrite bool_decide_eq_true_2.
  - intros self end_component_id end_port_id.
    apply finish_pipe_construction_registers.
  - intros components events. apply run_ok.
Qed.

(** A run that registers a pipe: the connection mode is switched on and the
    ports of two components are clicked one after the other. *)
Lemma run_registers_a_pipe :
  let comps := [ TransformController.placed_component "A" (QPoint 0 0);
                 TransformController.placed_component "B" (QPoint 10 5) ] in
  let self := run comps [ToggleMode None; PortClicked 0 "2"; PortClicked 1 "2"] in
  exists pipe,
    pipes self !! "pipe_001" = Some pipe /\
    OrthogonalPipes.start_component pipe = 0%nat /\
    OrthogonalPipes.end_component pipe = 1%nat /\
    port_state (components self) 0 "2" = Some ((0%nat, 0%nat), true) /\
    port_state (components self) 1 "2" = Some ((1%nat, 0%nat), true).
Proof.
  cbv zeta. eexists. split; [vm_compute; reflexivity|].
  repeat split; vm_compute; reflexivity.
Qed.

End Connections.

(** *** The route of a pipe *)

Section Routes.
Import Pipe.

Lemma create_orthogonal_segments_corner (p q : QPointF) :
  create_orthogonal_segments p q = [p; corner p q; q].
Proof.
  unfold create_orthogonal_segments, corner. now destruct (Rge_dec _ _).
Qed.

Lemma last_cons_default {A : Type} (l : list A) :
  forall a d d' : A, List.last (a :: l) d = List.last (a :: l) d'.
Proof.
  induction l as [|b l IH]; intros a d d'; [reflexivity|].
  change (List.last (b :: l) d = List.last (b :: l) d'). apply IH.
Qed.

Lemma last_cons_last {A : Type} (l : list A) (a d : A) :
  List.last (a :: l) d = List.last l a.
Proof.
  destruct l as [|b l]; [reflexivity|].
  change (List.last (b :: l) d = List.last (b :: l) a). apply last_cons_default.
Qed.

Lemma legs_app (current : QPointF) (l1 l2 : list QPointF) :
  legs current (l1 ++ l2) = legs current l1 ++ legs (List.last l1 current) l2.
Proof.
  revert current. induction l1 as [|stop l1 IH]; intros current; [reflexivity|].
  cbn [app legs]. now rewrite IH, last_cons_last.
Qed.

Lemma waypoint_loop_legs (waypoints : list QPointF) :
  forall (points : list QPointF) (current : QPointF),
    waypoint_loop points current waypoints
    = (points ++ legs current waypoints, List.last waypoints current).
Proof.
  induction waypoints as [|waypoint rest IH]; intros points current.
  - cbn. now rewrite app_nil_r.
  - cbn [waypoint_loop legs]. rewrite create_orthogonal_segments_corner. cbn [tail].
    rewrite IH, <- app_assoc, last_cons_last. reflexivity.
Qed.

Lemma calculate_orthogonal_path_legs (start_pos end_pos : QPointF)
    (waypoints : list QPointF) :
  calculate_orthogonal_path start_pos end_pos waypoints
  = start_pos :: legs start_pos (waypoints ++ [end_pos]).
Proof.
  unfold calculate_orthogonal_path. rewrite waypoint_loop_legs.
  rewrite create_orthogonal_segments_corner, legs_app. reflexivity.
Qed.









End Routes.

Section PathLength.
Import Pipe.







End PathLength.

Section PipeRecomputation.
Import HydraulicObjects.

(** X4. Recomputing the route of a pipe twice over the same components gives
    what recomputing it once gives: the same pipe and the same report. *)
Theorem update_orthogonal_path_idempotent
    (components : list HydraulicObject) (pipe : OrthogonalPipes.OrthogonalPipe) :
  OrthogonalPipes.update_orthogonal_path components
    (fst (OrthogonalPipes.update_orthogonal_path components pipe))
  = OrthogonalPipes.update_orthogonal_path components pipe.
Proof.
  unfold OrthogonalPipes.update_orthogonal_path at 2.
  destruct (components !! OrthogonalPipes.start_component pipe) as [so|] eqn:Es;
    [|cbn [fst]; unfold OrthogonalPipes.update_orthogonal_path; now rewrite Es].
  destruct (components !! OrthogonalPipes.end_component pipe) as [eo|] eqn:Ee;
    [|cbn [fst]; unfold OrthogonalPipes.update_orthogonal_path; now rewrite Es, Ee].
  destruct (get_port_by_id so _) as [sp|] eqn:Ps;
    [|cbn [fst]; unfold OrthogonalPipes.update_orthogonal_path; now rewrite Es, Ee, Ps].
  destruct (get_port_by_id eo _) as [ep|] eqn:Pe;
    [|cbn [fst]; unfold OrthogonalPipes.update_orthogonal_path; now rewrite Es, Ee, Ps, Pe].
  cbv zeta.
  destruct (Pipe.calculate_orthogonal_path _ _ _) as [|p points] eqn:Ep.
  - cbn [fst]. unfold OrthogonalPipes.update_orthogonal_path.
    rewrite Es, Ee, Ps, Pe. cbv zeta. now rewrite Ep.
  - cbn [fst]. unfold OrthogonalPipes.update_orthogonal_path.
    cbn [OrthogonalPipes.start_component OrthogonalPipes.end_component
         OrthogonalPipes.start_port OrthogonalPipes.end_port OrthogonalPipes.waypoints
         OrthogonalPipes.pipe_id].
    rewrite Es, Ee, Ps, Pe. cbv zeta. now rewrite Ep.
Qed.

Lemma calculate_orthogonal_path_cons (start_pos end_pos : QPointF)
    (waypoints : list QPointF) :
  exists points, Pipe.calculate_orthogonal_path start_pos end_pos waypoints
                 = start_pos :: points.
Proof. eexists. apply calculate_orthogonal_path_legs. Qed.

Lemma update_orthogonal_path_found
    (components : list HydraulicObject) (pipe : OrthogonalPipes.OrthogonalPipe)
    (start_component_obj end_component_obj : HydraulicObject)
    (start_port_obj end_port_obj : Ports.Port) :
  components !! OrthogonalPipes.start_component pipe = Some start_component_obj ->
  components !! OrthogonalPipes.end_component pipe = Some end_component_obj ->
  get_port_by_id start_component_obj (OrthogonalPipes.start_port pipe)
  = Some start_port_obj ->
  get_port_by_id end_component_obj (OrthogonalPipes.end_port pipe) = Some end_port_obj ->
  let points := Pipe.calculate_orthogonal_path (Ports.scenePos start_port_obj)
                  (Ports.scenePos end_port_obj) (OrthogonalPipes.waypoints pipe) in
  OrthogonalPipes.update_orthogonal_path components pipe
  = ({| OrthogonalPipes.start_component := OrthogonalPipes.start_component pipe;
        OrthogonalPipes.start_port := OrthogonalPipes.start_port pipe;
        OrthogonalPipes.end_component := OrthogonalPipes.end_component pipe;
        OrthogonalPipes.end_port := OrthogonalPipes.end_port pipe;
        OrthogonalPipes.waypoints := OrthogonalPipes.waypoints pipe;
        OrthogonalPipes.length := Pipe.calculate_total_length points;
        OrthogonalPipes.pipe_id := OrthogonalPipes.pipe_id pipe;
        OrthogonalPipes.path := points |},
     OrthogonalPipes.PathUpdated (length points) (Pipe.calculate_total_length points)).
Proof.
  intros Es Ee Ps Pe. cbv zeta. unfold OrthogonalPipes.update_orthogonal_path.
  rewrite Es, Ee, Ps, Pe. cbv zeta.
  destruct (calculate_orthogonal_path_cons (Ports.scenePos start_port_obj)
              (Ports.scenePos end_port_obj) (OrthogonalPipes.waypoints pipe))
    as [points ->].
  reflexivity.
Qed.




End PipeRecomputation.

Section Preview.
Import HydraulicObjects ConnectionController.

Lemma preview_loop_waypoint_loop (waypoints : list QPointF) :
  forall (points : list QPointF) (current_pos : QPointF),
    PipeBuilder.preview_loop points current_pos waypoints
    = Pipe.waypoint_loop points current_pos waypoints.
Proof.
  induction waypoints as [|waypoint rest IH]; intros points current_pos; [reflexivity|].
  cbn [PipeBuilder.preview_loop Pipe.waypoint_loop]. apply IH.
Qed.

Lemma calculate_preview_path_final (builder : InteractivePipeBuilder)
    (start_pos end_pos : QPointF) :
  PipeBuilder.calculate_preview_path builder start_pos end_pos
  = Pipe.calculate_orthogonal_path start_pos end_pos (builder_waypoints builder).
Proof.
  unfold PipeBuilder.calculate_preview_path, Pipe.calculate_orthogonal_path.
  now rewrite preview_loop_waypoint_loop.
Qed.

(** X6. While a pipe is being built, the preview shown when the mouse is
    at the scene position of a port is the path that the pipe gets when it
    is finished at that port. *)
Theorem preview_is_final_path
    (components : list HydraulicObject) (builder : InteractivePipeBuilder)
    (end_component : nat) (end_port : string)
    (start_component_obj end_component_obj : HydraulicObject)
    (start_port_obj end_port_obj : Ports.Port) :
  components !! builder_start_component builder = Some start_component_obj ->
  get_port_by_id start_component_obj (builder_start_port builder) = Some start_port_obj ->
  components !! end_component = Some end_component_obj ->
  get_port_by_id end_component_obj end_port = Some end_port_obj ->
  PipeBuilder.update_preview components builder (Ports.scenePos end_port_obj)
  = Some (OrthogonalPipes.path (finish_pipe components builder end_component end_port)).
Proof.
  intros Es Ps Ee Pe. unfold PipeBuilder.update_preview. rewrite Es, Ps. cbv zeta.
  rewrite calculate_preview_path_final.
  unfold finish_pipe, OrthogonalPipes.__init__.
  rewrite (update_orthogonal_path_found components
             {| OrthogonalPipes.start_component := builder_start_component builder;
                OrthogonalPipes.start_port := builder_start_port builder;
                OrthogonalPipes.end_component := end_component;
                OrthogonalPipes.end_port := end_port;
                OrthogonalPipes.waypoints := builder_waypoints builder;
                OrthogonalPipes.length := 0;
                OrthogonalPipes.pipe_id := "";
                OrthogonalPipes.path := [] |} _ _ _ _ Es Ee Ps Pe).
  cbn [fst OrthogonalPipes.path OrthogonalPipes.waypoints].
  destruct (calculate_orthogonal_path_cons (Ports.scenePos start_port_obj)
              (Ports.scenePos end_port_obj) (builder_waypoints builder)) as [points ->].
  reflexivity.
Qed.

(** An instance of X6: a builder started at the port [2] of the first of
    two components, with one waypoint, and the port [2] of the second. *)
Lemma preview_is_final_path_example :
  let components := [ TransformController.placed_component "A" (QPoint 0 0);
                      TransformController.placed_component "B" (QPoint 10 5) ] in
  let builder := {| builder_start_component := 0;
                    builder_start_port := "2";
                    builder_waypoints := [QPoint 50 50] |} in
  PipeBuilder.update_preview components builder (padd (QPoint 10 5) (QPoint 30 4))
  = Some (OrthogonalPipes.path (finish_pipe components builder 1 "2")).
Proof.
  exact (preview_is_final_path
           [ TransformController.placed_component "A" (QPoint 0 0);
             TransformController.placed_component "B" (QPoint 10 5) ]
           {| builder_start_component := 0;
              builder_start_port := "2";
              builder_waypoints := [QPoint 50 50] |}
           1 "2" _ _ _ _ eq_refl eq_refl eq_refl eq_refl).
Defined.

End Preview.

(** *** Connecting and disconnecting *)

Section ConnectAndRemove.
Import HydraulicObjects ConnectionController.

Lemma update_orthogonal_path_keeps (comps : list HydraulicObject)
    (pipe : OrthogonalPipes.OrthogonalPipe) :
  let pipe' := fst (OrthogonalPipes.update_orthogonal_path comps pipe) in
  OrthogonalPipes.waypoints pipe' = OrthogonalPipes.waypoints pipe /\
  OrthogonalPipes.pipe_id pipe' = OrthogonalPipes.pipe_id pipe.
Proof.
  unfold OrthogonalPipes.update_orthogonal_path.
  destruct (comps !! _) as [o1|]; [|now cbn].
  destruct (comps !! _) as [o2|]; [|now cbn].
  destruct (get_port_by_id o1 _) as [p1|]; [|now cbn].
  destruct (get_port_by_id o2 _) as [p2|]; [|now cbn].
  cbv zeta. destruct (Pipe.calculate_orthogonal_path _ _ _); now cbn.
Qed.

Lemma connected_ports (comps : list HydraulicObject)
    (start_component end_component : nat) (start_port end_port new_pipe_id : string)
    (start_ref end_ref : Ports.PortRef) (start_port_obj end_port_obj : Ports.Port) :
  port_by_id comps start_component start_port = Some (start_ref, start_port_obj) ->
  port_by_id comps end_component end_port = Some (end_ref, end_port_obj) ->
  start_ref <> end_ref ->
  forall c pid,
    port_by_id (set_port end_ref (Ports.connect_to_pipe new_pipe_id end_port_obj)
                  (set_port start_ref (Ports.connect_to_pipe new_pipe_id start_port_obj)
                     comps)) c pid
    = (fun '(r, p) =>
         (r, if decide (r = end_ref) then Ports.connect_to_pipe new_pipe_id end_port_obj
             else if decide (r = start_ref)
                  then Ports.connect_to_pipe new_pipe_id start_port_obj
                  else p)) <$> port_by_id comps c pid.
Proof.
  intros Es Ee Hne c pid.
  pose proof (port_by_id_some _ _ _ _ _ Es) as (Fs & _ & so & Ls & Qs). rewrite <- Fs in Ls.
  pose proof (port_by_id_set_port comps start_ref
                (Ports.connect_to_pipe new_pipe_id start_port_obj) start_port_obj so)
    as H1.
  assert (Ee1 : port_by_id (set_port start_ref
                              (Ports.connect_to_pipe new_pipe_id start_port_obj) comps)
                  end_component end_port = Some (end_ref, end_port_obj)).
  { rewrite (H1 _ _ Ls Qs eq_refl), Ee. cbn. now rewrite decide_False by congruence. }
  pose proof (port_by_id_some _ _ _ _ _ Ee1) as (Fe & _ & eo & Le & Qe). rewrite <- Fe in Le.
  rewrite (port_by_id_set_port _ end_ref
             (Ports.connect_to_pipe new_pipe_id end_port_obj) end_port_obj eo _ _
             Le Qe eq_refl).
  rewrite (H1 _ _ Ls Qs eq_refl).
  now destruct (port_by_id comps c pid) as [[r p]|].
Qed.

(** X7. When [can_connect_to] accepts the start port and the end port,
    [finish_pipe_construction] registers, under the next identifier, a pipe
    from the start of the builder to the end port through the waypoints of
    the builder; both ports are then connected to that pipe and every other
    port object is as before; the counter is incremented, the construction
    state is cleared and the connection mode is kept. *)
Theorem finish_pipe_construction_connects
    (self : ConnectionController) (builder : InteractivePipeBuilder)
    (start_ref end_component : nat) (start_port_name end_component_id end_port_id : string)
    (sr er : Ports.PortRef) (start_port_obj end_port_obj : Ports.Port) :
  pipe_builder self = Some builder ->
  start_component self = Some start_ref ->
  start_port_id self = Some start_port_name ->
  find_component_by_id self end_component_id = Some end_component ->
  port_by_id (components self) start_ref start_port_name = Some (sr, start_port_obj) ->
  port_by_id (components self) end_component end_port_id = Some (er, end_port_obj) ->
  Ports.can_connect_to sr start_port_obj er end_port_obj = true ->
  let self' := finish_pipe_construction end_component_id end_port_id self in
  let new_pipe_id := format_pipe_id (S (pipe_counter self)) in
  (exists pipe,
     pipes self' = <[new_pipe_id := pipe]> (pipes self) /\
     OrthogonalPipes.start_component pipe = builder_start_component builder /\
     OrthogonalPipes.start_port pipe = builder_start_port builder /\
     OrthogonalPipes.end_component pipe = end_component /\
     OrthogonalPipes.end_port pipe = end_port_id /\
     OrthogonalPipes.waypoints pipe = builder_waypoints builder /\
     OrthogonalPipes.pipe_id pipe = new_pipe_id) /\
  port_by_id (components self') start_ref start_port_name
  = Some (sr, Ports.connect_to_pipe new_pipe_id start_port_obj) /\
  port_by_id (components self') end_component end_port_id
  = Some (er, Ports.connect_to_pipe new_pipe_id end_port_obj) /\
  (forall c pid r port,
     port_by_id (components self) c pid = Some (r, port) -> r <> sr -> r <> er ->
     port_by_id (components self') c pid = Some (r, port)) /\
  pipe_counter self' = S (pipe_counter self) /\
  pipe_builder self' = None /\
  start_component self' = None /\
  start_port_id self' = None /\
  connection_mode self' = connection_mode self.
Proof.
  intros B Sc Sp Fc Es Ee Hcan. cbv zeta.
  unfold finish_pipe_construction. rewrite B, Sc, Sp, Fc. cbv zeta.
  rewrite Es, Ee. cbn [can_connect_ports]. rewrite Hcan. cbn [negb].
  cbn [cleanup_pipe_construction pipes components pipe_counter pipe_builder
       start_component start_port_id connection_mode].
  apply can_connect_to_true in Hcan as (_ & _ & Hne & _).
  pose proof (connected_ports (components self) start_ref end_component start_port_name
                end_port_id (format_pipe_id (S (pipe_counter self))) sr er
                start_port_obj end_port_obj Es Ee Hne) as Hports.
  split.
  { eexists. split; [reflexivity|].
    destruct (finish_pipe_ends (components self) builder end_component end_port_id
                (format_pipe_id (S (pipe_counter self)))) as (F1 & F2 & F3 & F4).
    cbv zeta in F1, F2, F3, F4.
    split; [exact F1|]. split; [exact F2|]. split; [exact F3|]. split; [exact F4|].
    unfold finish_pipe, OrthogonalPipes.__init__.
    split; [|reflexivity].
    cbn [OrthogonalPipes.set_pipe_id OrthogonalPipes.waypoints].
    now destruct (update_orthogonal_path_keeps (components self)
                    {| OrthogonalPipes.start_component := builder_start_component builder;
                       OrthogonalPipes.start_port := builder_start_port builder;
                       OrthogonalPipes.end_component := end_component;
                       OrthogonalPipes.end_port := end_port_id;
                       OrthogonalPipes.waypoints := builder_waypoints builder;
                       OrthogonalPipes.length := 0;
                       OrthogonalPipes.pipe_id := "";
                       OrthogonalPipes.path := [] |}) as [-> _]. }
  split.
  { rewrite Hports, Es. cbn. rewrite decide_False by congruence.
    now rewrite decide_True. }
  split.
  { rewrite Hports, Ee. cbn. now rewrite decide_True. }
  split; [|repeat split].
  intros c pid r port E N1 N2. rewrite Hports, E. cbn.
  now rewrite !decide_False.
Qed.

(** An instance of X7: the connection mode is switched on, the port [2] of
    the first of two components is clicked, and the construction is
    finished at the port [2] of the second. *)
Lemma finish_pipe_construction_connects_example :
  let comps := [ TransformController.placed_component "A" (QPoint 0 0);
                 TransformController.placed_component "B" (QPoint 10 5) ] in
  let self := run comps [ToggleMode None; PortClicked 0 "2"] in
  let self' := finish_pipe_construction "B" "2" self in
  let port_of position :=
    Ports.add_to_scene
      (Ports.setPos (padd position (QPoint 30 4))
         (Ports.__init__ "2" "output" (QPoint 30 4))) in
  (exists pipe,
     pipes self' = <[format_pipe_id 1 := pipe]> (pipes self) /\
     OrthogonalPipes.start_component pipe = 0%nat /\
     OrthogonalPipes.start_port pipe = "2" /\
     OrthogonalPipes.end_component pipe = 1%nat /\
     OrthogonalPipes.end_port pipe = "2" /\
     OrthogonalPipes.waypoints pipe = [] /\
     OrthogonalPipes.pipe_id pipe = format_pipe_id 1) /\
  port_by_id (components self') 0 "2"
  = Some ((0%nat, 0%nat), Ports.connect_to_pipe (format_pipe_id 1) (port_of (QPoint 0 0))) /\
  port_by_id (components self') 1 "2"
  = Some ((1%nat, 0%nat), Ports.connect_to_pipe (format_pipe_id 1) (port_of (QPoint 10 5))) /\
  (forall c pid r port,
     port_by_id (components self) c pid = Some (r, port) ->
     r <> (0%nat, 0%nat) -> r <> (1%nat, 0%nat) ->
     port_by_id (components self') c pid = Some (r, port)) /\
  pipe_counter self' = 1%nat /\
  pipe_builder self' = None /\
  start_component self' = None /\
  start_port_id self' = None /\
  connection_mode self' = true.
Proof.
  exact (finish_pipe_construction_connects
           (run [ TransformController.placed_component "A" (QPoint 0 0);
                  TransformController.placed_component "B" (QPoint 10 5) ]
                [ToggleMode None; PortClicked 0 "2"])
           {| builder_start_component := 0;
              builder_start_port := "2";
              builder_waypoints := [] |}
           0 1 "2" "B" "2" (0%nat, 0%nat) (1%nat, 0%nat) _ _
           eq_refl eq_refl eq_refl eq_refl eq_refl eq_refl eq_refl).
Defined.

(** X8. Removing a registered pipe of a controller, after any sequence of
    events, unregisters it and frees the port objects at its two ends;
    every other port keeps its state, so every other registered pipe still
    joins two connected ports; the counter is kept. *)
Theorem remove_pipe_frees_ports
    (comps : list HydraulicObject) (events : list Event)
    (old_pipe_id : string) (pipe : OrthogonalPipes.OrthogonalPipe) :
  let self := run comps events in
  pipes self !! old_pipe_id = Some pipe ->
  let self' := remove_pipe old_pipe_id self in
  pipes self' = delete old_pipe_id (pipes self) /\
  (exists start_ref end_ref,
     port_state (components self') (OrthogonalPipes.start_component pipe)
                (OrthogonalPipes.start_port pipe) = Some (start_ref, false) /\
     port_state (components self') (OrthogonalPipes.end_component pipe)
                (OrthogonalPipes.end_port pipe) = Some (end_ref, false)) /\
  (forall c pid r b,
     port_state (components self) c pid = Some (r, b) ->
     r ∉ pipe_ports (components self) pipe ->
     port_state (components self') c pid = Some (r, b)) /\
  (forall other_id other,
     pipes self' !! other_id = Some other ->
     joins_two_components (components self') other) /\
  pipe_counter self' = pipe_counter self.
Proof.
  cbv zeta. intros L.
  destruct (run_ok comps events) as [Hb Hw].
  pose proof (remove_pipe_ok old_pipe_id _ (conj Hb Hw)) as [_ [Hj' _]].
  set (self := run comps events) in *.
  destruct Hw as [Hj Hd]. destruct (Hj _ _ L) as (sr & er & Ps & Pe & _).
  pose proof (disconnect_both_twice_same_ports (components self) pipe) as S.
  assert (EC : components (remove_pipe old_pipe_id self)
               = disconnect_both pipe (disconnect_both pipe (components self))).
  { unfold remove_pipe. now rewrite L. }
  assert (EP : pipes (remove_pipe old_pipe_id self) = delete old_pipe_id (pipes self)).
  { unfold remove_pipe. now rewrite L. }
  rewrite EC. split; [exact EP|]. split.
  { exists sr, er. rewrite !S, Ps, Pe. cbn.
    rewrite !decide_True; [auto| |]; apply elem_of_pipe_ports; rewrite Ps, Pe; cbn; auto. }
  split.
  { intros c pid r b E Hout. rewrite S, E. cbn. now rewrite decide_False. }
  split.
  { intros other_id other Lo. rewrite <- EC. exact (Hj' _ _ Lo). }
  unfold remove_pipe. now rewrite L.
Qed.

(** An instance of X8: the pipe registered between two components is
    removed. *)
Lemma remove_pipe_frees_ports_example :
  let comps := [ TransformController.placed_component "A" (QPoint 0 0);
                 TransformController.placed_component "B" (QPoint 10 5) ] in
  let self := run comps [ToggleMode None; PortClicked 0 "2"; PortClicked 1 "2"] in
  let self' := remove_pipe "pipe_001" self in
  pipes self' = delete "pipe_001" (pipes self) /\
  (exists start_ref end_ref,
     port_state (components self') 0 "2" = Some (start_ref, false) /\
     port_state (components self') 1 "2" = Some (end_ref, false)) /\
  pipe_counter self' = pipe_counter self.
Proof.
  cbv zeta.
  destruct (remove_pipe_frees_ports
              [ TransformController.placed_component "A" (QPoint 0 0);
                TransformController.placed_component "B" (QPoint 10 5) ]
              [ToggleMode None; PortClicked 0 "2"; PortClicked 1 "2"]
              "pipe_001"
              (OrthogonalPipes.set_pipe_id "pipe_001"
                 (finish_pipe
                    [ TransformController.placed_component "A" (QPoint 0 0);
                      TransformController.placed_component "B" (QPoint 10 5) ]
                    {| builder_start_component := 0;
                       builder_start_port := "2";
                       builder_waypoints := [] |} 1 "2"))
              ltac:(vm_compute; reflexivity))
    as (H1 & H2 & _ & _ & H5).
  split; [exact H1|]. split; [exact H2|exact H5].
Defined.

End ConnectAndRemove.

Section ClearAll.
Import HydraulicObjects ConnectionController.

Lemma remove_pipe_pipes (pipe_id : string) (self : ConnectionController) :
  pipes (remove_pipe pipe_id self) = delete pipe_id (pipes self).
Proof.
  unfold remove_pipe. destruct (pipes self !! pipe_id) eqn:L; [reflexivity|].
  symmetry. now apply delete_id.
Qed.

Lemma remove_pipes_no_pipe (pipe_ids : list string) :
  forall (self : ConnectionController) (k : string),
    k ∈ pipe_ids \/ pipes self !! k = None ->
    pipes (foldl (fun self pipe_id => remove_pipe pipe_id self) self pipe_ids) !! k = None.
Proof.
  induction pipe_ids as [|pipe_id rest IH]; intros self k H.
  - destruct H as [H|H]; [|exact H]. now apply elem_of_nil in H.
  - cbn [foldl]. apply IH. rewrite remove_pipe_pipes.
    destruct (decide (k = pipe_id)) as [->|Hne].
    + right. apply lookup_delete_eq.
    + destruct H as [H|H].
      * apply elem_of_cons in H as [H|H]; [contradiction|now left].
      * right. rewrite lookup_delete_ne by congruence. exact H.
Qed.

Lemma remove_pipes_frame (pipe_ids : list string) :
  forall self : ConnectionController,
    let self' := foldl (fun self pipe_id => remove_pipe pipe_id self) self pipe_ids in
    connection_mode self' = connection_mode self /\
    pipe_builder self' = pipe_builder self.
Proof.
  induction pipe_ids as [|pipe_id rest IH]; intros self; [now split|].
  cbn [foldl]. destruct (IH (remove_pipe pipe_id self)) as [-> ->].
  unfold remove_pipe. now destruct (pipes self !! pipe_id).
Qed.

Lemma remove_pipes_same_ports (pipe_ids : list string) :
  forall self : ConnectionController,
    NoDup pipe_ids ->
    exists flag,
      same_ports flag (components self)
        (components (foldl (fun self pipe_id => remove_pipe pipe_id self) self pipe_ids)) /\
      (forall r, flag r false = false) /\
      (forall r b pipe_id pipe,
         pipe_id ∈ pipe_ids -> pipes self !! pipe_id = Some pipe ->
         r ∈ pipe_ports (components self) pipe -> flag r b = false) /\
      (forall r b,
         (forall pipe_id pipe,
            pipe_id ∈ pipe_ids -> pipes self !! pipe_id = Some pipe ->
            r ∉ pipe_ports (components self) pipe) ->
         flag r b = b).
Proof.
  induction pipe_ids as [|pipe_id rest IH]; intros self Hnd.
  - exists (fun _ b => b). split; [apply same_ports_refl|].
    split; [reflexivity|]. split; [|reflexivity].
    intros r b pipe_id pipe H. now apply elem_of_nil in H.
  - apply NoDup_cons in Hnd as [Hnotin Hnd]. cbn [foldl].
    destruct (IH (remove_pipe pipe_id self) Hnd) as (f2 & S2 & Z2 & A2 & B2).
    unfold remove_pipe in S2, A2, B2 |- *.
    destruct (pipes self !! pipe_id) as [pipe|] eqn:L.
    + cbn [components pipes] in S2, A2, B2.
      pose proof (disconnect_both_twice_same_ports (components self) pipe) as S1.
      change (disconnect_port (OrthogonalPipes.end_component pipe)
                (OrthogonalPipes.end_port pipe)
                (disconnect_port (OrthogonalPipes.start_component pipe)
                   (OrthogonalPipes.start_port pipe)
                   (disconnect_port (OrthogonalPipes.end_component pipe)
                      (OrthogonalPipes.end_port pipe)
                      (disconnect_port (OrthogonalPipes.start_component pipe)
                         (OrthogonalPipes.start_port pipe) (components self)))))
        with (disconnect_both pipe (disconnect_both pipe (components self)))
        in S2, A2, B2.
      eexists. split; [exact (same_ports_trans _ _ _ _ _ S1 S2)|]. cbn beta.
      split; [|split].
      * intros r. destruct (decide _); apply Z2.
      * intros r b id q Hin Lq Hr. apply elem_of_cons in Hin as [->|Hin].
        -- rewrite L in Lq. injection Lq as <-. rewrite decide_True by exact Hr. apply Z2.
        -- apply (A2 r _ id q Hin).
           ++ rewrite lookup_delete_ne; [exact Lq|]. intros <-. contradiction.
           ++ now rewrite (same_ports_pipe_ports _ _ _ _ S1).
      * intros r b Hout. rewrite decide_False.
        -- apply B2. intros id q Hin Lq.
           apply lookup_delete_Some in Lq as [_ Lq].
           rewrite (same_ports_pipe_ports _ _ _ _ S1).
           apply (Hout id q); [now apply elem_of_cons; right|exact Lq].
        -- apply (Hout pipe_id pipe); [now apply elem_of_cons; left|exact L].
    + exists f2. split; [exact S2|]. split; [exact Z2|]. split.
      * intros r b id q Hin Lq Hr. apply elem_of_cons in Hin as [->|Hin].
        -- rewrite L in Lq. discriminate.
        -- exact (A2 r b id q Hin Lq Hr).
      * intros r b Hout. apply B2. intros id q Hin Lq.
        apply (Hout id q); [now apply elem_of_cons; right|exact Lq].
Qed.

Lemma cancel_pipe_construction_frame (self : ConnectionController) :
  let self' := cancel_pipe_construction self in
  components self' = components self /\ pipes self' = pipes self /\
  pipe_counter self' = pipe_counter self /\
  connection_mode self' = connection_mode self /\ pipe_builder self' = None.
Proof.
  unfold cancel_pipe_construction. destruct (pipe_builder self) eqn:B; now cbn.
Qed.

(** X9. [clear_all] leaves a controller without any registered pipe, with
    its counter at 0, out of the connection mode and without a construction
    in progress. Every port object that was at an end of a registered pipe
    is free afterwards, and every other port keeps its state. *)
Theorem clear_all_clears (self : ConnectionController) :
  let self' := clear_all self in
  pipes self' = ∅ /\
  pipe_counter self' = 0%nat /\
  connection_mode self' = false /\
  pipe_builder self' = None /\
  (forall c pid r b pipe_id pipe,
     port_state (components self) c pid = Some (r, b) ->
     pipes self !! pipe_id = Some pipe ->
     r ∈ pipe_ports (components self) pipe ->
     port_state (components self') c pid = Some (r, false)) /\
  (forall c pid r b,
     port_state (components self) c pid = Some (r, b) ->
     (forall pipe_id pipe, pipes self !! pipe_id = Some pipe ->
                           r ∉ pipe_ports (components self) pipe) ->
     port_state (components self') c pid = Some (r, b)).
Proof.
  cbv zeta. unfold clear_all. cbv zeta.
  destruct (cancel_pipe_construction_frame self) as (EC & EP & _ & EM & EB).
  cbv zeta in EC, EP, EM, EB.
  set (cancelled := cancel_pipe_construction self) in *.
  set (pipe_ids := map fst (map_to_list (pipes cancelled))).
  set (cleared := foldl _ cancelled pipe_ids).
  assert (Hin : forall k v, pipes self !! k = Some v -> k ∈ pipe_ids).
  { intros k v Hk. unfold pipe_ids. rewrite EP.
    apply list_elem_of_fmap. exists (k, v). split; [reflexivity|].
    now apply elem_of_map_to_list. }
  assert (Hnd : NoDup pipe_ids).
  { unfold pipe_ids. apply NoDup_fst_map_to_list. }
  assert (Hempty : pipes cleared = ∅).
  { apply map_eq. intros k. rewrite lookup_empty.
    apply remove_pipes_no_pipe.
    destruct (pipes cancelled !! k) as [v|] eqn:Hk; [left|now right].
    rewrite EP in Hk. exact (Hin k v Hk). }
  destruct (remove_pipes_frame pipe_ids cancelled) as [Hmode Hbuilder].
  cbv zeta in Hmode, Hbuilder. fold cleared in Hmode, Hbuilder.
  rewrite EM in Hmode. rewrite EB in Hbuilder.
  destruct (remove_pipes_same_ports pipe_ids cancelled Hnd) as (f & S & Z & A & B).
  fold cleared in S. rewrite EC in S, A, B. rewrite EP in A, B.
  assert (Hfinal :
    forall final : ConnectionController,
      components final = components cleared -> pipes final = pipes cleared ->
      pipe_counter final = 0%nat -> connection_mode final = false ->
      pipe_builder final = None ->
      pipes final = ∅ /\ pipe_counter final = 0%nat /\ connection_mode final = false /\
      pipe_builder final = None /\
      (forall c pid r b pipe_id pipe,
         port_state (components self) c pid = Some (r, b) ->
         pipes self !! pipe_id = Some pipe ->
         r ∈ pipe_ports (components self) pipe ->
         port_state (components final) c pid = Some (r, false)) /\
      (forall c pid r b,
         port_state (components self) c pid = Some (r, b) ->
         (forall pipe_id pipe, pipes self !! pipe_id = Some pipe ->
                               r ∉ pipe_ports (components self) pipe) ->
         port_state (components final) c pid = Some (r, b))).
  { intros final FC FP F0 FM FB. rewrite FC, FP.
    split; [exact Hempty|]. split; [exact F0|]. split; [exact FM|]. split; [exact FB|].
    split.
    - intros c pid r b pipe_id pipe E L R. rewrite S, E. cbn.
      now rewrite (A r b pipe_id pipe (Hin _ _ L) L R).
    - intros c pid r b E Hout. rewrite S, E. cbn. rewrite B; [reflexivity|].
      intros pipe_id pipe _ L. exact (Hout pipe_id pipe L). }
  cbn [connection_mode]. destruct (connection_mode cleared) eqn:Hm.
  - unfold toggle_mode. cbn [connection_mode].
    rewrite bool_decide_eq_false_2 by discriminate.
    unfold cancel_pipe_construction. cbn [pipe_builder]. rewrite Hbuilder.
    now apply Hfinal.
  - now apply Hfinal.
Qed.

End ClearAll.

Section RoundTrip.
Import HydraulicObjects ConnectionController.

Lemma set_ports_ports (obj : HydraulicObject) : set_ports (ports obj) obj = obj.
Proof. now destruct obj. Qed.

Lemma set_port_same (comps : list HydraulicObject) (c : nat) (pid : string)
    (ref : Ports.PortRef) (old : Ports.Port) :
  port_by_id comps c pid = Some (ref, old) -> set_port ref old comps = comps.
Proof.
  intros H. apply port_by_id_some in H as (<- & _ & obj & L & Q).
  unfold set_port. apply list_eq. intros j. rewrite list_lookup_alter.
  destruct (decide (fst ref = j)) as [<-|]; [|reflexivity].
  rewrite L. cbn. now rewrite (list_insert_id _ _ _ Q), set_ports_ports.
Qed.

Lemma set_port_twice (comps : list HydraulicObject) (ref : Ports.PortRef)
    (a b : Ports.Port) :
  set_port ref a (set_port ref b comps) = set_port ref a comps.
Proof.
  unfold set_port. apply list_eq. intros j.
  destruct (decide (fst ref = j)) as [<-|N].
  - rewrite !list_lookup_alter_eq.
    destruct (comps !! fst ref) as [obj|]; [|reflexivity]. cbn.
    destruct obj; cbn. now rewrite list_insert_insert_eq.
  - now rewrite !list_lookup_alter_ne by exact N.
Qed.

Lemma set_port_commute (comps : list HydraulicObject) (r1 r2 : Ports.PortRef)
    (a b : Ports.Port) :
  fst r1 <> fst r2 ->
  set_port r1 a (set_port r2 b comps) = set_port r2 b (set_port r1 a comps).
Proof.
  intros Hne. unfold set_port. apply list_eq. intros j.
  destruct (decide (fst r1 = j)) as [<-|N1].
  - rewrite list_lookup_alter_eq.
    rewrite !(list_lookup_alter_ne _ _ (fst r2)) by congruence.
    now rewrite list_lookup_alter_eq.
  - rewrite (list_lookup_alter_ne _ _ (fst r1)) by exact N1.
    destruct (decide (fst r2 = j)) as [<-|N2].
    + rewrite !list_lookup_alter_eq. now rewrite list_lookup_alter_ne by exact N1.
    + now rewrite !list_lookup_alter_ne by assumption.
Qed.

Lemma disconnect_connect (new_pipe_id : string) (port : Ports.Port) :
  Ports.is_connected port = false -> Ports.connected_pipe port = None ->
  Ports.disconnect_from_pipe (Ports.connect_to_pipe new_pipe_id port) = port.
Proof. destruct port; cbn. now intros -> ->. Qed.

Lemma disconnect_free (port : Ports.Port) :
  Ports.is_connected port = false -> Ports.connected_pipe port = None ->
  Ports.disconnect_from_pipe port = port.
Proof. destruct port; cbn. now intros -> ->. Qed.

Lemma disconnect_both_connected (comps : list HydraulicObject)
    (pipe : OrthogonalPipes.OrthogonalPipe) (new_pipe_id : string)
    (sr er : Ports.PortRef) (start_port_obj end_port_obj : Ports.Port) :
  port_by_id comps (OrthogonalPipes.start_component pipe)
             (OrthogonalPipes.start_port pipe) = Some (sr, start_port_obj) ->
  port_by_id comps (OrthogonalPipes.end_component pipe)
             (OrthogonalPipes.end_port pipe) = Some (er, end_port_obj) ->
  Ports.can_connect_to sr start_port_obj er end_port_obj = true ->
  Ports.connected_pipe start_port_obj = None ->
  Ports.connected_pipe end_port_obj = None ->
  disconnect_both pipe
    (set_port er (Ports.connect_to_pipe new_pipe_id end_port_obj)
       (set_port sr (Ports.connect_to_pipe new_pipe_id start_port_obj) comps))
  = comps /\
  disconnect_both pipe comps = comps.
Proof.
  intros Es Ee Hcan Ns Ne.
  apply can_connect_to_true in Hcan as (Fs & Fe & Hne & Hc).
  assert (Hfree : disconnect_both pipe comps = comps).
  { unfold disconnect_both, disconnect_port. rewrite Es.
    rewrite (disconnect_free _ Fs Ns), (set_port_same _ _ _ _ _ Es), Ee.
    now rewrite (disconnect_free _ Fe Ne), (set_port_same _ _ _ _ _ Ee). }
  split; [|exact Hfree].
  pose proof (connected_ports comps _ _ _ _ new_pipe_id sr er _ _ Es Ee Hne) as Hports.
  unfold disconnect_both. unfold disconnect_port at 2.
  rewrite Hports, Es. cbn. rewrite decide_False by congruence. rewrite decide_True by reflexivity.
  rewrite (disconnect_connect _ _ Fs Ns).
  rewrite (set_port_commute _ sr er) by exact Hc.
  rewrite set_port_twice, (set_port_same _ _ _ _ _ Es).
  unfold disconnect_port.
  pose proof (port_by_id_some _ _ _ _ _ Ee) as (F & _ & eo & L & Q). rewrite <- F in L.
  rewrite (port_by_id_set_port comps er (Ports.connect_to_pipe new_pipe_id end_port_obj)
             end_port_obj eo _ _ L Q eq_refl), Ee. cbn.
  rewrite decide_True by reflexivity.
  rewrite (disconnect_connect _ _ Fe Ne), set_port_twice.
  exact (set_port_same _ _ _ _ _ Ee).
Qed.

(** X10. After any sequence of events, finishing a pipe between two free
    ports that hold no pipe and then removing the pipe just registered
    restores the components exactly as they were; the registry of pipes is
    as before (without an older pipe of the same identifier, if there was
    one); the counter stays incremented. *)
Theorem connect_then_remove_restores
    (comps : list HydraulicObject) (events : list Event)
    (builder : InteractivePipeBuilder)
    (end_component : nat) (end_component_id end_port_id : string)
    (sr er : Ports.PortRef) (start_port_obj end_port_obj : Ports.Port) :
  let self := run comps events in
  pipe_builder self = Some builder ->
  find_component_by_id self end_component_id = Some end_component ->
  port_by_id (components self) (builder_start_component builder)
             (builder_start_port builder) = Some (sr, start_port_obj) ->
  port_by_id (components self) end_component end_port_id = Some (er, end_port_obj) ->
  Ports.can_connect_to sr start_port_obj er end_port_obj = true ->
  Ports.connected_pipe start_port_obj = None ->
  Ports.connected_pipe end_port_obj = None ->
  let new_pipe_id := format_pipe_id (S (pipe_counter self)) in
  let self' := remove_pipe new_pipe_id
                 (finish_pipe_construction end_component_id end_port_id self) in
  components self' = components self /\
  pipes self' = delete new_pipe_id (pipes self) /\
  pipe_counter self' = S (pipe_counter self).
Proof.
  cbv zeta. intros B Fc Es Ee Hcan Ns Ne.
  destruct (run_ok comps events) as [Hb _].
  set (self := run comps events) in *.
  destruct (Hb _ B) as [Sc Sp].
  unfold finish_pipe_construction. rewrite B, Sc, Sp, Fc. cbv zeta.
  rewrite Es, Ee. cbn [can_connect_ports]. rewrite Hcan. cbn [negb].
  unfold remove_pipe.
  cbn [cleanup_pipe_construction pipes components pipe_counter pipe_builder
       start_component start_port_id connection_mode hovering_port].
  rewrite lookup_insert_eq.
  cbn [pipes components pipe_counter].
  destruct (finish_pipe_ends (components self) builder end_component end_port_id
              (format_pipe_id (S (pipe_counter self)))) as (F1 & F2 & F3 & F4).
  cbv zeta in F1, F2, F3, F4.
  set (pipe := OrthogonalPipes.set_pipe_id _ _) in *.
  rewrite <- F1, <- F2 in Es. rewrite <- F3, <- F4 in Ee.
  destruct (disconnect_both_connected (components self) pipe
              (format_pipe_id (S (pipe_counter self))) sr er _ _ Es Ee Hcan Ns Ne)
    as [H1 H2].
  unfold disconnect_both in H1, H2.
  split; [|split; [apply delete_insert_eq|reflexivity]].
  rewrite H1. exact H2.
Qed.

(** An instance of X10: the pipe between the ports [2] of two components
    is finished and removed at once. *)
Lemma connect_then_remove_restores_example :
  let comps := [ TransformController.placed_component "A" (QPoint 0 0);
                 TransformController.placed_component "B" (QPoint 10 5) ] in
  let self := run comps [ToggleMode None; PortClicked 0 "2"] in
  let self' := remove_pipe (format_pipe_id 1) (finish_pipe_construction "B" "2" self) in
  components self' = comps /\
  pipes self' = delete (format_pipe_id 1) (pipes self) /\
  pipe_counter self' = 1%nat.
Proof.
  exact (connect_then_remove_restores
           [ TransformController.placed_component "A" (QPoint 0 0);
             TransformController.placed_component "B" (QPoint 10 5) ]
           [ToggleMode None; PortClicked 0 "2"]
           {| builder_start_component := 0;
              builder_start_port := "2";
              builder_waypoints := [] |}
           1 "B" "2" (0%nat, 0%nat) (1%nat, 0%nat) _ _
           eq_refl eq_refl eq_refl eq_refl eq_refl eq_refl eq_refl).
Defined.

End RoundTrip.

Section PipeIdentifiers.
Import HydraulicObjects ConnectionController.

Lemma pipe_ids_ok_frame (self self' : ConnectionController) :
  pipes self' = pipes self -> pipe_counter self' = pipe_counter self ->
  pipe_ids_ok self -> pipe_ids_ok self'.
Proof. unfold pipe_ids_ok. intros -> ->. exact (fun H => H). Qed.

Lemma cancel_pipe_construction_ids (self : ConnectionController) :
  pipe_ids_ok self -> pipe_ids_ok (cancel_pipe_construction self).
Proof.
  destruct (cancel_pipe_construction_frame self) as (_ & EP & EN & _).
  now apply pipe_ids_ok_frame.
Qed.

Lemma start_pipe_construction_ids (component : nat) (port_id : string)
    (self : ConnectionController) :
  pipe_ids_ok self -> pipe_ids_ok (start_pipe_construction component port_id self).
Proof.
  intros H. apply cancel_pipe_construction_ids in H.
  eapply pipe_ids_ok_frame; [| |exact H]; reflexivity.
Qed.

Lemma add_waypoint_ids (position : QPointF) (self : ConnectionController) :
  pipe_ids_ok self -> pipe_ids_ok (add_waypoint position self).
Proof.
  intros H. unfold add_waypoint. destruct (pipe_builder self); [|exact H].
  eapply pipe_ids_ok_frame; [| |exact H]; reflexivity.
Qed.

Lemma toggle_mode_ids (active : option bool) (self : ConnectionController) :
  pipe_ids_ok self -> pipe_ids_ok (toggle_mode active self).
Proof.
  intros H. unfold toggle_mode. cbv zeta. case_bool_decide; [exact H|].
  destruct (match active with Some a => a | None => _ end).
  - eapply pipe_ids_ok_frame; [| |exact H]; reflexivity.
  - apply cancel_pipe_construction_ids.
    eapply pipe_ids_ok_frame; [| |exact H]; reflexivity.
Qed.

Lemma finish_pipe_construction_ids (end_component_id end_port_id : string)
    (self : ConnectionController) :
  pipe_ids_ok self ->
  pipe_ids_ok (finish_pipe_construction end_component_id end_port_id self).
Proof.
  intros H. unfold finish_pipe_construction.
  destruct (pipe_builder self) as [builder|]; [|exact H].
  destruct (start_component self) as [start_ref|]; [|exact H].
  destruct (start_port_id self) as [start_port_name|]; [|exact H].
  destruct (find_component_by_id self end_component_id) as [end_component|]; [|exact H].
  cbv zeta. destruct (negb _); [exact H|].
  destruct (port_by_id (components self) start_ref start_port_name) as [[sr spo]|];
    [|exact H].
  destruct (port_by_id (components self) end_component end_port_id) as [[er epo]|];
    [|exact H].
  intros pipe_id pipe. cbn [cleanup_pipe_construction pipes pipe_counter]. intros L.
  apply lookup_insert_Some in L as [[<- <-]|[_ L]].
  - split; [reflexivity|]. exists (S (pipe_counter self)). split; [lia|reflexivity].
  - destruct (H _ _ L) as [E (k & Hk & ->)]. split; [exact E|].
    exists k. split; [lia|reflexivity].
Qed.

Lemma remove_pipe_counter (pipe_id : string) (self : ConnectionController) :
  pipe_counter (remove_pipe pipe_id self) = pipe_counter self.
Proof. unfold remove_pipe. now destruct (pipes self !! pipe_id). Qed.

Lemma remove_pipe_ids (old_pipe_id : string) (self : ConnectionController) :
  pipe_ids_ok self -> pipe_ids_ok (remove_pipe old_pipe_id self).
Proof.
  intros H pipe_id pipe. rewrite remove_pipe_pipes, remove_pipe_counter. intros L.
  apply lookup_delete_Some in L as [_ L]. exact (H _ _ L).
Qed.

Lemma toggle_mode_pipes (active : option bool) (self : ConnectionController) :
  pipes (toggle_mode active self) = pipes self.
Proof.
  unfold toggle_mode. cbv zeta. case_bool_decide; [reflexivity|].
  destruct (match active with Some a => a | None => _ end); [reflexivity|].
  now destruct (cancel_pipe_construction_frame
                  {| components := components self;
                     connection_mode := false;
                     pipe_builder := pipe_builder self;
                     start_component := start_component self;
                     start_port_id := start_port_id self;
                     hovering_port := hovering_port self;
                     pipes := pipes self;
                     pipe_counter := pipe_counter self |}) as (_ & -> & _).
Qed.

Lemma clear_all_no_pipe (self : ConnectionController) : pipes (clear_all self) = ∅.
Proof.
  unfold clear_all. cbv zeta.
  set (cancelled := cancel_pipe_construction self).
  set (cleared := foldl _ cancelled _).
  assert (Hempty : pipes cleared = ∅).
  { apply map_eq. intros k. rewrite lookup_empty. apply remove_pipes_no_pipe.
    destruct (pipes cancelled !! k) as [v|] eqn:Hk; [left|now right].
    apply list_elem_of_fmap. exists (k, v). split; [reflexivity|].
    now apply elem_of_map_to_list. }
  cbn [connection_mode]. destruct (connection_mode cleared); [|exact Hempty].
  rewrite toggle_mode_pipes. exact Hempty.
Qed.

Lemma clear_all_ids (self : ConnectionController) : pipe_ids_ok (clear_all self).
Proof.
  intros pipe_id pipe. rewrite clear_all_no_pipe, lookup_empty. discriminate.
Qed.

Lemma handle_ids (self : ConnectionController) (event : Event) :
  pipe_ids_ok self -> pipe_ids_ok (handle self event).
Proof.
  intros H. destruct event; cbn [handle].
  - now apply toggle_mode_ids.
  - unfold on_port_clicked.
    destruct (negb (connection_mode self)); [exact H|].
    destruct (components self !! component) as [obj|]; [|exact H].
    destruct (get_port_by_id obj port_id) as [port|]; [|exact H].
    destruct (Ports.is_connected port); [exact H|].
    destruct (pipe_builder self); [|now apply start_pipe_construction_ids].
    destruct (start_component self); [|exact H].
    destruct (start_port_id self); [|exact H].
    destruct (_ && _);
      [now apply cancel_pipe_construction_ids|now apply finish_pipe_construction_ids].
  - unfold on_port_hovered.
    destruct (negb (connection_mode self)); [exact H|].
    destruct (components self !! component); [|exact H].
    eapply pipe_ids_ok_frame; [| |exact H]; reflexivity.
  - unfold handle_mouse_click.
    destruct (_ || _); [exact H|].
    destruct (pipe_builder self); [|exact H].
    destruct (hovering_port self) as [[cid pid]|];
      [now apply finish_pipe_construction_ids|now apply add_waypoint_ids].
  - now apply start_pipe_construction_ids.
  - now apply add_waypoint_ids.
  - now apply finish_pipe_construction_ids.
  - now apply cancel_pipe_construction_ids.
  - now apply remove_pipe_ids.
  - apply clear_all_ids.
Qed.

(** X11. After any sequence of events, every registered pipe carries the
    identifier under which it is registered, and this identifier is
    [pipe_] followed by a number between 1 and the counter of the
    controller, written with at least three digits. *)
Theorem registered_pipe_ids (comps : list HydraulicObject) (events : list Event)
    (pipe_id : string) (pipe : OrthogonalPipes.OrthogonalPipe) :
  let self := run comps events in
  pipes self !! pipe_id = Some pipe ->
  OrthogonalPipes.pipe_id pipe = pipe_id /\
  exists k, (1 <= k <= pipe_counter self)%nat /\ pipe_id = format_pipe_id k.
Proof.
  cbv zeta. revert pipe_id pipe. change (pipe_ids_ok (run comps events)).
  unfold run.
  assert (H : pipe_ids_ok (__init__ comps)).
  { intros pipe_id pipe L. cbn in L. now rewrite lookup_empty in L. }
  revert H. generalize (__init__ comps).
  induction events as [|event events IH]; intros self H; [exact H|].
  cbn [foldl]. apply IH. now apply handle_ids.
Qed.

(** An instance of X11: the pipe registered by the first connection. *)
Lemma registered_pipe_ids_example :
  let comps := [ TransformController.placed_component "A" (QPoint 0 0);
                 TransformController.placed_component "B" (QPoint 10 5) ] in
  let self := run comps [ToggleMode None; PortClicked 0 "2"; PortClicked 1 "2"] in
  exists pipe,
    pipes self !! "pipe_001" = Some pipe /\
    OrthogonalPipes.pipe_id pipe = "pipe_001" /\
    exists k, (1 <= k <= pipe_counter self)%nat /\ "pipe_001" = format_pipe_id k.
Proof.
  cbv zeta. eexists. split; [vm_compute; reflexivity|].
  apply (registered_pipe_ids
           [ TransformController.placed_component "A" (QPoint 0 0);
             TransformController.placed_component "B" (QPoint 10 5) ]
           [ToggleMode None; PortClicked 0 "2"; PortClicked 1 "2"] "pipe_001").
  vm_compute. reflexivity.
Defined.

End PipeIdentifiers.

(** *** Undoing a rotation *)

Section RotateBack.
Import Ports HydraulicObjects TransformController.



Lemma filter_hydraulic_objects_map (objs : list HydraulicObject) :
  _filter_hydraulic_objects (map Hydraulic objs) = objs.
Proof.
  induction objs as [|obj objs IH]; [reflexivity|].
  change (obj :: _filter_hydraulic_objects (map Hydraulic objs) = obj :: objs).
  now rewrite IH.
Qed.







End RotateBack.

(** *** The mirror about an axis *)

Section MirrorAboutAxis.
Import Ports HydraulicObjects TransformController GroupFlip.










End MirrorAboutAxis.

Section MirrorInstance.
Import Ports HydraulicObjects TransformController GroupFlip.


End MirrorInstance.

(** *** Aligning again *)

Section AlignAgain.
Import Ports HydraulicObjects TransformController.

Lemma align_objects_some (objects : list SceneItem) (alignment_type : string)
    (aligned : list HydraulicObject) :
  _align_objects objects alignment_type = Some aligned ->
  exists reference reference_line,
    (2 <= length (_filter_hydraulic_objects objects))%nat /\
    last (_filter_hydraulic_objects objects) = Some reference /\
    (alignment_type = "horizontal" /\ reference_line = py (scenePos reference) \/
     alignment_type = "vertical" /\ reference_line = px (scenePos reference)) /\
    aligned = map (fun obj => fst (_align_single_object reference_line alignment_type obj))
                  (_filter_hydraulic_objects objects).
Proof.
  unfold _align_objects.
  destruct (Nat.ltb_spec (length objects) 2); [discriminate|].
  destruct (Nat.ltb_spec (length (_filter_hydraulic_objects objects)) 2); [discriminate|].
  unfold _calculate_alignment_reference.
  destruct (last (_filter_hydraulic_objects objects)) as [reference|]; [|discriminate].
  destruct (String.eqb_spec alignment_type "horizontal") as [->|Hh].
  - intros [= <-]. exists reference, (py (scenePos reference)).
    split; [assumption|]. split; [reflexivity|].
    split; [left; split; reflexivity|reflexivity].
  - destruct (String.eqb_spec alignment_type "vertical") as [->|Hv]; [|discriminate].
    intros [= <-]. exists reference, (px (scenePos reference)).
    split; [assumption|]. split; [reflexivity|].
    split; [right; split; reflexivity|reflexivity].
Qed.

Lemma move_twice (position : QPointF) (obj : HydraulicObject) :
  scenePos obj = position ->
  ports_follow obj ->
  update_ports_positions position (HydraulicObjects.setPos position obj) = obj.
Proof.
  intros Hp Hf. unfold ports_follow, absolute_positions, relative_positions in Hf.
  destruct obj as [cid ty base cur ps created pos rot sc tr]. cbn in *. subst pos.
  unfold update_ports_positions, HydraulicObjects.setPos, set_ports. cbn. f_equal.
  rewrite map_map. rewrite <- (map_id ps) at 2.
  induction ps as [|port ps IH]; [reflexivity|].
  cbn [map] in Hf |- *. injection Hf as H1 H2. f_equal; [|now apply IH].
  destruct port; cbn in *. now rewrite <- H1.
Qed.

Lemma aligned_follow (reference_line : R) (alignment_type : string)
    (obj : HydraulicObject) :
  alignment_type = "horizontal" \/ alignment_type = "vertical" ->
  ports_follow (fst (_align_single_object reference_line alignment_type obj)).
Proof.
  intros [-> | ->]; unfold ports_follow.
  - rewrite align_single_object_horizontal. cbv zeta.
    now rewrite update_ports_positions_absolute, update_ports_positions_relative.
  - rewrite align_single_object_vertical. cbv zeta.
    now rewrite update_ports_positions_absolute, update_ports_positions_relative.
Qed.

(** X14. An alignment is idempotent: aligning again, in the same direction,
    the components that an alignment has just aligned leaves each of them
    exactly as it is. And a horizontal alignment followed by a vertical
    alignment of the same components puts every one of them at the scene
    position of the last selected component. *)
Theorem align_again (objects : list SceneItem) (alignment_type : string)
    (aligned : list HydraulicObject) :
  _align_objects objects alignment_type = Some aligned ->
  _align_objects (map Hydraulic aligned) alignment_type = Some aligned /\
  (alignment_type = "horizontal" ->
   exists reference stacked,
     last (_filter_hydraulic_objects objects) = Some reference /\
     align_objects_vertical (map Hydraulic aligned) = Some stacked /\
     length stacked = length aligned /\
     Forall (fun obj => scenePos obj = scenePos reference) stacked).
Proof.
  intros H. apply align_objects_some in H
    as (reference & line & Hlen & Hlast & Htype & ->).
  set (hs := _filter_hydraulic_objects objects) in *.
  set (f := fun obj => fst (_align_single_object line alignment_type obj)).
  assert (Hl : last (map f hs) = Some (f reference)) by now apply last_map.
  assert (Hlen' : (2 <= length (_filter_hydraulic_objects (map Hydraulic (map f hs))))%nat).
  { now rewrite filter_hydraulic_objects_map, length_map. }
  split.
  - rewrite (align_objects_on_reference _ alignment_type line Hlen').
    + rewrite filter_hydraulic_objects_map, map_map. f_equal.
      apply map_ext. intros obj. unfold f.
      destruct Htype as [[-> ->] | [-> ->]].
      * rewrite (align_single_object_horizontal _ (fst _)). cbv zeta.
        apply move_twice; [reflexivity|apply aligned_follow; auto].
      * rewrite (align_single_object_vertical _ (fst _)). cbv zeta.
        apply move_twice; [reflexivity|apply aligned_follow; auto].
    + rewrite filter_hydraulic_objects_map. unfold _calculate_alignment_reference.
      rewrite Hl. unfold f. destruct Htype as [[-> ->] | [-> ->]]; reflexivity.
  - intros ->. destruct Htype as [[_ ->] | [[=] _]].
    exists reference. eexists. split; [exact Hlast|]. split.
    + unfold align_objects_vertical.
      rewrite (align_objects_on_reference _ "vertical" (px (scenePos reference)) Hlen');
        [reflexivity|].
      rewrite filter_hydraulic_objects_map. unfold _calculate_alignment_reference.
      now rewrite Hl.
    + rewrite filter_hydraulic_objects_map. split; [now rewrite !length_map|].
      rewrite map_map. apply Forall_map, Forall_true. intros obj.
      transitivity (QPoint (px (scenePos reference)) (py (scenePos reference)));
        [reflexivity|apply QPoint_eta].
Qed.

(** An instance of X14: two components aligned horizontally. *)
Lemma align_again_example :
  let A := placed_component "A" (QPoint 0 0) in
  let B := placed_component "B" (QPoint 10 5) in
  let aligned := map (fun obj => fst (_align_single_object 5 "horizontal" obj)) [A; B] in
  _align_objects (map Hydraulic aligned) "horizontal" = Some aligned /\
  ("horizontal" = "horizontal" ->
   exists reference stacked,
     last [A; B] = Some reference /\
     align_objects_vertical (map Hydraulic aligned) = Some stacked /\
     length stacked = length aligned /\
     Forall (fun obj => scenePos obj = scenePos reference) stacked).
Proof.
  exact (align_again
           [ Hydraulic (placed_component "A" (QPoint 0 0));
             Hydraulic (placed_component "B" (QPoint 10 5)) ]
           "horizontal" _ eq_refl).
Defined.

End AlignAgain.

(** *** The history of the transformations *)

Section History.
Import TransformHistory.

Variable Parameters : Type.

Lemma record_call_history (self : History Parameters) (call : Call Parameters) :
  transformation_history (record_call self call)
  = (let history := transformation_history self ++ [record_of call] in
     if (max_history self <? length history)%nat then tail history else history) /\
  max_history (record_call self call) = max_history self.
Proof. destruct call as [[[now op] objs] params]. split; reflexivity. Qed.

Lemma tail_drop_snoc {A : Type} (k : nat) (l : list A) (a : A) :
  (k <= length l)%nat -> tail (drop k l ++ [a]) = drop (S k) (l ++ [a]).
Proof.
  intros Hk. rewrite <- (drop_app_le l [a] k) by exact Hk.
  generalize (l ++ [a]). clear. intros l. revert k.
  induction l as [|x l IH]; intros [|k]; try reflexivity.
  cbn [drop]. apply IH.
Qed.

Lemma recorded_history (calls : list (Call Parameters)) :
  let self := foldl record_call __init__ calls in
  transformation_history self = drop (length calls - 50) (map record_of calls) /\
  max_history self = 50%nat.
Proof.
  induction calls as [|call calls IH] using rev_ind; [split; reflexivity|].
  cbv zeta in *. rewrite foldl_app. cbn [foldl].
  destruct IH as [IH Hmax].
  destruct (record_call_history (foldl record_call __init__ calls) call) as [-> ->].
  split; [|exact Hmax]. cbv zeta. rewrite Hmax, IH, map_app. cbn [map].
  rewrite !length_app, length_drop, length_map. cbn [length].
  destruct (Nat.ltb_spec 50 (length calls - (length calls - 50) + 1)) as [H|H].
  - rewrite tail_drop_snoc by (rewrite length_map; lia).
    f_equal. lia.
  - replace (length calls + 1 - 50)%nat with 0%nat by lia.
    replace (length calls - 50)%nat with 0%nat by lia.
    reflexivity.
Qed.

(** X15. The history of a transform controller holds the records of the
    last 50 transformations recorded since its creation, in the order in
    which they were recorded (all of them when fewer than 50 were
    recorded): it never holds more than 50 records, and it is empty after
    [clear_history]. *)
Theorem transformation_history_bounded (calls : list (Call Parameters)) :
  let self := foldl record_call __init__ calls in
  get_transformation_history self = drop (length calls - 50) (map record_of calls) /\
  (length (get_transformation_history self) <= 50)%nat /\
  length (get_transformation_history self) = Nat.min (length calls) 50 /\
  get_transformation_history (clear_history self) = [].
Proof.
  cbv zeta. unfold get_transformation_history.
  destruct (recorded_history calls) as [-> _].
  rewrite length_drop, length_map. repeat split; lia.
Qed.

End History.

(** *** Refused transformations *)

Section Refused.
Import Ports HydraulicObjects TransformController.

(** X16. A rotation and a flip are refused (nothing is changed and the
    answer is [False]) exactly when the selection holds no hydraulic
    object; an alignment is refused exactly when the selection holds fewer
    than two hydraulic objects or the alignment type is neither horizontal
    nor vertical. *)
Theorem transformations_refused (objects : list SceneItem) :
  (forall angle_degrees,
     rotate_objects objects angle_degrees = None
     <-> _filter_hydraulic_objects objects = []) /\
  (forall flip_type,
     flip_objects flip_type objects = None <-> _filter_hydraulic_objects objects = []) /\
  (forall alignment_type,
     _align_objects objects alignment_type = None
     <-> (length (_filter_hydraulic_objects objects) < 2)%nat \/
         (alignment_type <> "horizontal" /\ alignment_type <> "vertical")).
Proof.
  split; [|split].
  - intros angle_degrees. unfold rotate_objects.
    destruct objects as [|item objects]; [now split|].
    destruct (_filter_hydraulic_objects (item :: objects)); split; try discriminate; auto.
  - intros flip_type. unfold flip_objects.
    destruct objects as [|item objects]; [now split|].
    destruct (_filter_hydraulic_objects (item :: objects)); split; try discriminate; auto.
  - intros alignment_type. unfold _align_objects.
    pose proof (filter_hydraulic_objects_length objects) as Hle.
    destruct (Nat.ltb_spec (length objects) 2) as [H1|H1].
    { split; [intros _; left; lia|reflexivity]. }
    destruct (Nat.ltb_spec (length (_filter_hydraulic_objects objects)) 2) as [H2|H2].
    { split; [intros _; left; lia|reflexivity]. }
    unfold _calculate_alignment_reference.
    destruct (last (_filter_hydraulic_objects objects)) as [reference|] eqn:Hlast.
    + destruct (String.eqb_spec alignment_type "horizontal") as [->|Hh].
      { split; [discriminate|]. intros [H|[H _]]; [lia|now destruct H]. }
      destruct (String.eqb_spec alignment_type "vertical") as [->|Hv].
      { split; [discriminate|]. intros [H|[_ H]]; [lia|now destruct H]. }
      split; [intros _; right; split; assumption|reflexivity].
    + apply last_None in Hlast. rewrite Hlast in H2. cbn in H2. lia.
Qed.

End Refused.

(** *** The scale of a port *)

Section PortScale.
Import Ports PortQueries.

Lemma port_update_scale_fields (scale : R) (port : Port) :
  let port' := Ports.update_scale scale port in
  Ports.port_id port' = Ports.port_id port /\
  port_type port' = port_type port /\
  is_connected port' = is_connected port /\
  initial_position port' = initial_position port /\
  Ports.current_scale port' = scale /\
  (effective_radius port = BASE_RADIUS * Ports.current_scale port ->
   effective_radius port' = BASE_RADIUS * scale).
Proof.
  unfold Ports.update_scale. destruct (Req_dec_T scale (Ports.current_scale port)) as [E|N].
  - rewrite E. repeat split; auto.
  - cbn. repeat split; auto.
Qed.

(** X17. A port created by [create_scaled_port] and rescaled any number of
    times has as current scale the last scale requested (the initial scale
    when it was never rescaled) and as effective radius the base radius 3
    times that scale; its identifier, its type and its initial position are
    those it was created with, and it is not connected. *)
Theorem port_scale_is_last_requested
    (port_id port_type : string) (position : QPointF) (initial_scale : R)
    (scales : list R) :
  let port := foldl (fun port scale => Ports.update_scale scale port)
                    (create_scaled_port port_id port_type position initial_scale)
                    scales in
  get_current_scale port = List.last scales initial_scale /\
  get_effective_radius port = 3 * List.last scales initial_scale /\
  Ports.port_id port = port_id /\
  Ports.port_type port = port_type /\
  initial_position port = position /\
  is_connected port = false.
Proof.
  cbv zeta. unfold get_current_scale, get_effective_radius.
  assert (H0 : let port := create_scaled_port port_id port_type position initial_scale in
               Ports.current_scale port = initial_scale /\
               effective_radius port = BASE_RADIUS * Ports.current_scale port /\
               Ports.port_id port = port_id /\ Ports.port_type port = port_type /\
               initial_position port = position /\ is_connected port = false).
  { cbv zeta. unfold create_scaled_port. destruct (Req_dec_T initial_scale 1) as [->|N].
    - cbn. unfold BASE_RADIUS. repeat split; lra.
    - destruct (port_update_scale_fields initial_scale
                  (Ports.__init__ port_id port_type position))
        as (-> & -> & -> & -> & E & F).
      rewrite E, F; [now repeat split|]. cbn. unfold BASE_RADIUS. lra. }
  cbv zeta in H0. revert H0.
  generalize (create_scaled_port port_id port_type position initial_scale).
  revert initial_scale.
  induction scales as [|scale scales IH]; intros initial_scale port H.
  - cbn. destruct H as (-> & -> & H). unfold BASE_RADIUS. split; [reflexivity|].
    split; [reflexivity|exact H].
  - cbn [foldl]. rewrite last_cons_last. apply IH.
    destruct H as (_ & Hr & Hi & Ht & Hp & Hc).
    destruct (port_update_scale_fields scale port) as (-> & -> & -> & -> & E & F).
    rewrite E. rewrite (F Hr). now repeat split.
Qed.

End PortScale.

(** *** The ports of an object *)

Section PortLists.
Import Ports HydraulicObjects PortQueries.

Lemma filter_partition {A : Type} (f : A -> bool) (l : list A) :
  Permutation (List.filter (fun a => negb (f a)) l ++ List.filter f l) l.
Proof.
  induction l as [|a l IH]; [constructor|].
  cbn [List.filter]. destruct (f a); cbn [negb app].
  - etransitivity; [symmetry; apply Permutation_middle|]. now constructor.
  - now constructor.
Qed.

(** X18. [get_port_by_id] finds no port exactly when no port of the object
    has the identifier, and otherwise returns the first port of the object
    that has it. The free ports and the connected ports of an object
    together are its ports: every port is in exactly one of the two lists,
    which keep the order of the ports. *)
Theorem port_queries (self : HydraulicObject) :
  (forall port_id,
     get_port_by_id self port_id = None
     <-> Forall (fun port => Ports.port_id port <> port_id) (ports self)) /\
  (forall port_id port,
     get_port_by_id self port_id = Some port ->
     exists i, ports self !! i = Some port /\ Ports.port_id port = port_id /\
               forall j other, (j < i)%nat -> ports self !! j = Some other ->
                               Ports.port_id other <> port_id) /\
  Permutation (get_available_ports self ++ get_connected_ports self) (ports self) /\
  (length (get_available_ports self) + length (get_connected_ports self)
   = length (ports self))%nat /\
  Forall (fun port => is_connected port = false) (get_available_ports self) /\
  Forall (fun port => is_connected port = true) (get_connected_ports self) /\
  sublist (get_available_ports self) (ports self) /\
  sublist (get_connected_ports self) (ports self).
Proof.
  split; [|split; [|split; [|split; [|split; [|split; [|split]]]]]].
  - intros port_id. unfold get_port_by_id, find_port.
    destruct (list_find _ (ports self)) as [[i port]|] eqn:E; cbn.
    + split; [discriminate|]. intros H. apply list_find_Some in E as (L & P & _).
      rewrite Forall_forall in H. destruct (H port); [|exact P].
      eapply list_elem_of_lookup_2. exact L.
    + split; [|reflexivity]. intros _. apply list_find_None in E.
      eapply Forall_impl; [exact E|]. auto.
  - intros port_id port. unfold get_port_by_id, find_port.
    destruct (list_find _ (ports self)) as [[i p]|] eqn:E; [|discriminate].
    cbn. intros [= ->]. apply list_find_Some in E as (L & P & B).
    exists i. split; [exact L|]. split; [exact P|]. intros j other Hj Lj. exact (B j other Lj Hj).
  - apply filter_partition.
  - rewrite <- length_app. apply Permutation_length, filter_partition.
  - unfold get_available_ports. apply Forall_forall. intros port Hin.
    apply list_elem_of_In, filter_In in Hin as [_ H]. now destruct (is_connected port).
  - unfold get_connected_ports. apply Forall_forall. intros port Hin.
    now apply list_elem_of_In, filter_In in Hin as [_ H].
  - unfold get_available_ports. generalize (ports self). intros l.
    induction l as [|a l IH]; [constructor|]. cbn [List.filter].
    destruct (negb _); now constructor.
  - unfold get_connected_ports. generalize (ports self). intros l.
    induction l as [|a l IH]; [constructor|]. cbn [List.filter].
    destruct (is_connected a); now constructor.
Qed.

End PortLists.

(** *** The hydraulic properties of an object *)

Section PropertyUpdates.
Import Properties.

Context {Value : Type} `{EqDecision Value}.
Variable py_none : Value.

Lemma dict_get_insert (d : gmap string Value) (key other : string)
    (value default_value : Value) :
  dict_get (<[key := value]> d) other default_value
  = if decide (key = other) then value else dict_get d other default_value.
Proof.
  unfold dict_get. destruct (decide (key = other)) as [->|N].
  - now rewrite lookup_insert_eq.
  - now rewrite lookup_insert_ne.
Qed.

Lemma update_loop (items : list (string * Value)) :
  forall properties changes : gmap string Value,
    NoDup items.*1 ->
    (forall key, key ∈ items.*1 -> changes !! key = None) ->
    let '(properties', changes') :=
      foldl (update_property py_none) (properties, changes) items in
    (forall key value, (key, value) ∈ items ->
                       dict_get properties' key py_none = value) /\
    (forall key, key ∉ items.*1 -> properties' !! key = properties !! key) /\
    (forall key value,
       changes' !! key = Some value
       <-> changes !! key = Some value \/
           ((key, value) ∈ items /\ dict_get properties key py_none <> value)).
Proof.
  induction items as [|[k0 v0] rest IH]; intros properties changes Hnd Hfresh.
  - cbn. split; [|split].
    + intros key value Hin. now apply elem_of_nil in Hin.
    + reflexivity.
    + intros key value. split; [now left|]. intros [H|[Hin _]]; [exact H|].
      now apply elem_of_nil in Hin.
  - cbn [fmap list_fmap fst] in Hnd, Hfresh. apply NoDup_cons in Hnd as [Hk0 Hnd].
    cbn [foldl]. unfold update_property at 2.
    assert (Hne : forall key value, (key, value) ∈ rest -> key <> k0).
    { intros key value Hin ->. apply Hk0. apply list_elem_of_fmap.
      exists (k0, value). split; [reflexivity|exact Hin]. }
    destruct (bool_decide (dict_get properties k0 py_none <> v0)) eqn:D.
    + apply bool_decide_eq_true in D.
      specialize (IH (<[k0 := v0]> properties) (<[k0 := v0]> changes) Hnd).
      destruct (foldl _ _ rest) as [properties' changes'].
      destruct IH as (I1 & I2 & I3).
      { intros key Hin. rewrite lookup_insert_ne.
        - apply Hfresh. now apply elem_of_cons; right.
        - intros <-. contradiction. }
      split; [|split].
      * intros key value Hin. apply elem_of_cons in Hin as [[= -> ->]|Hin].
        -- unfold dict_get. rewrite (I2 k0 Hk0). now rewrite lookup_insert_eq.
        -- exact (I1 key value Hin).
      * intros key Hout. rewrite fmap_cons, not_elem_of_cons in Hout.
        destruct Hout as [N Hout]. cbn [fst] in N.
        rewrite (I2 key Hout). now rewrite lookup_insert_ne.
      * intros key value. rewrite I3. split.
        -- intros [H|[Hin Hd]].
           ++ apply lookup_insert_Some in H as [[<- <-]|[N H]].
              ** right. split; [now apply elem_of_cons; left|exact D].
              ** now left.
           ++ right. split; [now apply elem_of_cons; right|].
              rewrite dict_get_insert in Hd. rewrite decide_False in Hd; [exact Hd|].
              intros <-. exact (Hne _ _ Hin eq_refl).
        -- intros [H|[Hin Hd]].
           ++ left. rewrite lookup_insert_ne; [exact H|]. intros <-.
              rewrite Hfresh in H; [discriminate|]. now apply elem_of_cons; left.
           ++ apply elem_of_cons in Hin as [[= -> ->]|Hin].
              ** left. now rewrite lookup_insert_eq.
              ** right. split; [exact Hin|]. rewrite dict_get_insert.
                 rewrite decide_False; [exact Hd|]. intros <-. exact (Hne _ _ Hin eq_refl).
    + apply bool_decide_eq_false in D.
      assert (D' : dict_get properties k0 py_none = v0).
      { destruct (decide (dict_get properties k0 py_none = v0)); [assumption|contradiction]. }
      specialize (IH properties changes Hnd).
      destruct (foldl _ _ rest) as [properties' changes'].
      destruct IH as (I1 & I2 & I3).
      { intros key Hin. apply Hfresh. now apply elem_of_cons; right. }
      split; [|split].
      * intros key value Hin. apply elem_of_cons in Hin as [[= -> ->]|Hin].
        -- unfold dict_get. rewrite (I2 k0 Hk0). exact D'.
        -- exact (I1 key value Hin).
      * intros key Hout. rewrite fmap_cons, not_elem_of_cons in Hout.
        destruct Hout as [N Hout]. cbn [fst] in N.
        exact (I2 key Hout).
      * intros key value. rewrite I3. split.
        -- intros [H|[Hin Hd]]; [now left|].
           right. split; [now apply elem_of_cons; right|exact Hd].
        -- intros [H|[Hin Hd]]; [now left|].
           apply elem_of_cons in Hin as [[= -> ->]|Hin]; [contradiction|].
           right. now split.
Qed.

(** X19. [update_properties] with a dictionary of new properties: afterwards
    [get_property] gives, for every key of the dictionary, the new value,
    and every other key is as before; the changes that are signalled are
    exactly the entries of the dictionary whose value differs from what
    [get_property] gave before, and they are signalled only for a created
    object and only when there is one. After [set_property] of a key,
    [get_property] of that key gives the value set, whatever the default. *)
Theorem update_properties_sets (is_created : bool) (new_properties : list (string * Value))
    (properties : gmap string Value) :
  NoDup new_properties.*1 ->
  let '(properties', signalled) :=
    update_properties py_none is_created new_properties properties in
  let changed key value :=
    (key, value) ∈ new_properties /\ get_property properties key py_none <> value in
  (forall key value, (key, value) ∈ new_properties ->
                     get_property properties' key py_none = value) /\
  (forall key, key ∉ new_properties.*1 -> properties' !! key = properties !! key) /\
  (forall changes, signalled = Some changes ->
     is_created = true /\ (exists key value, changed key value) /\
     forall key value, changes !! key = Some value <-> changed key value) /\
  (signalled = None ->
     is_created = false \/ forall key value, ~ changed key value) /\
  (forall key value default_value created,
     get_property (fst (set_property py_none created key value properties))
                  key default_value = value).
Proof.
  intros Hnd. unfold update_properties, get_property.
  pose proof (update_loop new_properties properties ∅ Hnd
                (fun key _ => lookup_empty key)) as H.
  destruct (foldl _ _ new_properties) as [properties' changes].
  destruct H as (H1 & H2 & H3).
  assert (H3' : forall key value,
             changes !! key = Some value
             <-> (key, value) ∈ new_properties /\ dict_get properties key py_none <> value).
  { intros key value. rewrite H3. rewrite lookup_empty. split; [|now right].
    intros [H|H]; [discriminate|exact H]. }
  assert (Hset : forall key value default_value created,
             dict_get (fst (set_property py_none created key value properties))
                      key default_value = value).
  { intros key value default_value created. unfold set_property. cbv zeta.
    destruct (_ && _); cbn [fst]; rewrite dict_get_insert; now rewrite decide_True. }
  destruct (bool_decide (changes = ∅)) eqn:E; cbn [negb andb].
  - apply bool_decide_eq_true in E. subst changes.
    split; [exact H1|]. split; [exact H2|]. split; [discriminate|]. split; [|exact Hset].
    intros _. right. intros key value Hc. apply H3' in Hc. now rewrite lookup_empty in Hc.
  - apply bool_decide_eq_false in E. destruct is_created.
    + split; [exact H1|]. split; [exact H2|]. split; [|split; [discriminate|exact Hset]].
      intros ? [= <-]. split; [reflexivity|]. split; [|exact H3'].
      destruct (map_choose changes E) as (key & value & Hkv).
      exists key, value. now apply H3'.
    + split; [exact H1|]. split; [exact H2|]. split; [discriminate|].
      split; [now left|exact Hset].
Qed.

End PropertyUpdates.

Section PropertyUpdatesInstance.
Import Properties.

(** An instance of X19: the diameter is changed and the status is set to
    the value it has; the values are optional numbers, [None] being
    Python's [None]. *)
Lemma update_properties_sets_example :
  let properties : gmap string (option nat) :=
    {[ "diameter" := Some 100%nat; "status" := Some 1%nat ]} in
  let new_properties := [ ("diameter", Some 150%nat); ("status", Some 1%nat) ] in
  let '(properties', signalled) :=
    update_properties None true new_properties properties in
  let changed key value :=
    (key, value) ∈ new_properties /\ get_property properties key None <> value in
  (forall key value, (key, value) ∈ new_properties ->
                     get_property properties' key None = value) /\
  (forall key, key ∉ new_properties.*1 -> properties' !! key = properties !! key) /\
  (forall changes, signalled = Some changes ->
     true = true /\ (exists key value, changed key value) /\
     forall key value, changes !! key = Some value <-> changed key value) /\
  (signalled = None -> true = false \/ forall key value, ~ changed key value) /\
  (forall key value default_value created,
     get_property (fst (set_property None created key value properties))
                  key default_value = value).
Proof.
  apply (update_properties_sets None true
           [ ("diameter", Some 150%nat); ("status", Some 1%nat) ]
           {[ "diameter" := Some 100%nat; "status" := Some 1%nat ]}).
  apply (bool_decide_unpack _). vm_compute. exact I.
Defined.

End PropertyUpdatesInstance.

(** *** Saving and restoring an object *)

Section SaveAndRestore.
Import Ports HydraulicObjects Serialization.

Variable types : gmap string ObjectConfig.
Variable global_scale : R.

Lemma port_rescaled_again (self self' : HydraulicObject) (cfgs : list PortConfig)
    (i : nat) (position : QPointF) (port : Port) :
  current_scale self' = current_scale self ->
  Ports.scene port = false ->
  update_port_scale self' cfgs i (Ports.setPos position (update_port_scale self cfgs i port))
  = Ports.setPos position (update_port_scale self cfgs i port).
Proof.
  intros Hs Hscene. unfold update_port_scale. rewrite Hs.
  destruct (cfgs !! i) as [c|]; [|reflexivity]. cbv zeta.
  change (Ports.scene (set_initial_position ?q port)) with (Ports.scene port).
  rewrite Hscene.
  set (q := QPoint (fst (cfg_position c) * current_scale self)
                   (snd (cfg_position c) * current_scale self)).
  assert (E : exists port1,
             Ports.update_scale (current_scale self) (set_initial_position q port) = port1 /\
             Ports.scene port1 = false /\ initial_position port1 = q /\
             Ports.current_scale port1 = current_scale self).
  { eexists. split; [reflexivity|]. unfold Ports.update_scale.
    destruct (Req_dec_T _ _) as [E|N]; cbn; auto. }
  destruct E as (port1 & -> & H1 & H2 & H3).
  change (Ports.scene (set_initial_position q (Ports.setPos position port1)))
    with (Ports.scene port1).
  rewrite H1. unfold Ports.update_scale.
  change (Ports.current_scale (set_initial_position q (Ports.setPos position port1)))
    with (Ports.current_scale port1).
  rewrite H3. destruct (Req_dec_T _ _) as [_|N]; [|now destruct N].
  destruct port1; cbn in *. now subst.
Qed.

Lemma created_ports_out_of_scene (type_name : string) :
  Forall (fun port => Ports.scene port = false) (create_ports types type_name).
Proof.
  unfold create_ports. apply Forall_map, Forall_true. reflexivity.
Qed.

Lemma update_ports_scale_again (obj : HydraulicObject) :
  (forall i port,
     ports obj !! i = Some port ->
     update_port_scale obj (get_port_configs types (object_type obj)) i port = port) ->
  update_ports_scale types obj = obj.
Proof.
  intros H. unfold update_ports_scale. cbv zeta.
  replace (imap _ (ports obj)) with (ports obj); [now destruct obj|].
  apply list_eq. intros i. rewrite list_lookup_imap.
  destruct (ports obj !! i) as [port|] eqn:L; [|reflexivity].
  cbn. now rewrite (H i port L).
Qed.

Lemma restored_scale (cid type_name : string) (position : QPointF)
    (saved_scale : R) (fresh : HydraulicObject) :
  HydraulicObjects.__init__ types global_scale cid type_name = Ok fresh ->
  HydraulicObjects.update_scale types global_scale None
    (set_current_scale saved_scale (HydraulicObjects.setPos position fresh))
  = HydraulicObjects.setPos position fresh.
Proof.
  unfold HydraulicObjects.__init__.
  destruct (types !! type_name) as [config|] eqn:Ht; [|discriminate].
  cbv zeta. intros [= <-].
  set (self0 := {| component_id := cid; object_type := type_name;
                   base_svg_scale := svg_scale config;
                   current_scale := svg_scale config * global_scale;
                   ports := create_ports types type_name;
                   is_created := false; scenePos := QPoint 0 0; rotation := 0;
                   scale := svg_scale config * global_scale; transform := (1, 1) |}).
  set (X := HydraulicObjects.setPos position _).
  unfold HydraulicObjects.update_scale. cbv zeta.
  change (base_svg_scale (set_current_scale saved_scale X)) with (svg_scale config).
  change (current_scale (set_current_scale saved_scale X)) with saved_scale.
  destruct (Req_dec_T (svg_scale config * global_scale) saved_scale) as [<-|N];
    [reflexivity|].
  change (update_ports_scale types X = X).
  apply update_ports_scale_again. intros i port L.
  change (ports X) with (map (fun port => Ports.setPos (padd position (initial_position port)) port)
                             (imap (update_port_scale self0 (get_port_configs types type_name))
                                   (create_ports types type_name))) in L.
  change (object_type X) with type_name.
  rewrite list_lookup_fmap, list_lookup_imap in L.
  destruct (create_ports types type_name !! i) as [port0|] eqn:L0; [|discriminate].
  cbn in L. injection L as <-.
  apply port_rescaled_again; [reflexivity|].
  pose proof (created_ports_out_of_scene type_name) as Hout.
  rewrite Forall_forall in Hout. apply Hout. eapply list_elem_of_lookup_2. exact L0.
Qed.


End SaveAndRestore.

Section SaveAndRestoreInstance.
Import Ports HydraulicObjects Serialization TransformController.


End SaveAndRestoreInstance.

(** *** Putting the ports back *)

Section ResetPorts.
Import Ports HydraulicObjects Serialization TransformController.

Variable types : gmap string ObjectConfig.

Lemma reset_ports_positions (self : HydraulicObject) :
  forall (port_list : list Port) (cfgs : list PortConfig),
    length port_list = length cfgs ->
    map initial_position (imap (reset_port self cfgs) port_list)
    = scaled_template (current_scale self) cfgs /\
    map Ports.scenePos (imap (reset_port self cfgs) port_list)
    = map (padd (scenePos self)) (scaled_template (current_scale self) cfgs).
Proof.
  induction port_list as [|port port_list IH]; intros [|c cfgs] Hlen;
    try discriminate; [now split|].
  injection Hlen as Hlen. destruct (IH cfgs Hlen) as [I1 I2].
  cbn [imap map scaled_template].
  rewrite (imap_ext _ (reset_port self cfgs) port_list) by reflexivity.
  rewrite I1, I2. now split.
Qed.

Lemma reset_ports_connections (self : HydraulicObject) (cfgs : list PortConfig) :
  forall (i : nat) (port : Port),
    let port' := reset_port self cfgs i port in
    Ports.port_id port' = Ports.port_id port /\
    is_connected port' = is_connected port /\
    connected_pipe port' = connected_pipe port.
Proof.
  intros i port. unfold reset_port. now destruct (cfgs !! i).
Qed.

(** X21. [reset_ports_to_config_positions] on an object built from its
    configuration puts every port at the position of the configuration
    times the current scale of the object, relative to the object and in
    the scene, wherever the ports were; so it undoes what a rotation of the
    ports by any angle did to the positions. The connections of the ports
    are kept. *)
Theorem reset_ports_to_template (config : ObjectConfig) (obj : HydraulicObject) :
  of_type types config obj ->
  let reset := reset_ports_to_config_positions types in
  ports_at_template (port_configs config) (reset obj) /\
  (forall angle_degrees,
     relative_positions (reset (_rotate_object_ports angle_degrees obj))
     = relative_positions (reset obj) /\
     absolute_positions (reset (_rotate_object_ports angle_degrees obj))
     = absolute_positions (reset obj)) /\
  map Ports.port_id (ports (reset obj)) = map Ports.port_id (ports obj) /\
  map is_connected (ports (reset obj)) = map is_connected (ports obj) /\
  map connected_pipe (ports (reset obj)) = map connected_pipe (ports obj) /\
  scenePos (reset obj) = scenePos obj /\
  current_scale (reset obj) = current_scale obj.
Proof.
  intros (Ht & Hb & Hl). cbv zeta.
  assert (Hpos : forall o, object_type o = object_type obj ->
                           length (ports o) = length (ports obj) ->
                           relative_positions (reset_ports_to_config_positions types o)
                           = scaled_template (current_scale o) (port_configs config) /\
                           absolute_positions (reset_ports_to_config_positions types o)
                           = map (padd (scenePos o))
                                 (scaled_template (current_scale o) (port_configs config))).
  { intros o Ho Hlo. unfold relative_positions, absolute_positions,
      reset_ports_to_config_positions, get_port_configs.
    rewrite Ho, Ht. cbn [ports set_ports]. apply reset_ports_positions. congruence. }
  destruct (Hpos obj eq_refl eq_refl) as [R A].
  split; [|split; [|split; [|split; [|split; [|split]]]]].
  - split.
    + unfold relative_at_template. exact R.
    + unfold ports_follow. rewrite R, A. reflexivity.
  - intros angle_degrees.
    destruct (Hpos (_rotate_object_ports angle_degrees obj) eq_refl) as [R' A'].
    { cbn. apply length_map. }
    rewrite R, A, R', A'. now split.
  - unfold reset_ports_to_config_positions. cbn [ports set_ports].
    apply list_eq. intros i. rewrite !list_lookup_fmap, list_lookup_imap.
    destruct (ports obj !! i) as [port|]; [|reflexivity]. cbn.
    now destruct (reset_ports_connections obj (get_port_configs types (object_type obj)) i port)
      as (-> & _).
  - unfold reset_ports_to_config_positions. cbn [ports set_ports].
    apply list_eq. intros i. rewrite !list_lookup_fmap, list_lookup_imap.
    destruct (ports obj !! i) as [port|]; [|reflexivity]. cbn.
    now destruct (reset_ports_connections obj (get_port_configs types (object_type obj)) i port)
      as (_ & -> & _).
  - unfold reset_ports_to_config_positions. cbn [ports set_ports].
    apply list_eq. intros i. rewrite !list_lookup_fmap, list_lookup_imap.
    destruct (ports obj !! i) as [port|]; [|reflexivity]. cbn.
    now destruct (reset_ports_connections obj (get_port_configs types (object_type obj)) i port)
      as (_ & _ & ->).
  - reflexivity.
  - reflexivity.
Qed.

End ResetPorts.

Section ResetPortsInstance.
Import Ports HydraulicObjects Serialization TransformController.

(** An instance of X21: a valve of the scene, with one port. *)
Lemma reset_ports_to_template_example :
  let obj := placed_component "valve_001" (QPoint 100 100) in
  let cfgs := [ {| cfg_id := "2"; cfg_type := "output"; cfg_position := (15, 2) |} ] in
  let reset := reset_ports_to_config_positions valve_types in
  ports_at_template cfgs (reset obj) /\
  (forall angle_degrees,
     relative_positions (reset (_rotate_object_ports angle_degrees obj))
     = relative_positions (reset obj) /\
     absolute_positions (reset (_rotate_object_ports angle_degrees obj))
     = absolute_positions (reset obj)) /\
  map Ports.port_id (ports (reset obj)) = map Ports.port_id (ports obj) /\
  map is_connected (ports (reset obj)) = map is_connected (ports obj) /\
  map connected_pipe (ports (reset obj)) = map connected_pipe (ports obj) /\
  scenePos (reset obj) = scenePos obj /\
  current_scale (reset obj) = current_scale obj.
Proof.
  intros obj cfgs.
  apply (reset_ports_to_template valve_types
           {| svg_scale := 2; port_configs := cfgs |} obj).
  split; [reflexivity|]. split; reflexivity.
Defined.

End ResetPortsInstance.

(** *** The ports of a drawing *)

Section ParsedPorts.
Import SVGPortParser SVGValidation.

Variable py_float : string -> option R.

Lemma determine_port_type_kind (circle_id : string) (circle : Element) :
  _determine_port_type circle_id circle ∈ port_kinds.
Proof.
  unfold _determine_port_type. cbv zeta.
  destruct (bool_decide _) eqn:D; [now apply bool_decide_eq_true in D|].
  destruct (List.find _ port_kinds) as [kind|] eqn:F.
  { apply find_some in F as [Hin _]. now apply list_elem_of_In. }
  destruct (List.find _ port_type_mapping) as [[keyword kind]|] eqn:M.
  { apply find_some in M as [Hin _]. unfold port_type_mapping in Hin.
    cbn [In] in Hin.
    repeat (destruct Hin as [[= _ <-]|Hin];
            [apply (bool_decide_unpack _); vm_compute; exact I|]).
    destruct Hin. }
  destruct (search_digits circle_id); [destruct (_ =? _)%N|];
    apply (bool_decide_unpack _); vm_compute; exact I.
Qed.

(** What makes a port of a circle. *)
Lemma analyze_circle_as_port_info (circle : Element)
    (viewbox : R * R * R * R) (target_size : R * R) (info : PortInfo) :
  _analyze_circle_as_port py_float circle viewbox target_size = Ok (Some info) ->
  _is_port_id (svg_element_id info) = true /\
  info_type info ∈ port_kinds /\
  info_id info = _clean_port_id (svg_element_id info).
Proof.
  unfold _analyze_circle_as_port. cbv zeta.
  destruct (_is_port_id (get circle "id" "")) eqn:Hid; cbn [negb]; [|discriminate].
  destruct (_extract_circle_position py_float circle); [|discriminate].
  destruct (_convert_svg_to_qt_coordinates _ _ _); cbn [bind_result]; [|discriminate].
  intros [= <-]. cbn. split; [exact Hid|]. split; [apply determine_port_type_kind|reflexivity].
Qed.

Lemma collect_ports_info (viewbox : R * R * R * R) (target_size : R * R)
    (good : PortInfo -> Prop) :
  (forall circle info,
     _analyze_circle_as_port py_float circle viewbox target_size = Ok (Some info) ->
     good info) ->
  forall circles ports collected,
    Forall good ports ->
    collect_ports py_float circles viewbox target_size ports = Ok collected ->
    Forall good collected.
Proof.
  intros Hgood. induction circles as [|circle circles IH]; intros ports collected Hp.
  - cbn. now intros [= <-].
  - cbn [collect_ports].
    destruct (_analyze_circle_as_port py_float circle viewbox target_size)
      as [[info|]|e] eqn:E; cbn [bind_result]; [| |discriminate].
    + apply IH. apply Forall_app. split; [exact Hp|]. constructor; [|constructor].
      exact (Hgood _ _ E).
    + now apply IH.
Qed.

Lemma collect_ports_all (vb_x vb_y vb_width vb_height : R) (target_size : R * R) :
  vb_width <> 0 -> vb_height <> 0 ->
  forall circles ports,
  exists collected,
    collect_ports py_float circles (vb_x, vb_y, vb_width, vb_height) target_size ports
    = Ok (ports ++ collected) /\
    map svg_element_id collected
    = map (fun circle => get circle "id" "") (List.filter (makes_a_port py_float) circles).
Proof.
  intros Hw Hh. induction circles as [|circle circles IH]; intros ports.
  - exists []. split; [cbn; now rewrite app_nil_r|reflexivity].
  - cbn [collect_ports List.filter]. unfold makes_a_port at 1.
    destruct (_is_port_id (get circle "id" "")) eqn:Hid.
    + destruct (_extract_circle_position py_float circle) as [svg_position|] eqn:Hpos.
      * destruct (analyze_circle_as_port_ok py_float circle vb_x vb_y vb_width vb_height
                    target_size svg_position Hid Hpos Hw Hh) as (info & -> & Hinfo).
        cbn [bind_result andb]. destruct (IH (ports ++ [info])) as (collected & -> & Hc).
        exists (info :: collected). split.
        -- now rewrite <- app_assoc.
        -- cbn [map]. now rewrite Hinfo, Hc.
      * unfold _analyze_circle_as_port. rewrite Hid, Hpos. cbn [negb bind_result andb].
        apply IH.
    + unfold _analyze_circle_as_port. rewrite Hid. cbn [negb bind_result andb].
      apply IH.
Qed.

Lemma analyze_circle_as_port_zero_viewbox (circle : Element)
    (vb_x vb_y vb_width vb_height : R) (target_size : R * R) (info : PortInfo) :
  vb_width = 0 \/ vb_height = 0 ->
  _analyze_circle_as_port py_float circle (vb_x, vb_y, vb_width, vb_height) target_size
  <> Ok (Some info).
Proof.
  intros Hz. unfold _analyze_circle_as_port. cbv zeta.
  destruct (negb _); [discriminate|].
  destruct (_extract_circle_position py_float circle) as [[svg_x svg_y]|]; [|discriminate].
  destruct target_size as [target_width target_height].
  unfold _convert_svg_to_qt_coordinates.
  destruct (Req_dec_T vb_width 0) as [->|Hw].
  - rewrite py_div_by_zero. discriminate.
  - destruct Hz as [Hz | ->]; [contradiction|].
    rewrite (py_div_ok _ _ Hw). cbn [bind_result]. rewrite py_div_by_zero. discriminate.
Qed.

Lemma parse_svg_ports_zero_viewbox (root : Element)
    (vb_x vb_y vb_width vb_height : R) (target_size : R * R) :
  vb_width = 0 \/ vb_height = 0 ->
  parse_svg_ports py_float root (vb_x, vb_y, vb_width, vb_height) target_size = [].
Proof.
  intros Hz. unfold parse_svg_ports.
  destruct (collect_ports _ _ _ _ _) as [collected|e] eqn:E; [|reflexivity].
  apply (collect_ports_info _ _ (fun _ => False)) in E; [|
    intros circle info H;
    exact (analyze_circle_as_port_zero_viewbox _ _ _ _ _ _ _ Hz H) | constructor].
  destruct collected as [|p c]; [reflexivity|]. apply Forall_cons in E. now destruct E.
Qed.

(** X22. The ports that [parse_svg_ports] returns. When the viewBox has a
    width and a height, they are the circles of the drawing whose
    identifier is that of a port and whose centre is read, each once:
    the other circles are skipped. When the width or the height of the
    viewBox is zero the result is empty, whatever the drawing. Every port
    returned has an identifier that [_is_port_id] accepts, one of the three
    kinds, and as clean identifier [_clean_port_id] of the identifier of
    its circle. *)
Theorem parse_svg_ports_contents (root : Element)
    (vb_x vb_y vb_width vb_height : R) (target_size : R * R) :
  let ports :=
    parse_svg_ports py_float root (vb_x, vb_y, vb_width, vb_height) target_size in
  (vb_width <> 0 -> vb_height <> 0 ->
   Permutation (map svg_element_id ports)
               (map (fun circle => get circle "id" "")
                    (List.filter (makes_a_port py_float) (_find_all_circles root)))) /\
  (vb_width = 0 \/ vb_height = 0 -> ports = []) /\
  (forall port, port ∈ ports ->
     _is_port_id (svg_element_id port) = true /\
     info_type port ∈ port_kinds /\
     info_id port = _clean_port_id (svg_element_id port)).
Proof.
  cbv zeta. split; [|split].
  - intros Hw Hh. unfold parse_svg_ports.
    destruct (collect_ports_all vb_x vb_y vb_width vb_height target_size Hw Hh
                (_find_all_circles root) []) as (collected & -> & <-).
    cbn [app]. apply Permutation_map. symmetry. apply sort_by_key_perm.
  - apply parse_svg_ports_zero_viewbox.
  - intros port Hin. unfold parse_svg_ports in Hin.
    destruct (collect_ports _ _ _ _ _) as [collected|e] eqn:E;
      [|now apply elem_of_nil in Hin].
    apply (collect_ports_info _ _
             (fun port => _is_port_id (svg_element_id port) = true /\
                          info_type port ∈ port_kinds /\
                          info_id port = _clean_port_id (svg_element_id port))) in E.
    + rewrite Forall_forall in E. apply E.
      apply list_elem_of_In. apply list_elem_of_In in Hin.
      eapply Permutation_in; [symmetry; apply sort_by_key_perm|exact Hin].
    + intros circle info. apply analyze_circle_as_port_info.
    + constructor.
Qed.

End ParsedPorts.

(** *** The validation of a drawing *)

Section Validation.
Import SVGPortParser SVGValidation.

Variable py_float : string -> option R.

Lemma size_list_to_set_le (l : list string) :
  (size (list_to_set l : gset string) <= length l)%nat.
Proof.
  induction l as [|a l IH]; [now rewrite list_to_set_nil, size_empty|].
  rewrite list_to_set_cons. cbn [length].
  rewrite size_union_alt, size_singleton.
  pose proof (subseteq_size (list_to_set l ∖ {[a]}) (list_to_set l : gset string)) as H.
  assert (Hs : (list_to_set l ∖ {[a]} : gset string) ⊆ list_to_set l).
  { intros x Hx. now apply elem_of_difference in Hx as [Hx _]. }
  specialize (H Hs). lia.
Qed.

Lemma size_list_to_set_NoDup (l : list string) :
  length l = size (list_to_set l : gset string) <-> NoDup l.
Proof.
  split; [|intros H; symmetry; now apply size_list_to_set].
  induction l as [|a l IH]; [constructor|].
  intros H. rewrite list_to_set_cons in H. cbn [length] in H.
  destruct (decide (a ∈ l)) as [Hin|Hout].
  - exfalso. pose proof (size_list_to_set_le l) as Hle.
    replace ({[a]} ∪ list_to_set l : gset string) with (list_to_set l : gset string) in H.
    + lia.
    + apply set_eq. intros x. rewrite elem_of_union, elem_of_singleton, elem_of_list_to_set.
      split; [auto|]. intros [->|Hx]; assumption.
  - constructor; [exact Hout|]. apply IH.
    rewrite size_union in H.
    + rewrite size_singleton in H. lia.
    + apply disjoint_singleton_l. now rewrite elem_of_list_to_set.
Qed.

Lemma check_positions (ports : list PortInfo) :
  forall warnings,
    foldl check_position warnings ports
    = warnings ++ flat_map (check_position []) ports.
Proof.
  induction ports as [|port ports IH]; intros warnings; cbn [foldl flat_map].
  - now rewrite app_nil_r.
  - rewrite IH, app_assoc. f_equal. unfold check_position.
    destruct (info_position port) as [x y].
    destruct (Rlt_dec x 0); [reflexivity|].
    destruct (Rlt_dec y 0); [reflexivity|]. now rewrite app_nil_r.
Qed.

Lemma check_position_none (port : PortInfo) :
  check_position [] port = []
  <-> 0 <= fst (info_position port) /\ 0 <= snd (info_position port).
Proof.
  unfold check_position. destruct (info_position port) as [x y]. cbn [fst snd].
  destruct (Rlt_dec x 0) as [Hx|Hx]; [|destruct (Rlt_dec y 0) as [Hy|Hy]].
  - split; [discriminate|]. intros [H _]. lra.
  - split; [discriminate|]. intros [_ H]. lra.
  - split; [|reflexivity]. intros _. lra.
Qed.

Lemma flat_map_nil {A B : Type} (f : A -> list B) (l : list A) :
  flat_map f l = [] <-> forall a, a ∈ l -> f a = [].
Proof.
  induction l as [|a l IH]; cbn [flat_map].
  - split; [|reflexivity]. intros _ a Hin. now apply elem_of_nil in Hin.
  - split.
    + intros H. apply app_eq_nil in H as [Ha Hl]. intros b Hin.
      apply elem_of_cons in Hin as [->|Hin]; [exact Ha|]. now apply IH.
    + intros H. rewrite (H a) by (now apply elem_of_cons; left).
      apply IH. intros b Hin. apply H. now apply elem_of_cons; right.
Qed.

Lemma no_port_of_kinds (kind other : string) (ports : list PortInfo) :
  bool_decide (kind ∉ map info_type ports) && bool_decide (other ∉ map info_type ports)
  = false
  <-> exists port, port ∈ ports /\ (info_type port = kind \/ info_type port = other).
Proof.
  rewrite andb_false_iff, !bool_decide_eq_false. split.
  - intros [H|H]; apply dec_stable in H; apply list_elem_of_fmap in H as (port & -> & Hin);
      exists port; auto.
  - intros (port & Hin & [<-|<-]); [left|right]; intros H; apply H;
      apply list_elem_of_fmap; eauto.
Qed.

(** X23. [validate_svg_ports] accepts a drawing exactly when it has no
    warning, and that is exactly when the parsed ports are not empty, there
    is an input or bidirectional port and an output or bidirectional port,
    no two ports have the same clean identifier, and no coordinate of a
    port is negative. A drawing without parsed port, and so every drawing
    whose viewBox has a zero width or height, is refused with the single
    warning that no port was detected. *)
Theorem validate_svg_ports_valid (root : Element)
    (vb_x vb_y vb_width vb_height : R) (target_size : R * R) :
  let viewbox := (vb_x, vb_y, vb_width, vb_height) in
  let ports := parse_svg_ports py_float root viewbox target_size in
  let '(is_valid, warnings) := validate_svg_ports py_float root viewbox target_size in
  (is_valid = true <-> warnings = []) /\
  (is_valid = true <->
     ports <> [] /\
     (exists port, port ∈ ports /\
                   (info_type port = "input" \/ info_type port = "bidirectional")) /\
     (exists port, port ∈ ports /\
                   (info_type port = "output" \/ info_type port = "bidirectional")) /\
     NoDup (map info_id ports) /\
     (forall port, port ∈ ports ->
                   0 <= fst (info_position port) /\ 0 <= snd (info_position port))) /\
  (ports = [] -> is_valid = false /\ warnings = [NoPortDetected]) /\
  (vb_width = 0 \/ vb_height = 0 -> is_valid = false /\ warnings = [NoPortDetected]).
Proof.
  cbv zeta. unfold validate_svg_ports. cbv zeta.
  pose proof (parse_svg_ports_zero_viewbox py_float root vb_x vb_y vb_width vb_height
                target_size) as Hzero.
  destruct (parse_svg_ports py_float root (vb_x, vb_y, vb_width, vb_height) target_size)
    as [|port0 rest] eqn:Hports.
  { cbn [app]. split; [split; discriminate|]. split; [|now split].
    split; [discriminate|]. now intros [H _]. }
  set (ports := port0 :: rest) in *.
  rewrite check_positions.
  set (no_input := bool_decide ("input" ∉ map info_type ports) &&
                   bool_decide ("bidirectional" ∉ map info_type ports)).
  set (no_output := bool_decide ("output" ∉ map info_type ports) &&
                    bool_decide ("bidirectional" ∉ map info_type ports)).
  set (duplicated := bool_decide (length (map info_id ports)
                                  <> size (list_to_set (map info_id ports) : gset string))).
  set (warnings := (_ ++ flat_map (check_position []) ports)).
  assert (Hw : warnings = []
               <-> no_input = false /\ no_output = false /\ duplicated = false /\
                   flat_map (check_position []) ports = []).
  { subst warnings. destruct no_input, no_output, duplicated; cbn [app];
      (split; [first [discriminate | intros H; now repeat split]
              | first [now intros (? & ? & ? & ?)]]). }
  assert (Hv : bool_decide (length warnings = 0%nat) = true <-> warnings = []).
  { rewrite bool_decide_eq_true. apply length_zero_iff_nil. }
  split; [exact Hv|]. split; [|split].
  - rewrite Hv, Hw. subst no_input no_output duplicated.
    rewrite !no_port_of_kinds, bool_decide_eq_false, flat_map_nil.
    split.
    + intros (Hi & Ho & Hd & Hp). split; [discriminate|]. split; [exact Hi|].
      split; [exact Ho|]. split.
      * apply size_list_to_set_NoDup. now apply dec_stable.
      * intros port Hin. apply check_position_none. now apply Hp.
    + intros (_ & Hi & Ho & Hd & Hp). split; [exact Hi|]. split; [exact Ho|]. split.
      * intros H. apply H. now apply size_list_to_set_NoDup.
      * intros port Hin. apply check_position_none. now apply Hp.
  - discriminate.
  - intros Hz. now specialize (Hzero Hz).
Qed.

End Validation.

(** *** The identifiers of the objects *)

Section ObjectIdentifiers.
Import ComponentController.

Lemma pretty_N_char_digit (x : N) : is_digit (pretty_N_char x) = true.
Proof.
  unfold pretty_N_char. destruct x as [|p]; [reflexivity|].
  repeat (first [reflexivity | destruct p as [p|p|]]).
Qed.

Lemma pretty_N_go_digits (x : N) :
  forall s, all_chars is_digit (pretty_N_go x s) = all_chars is_digit s.
Proof.
  induction (N.lt_wf_0 x) as [x _ IH]. intros s.
  destruct (decide (x = 0%N)) as [->|Hx]; [now rewrite pretty_N_go_0|].
  rewrite pretty_N_go_step by lia. rewrite IH by (apply N.div_lt; lia).
  cbn [all_chars]. now rewrite pretty_N_char_digit.
Qed.

Lemma pretty_N_go_leading (x : N) :
  forall s, (0 < x)%N ->
    exists c rest, pretty_N_go x s = String c rest /\ c <> "0"%char.
Proof.
  induction (N.lt_wf_0 x) as [x _ IH]. intros s Hx.
  rewrite pretty_N_go_step by exact Hx.
  destruct (decide (x `div` 10 = 0)%N) as [Hd|Hd].
  - rewrite Hd, pretty_N_go_0. eexists _, _. split; [reflexivity|].
    assert (Hlt : (x < 10)%N) by (apply N.div_small_iff in Hd; lia).
    rewrite N.mod_small by exact Hlt.
    assert (x = 1 \/ x = 2 \/ x = 3 \/ x = 4 \/ x = 5 \/ x = 6
            \/ x = 7 \/ x = 8 \/ x = 9)%N as Hc by lia.
    repeat (destruct Hc as [->|Hc]; [discriminate|]). now subst.
  - apply IH; [apply N.div_lt; lia|]. now apply N.neq_0_lt_0.
Qed.

Lemma pretty_nat_digits (n : nat) : all_chars is_digit (pretty n) = true.
Proof.
  unfold pretty, pretty_nat, pretty, pretty_N.
  destruct (decide _); [reflexivity|]. now rewrite pretty_N_go_digits.
Qed.

Lemma pretty_nat_leading_zero (n : nat) (rest : string) :
  pretty n = String "0" rest -> n = 0%nat.
Proof.
  unfold pretty, pretty_nat, pretty, pretty_N.
  destruct (decide (N.of_nat n = 0%N)) as [Hz|Hz]; [lia|].
  destruct (pretty_N_go_leading (N.of_nat n) "" ltac:(lia)) as (c & r & -> & Hc).
  now intros [= -> _].
Qed.

Lemma pretty_nat_zero : pretty 0%nat = "0".
Proof. reflexivity. Qed.

Lemma format_counter_digits (counter : nat) :
  all_chars is_digit (format_counter counter) = true.
Proof.
  unfold format_counter. cbv zeta. pose proof (pretty_nat_digits counter) as H.
  destruct (String.length (pretty counter)) as [|[|[|k]]]; cbn; exact H.
Qed.

Lemma format_counter_inj (a b : nat) : format_counter a = format_counter b -> a = b.
Proof.
  unfold format_counter. cbv zeta.
  assert (Hz : forall (n : nat) rest, pretty n = String "0" rest -> pretty n = "0").
  { intros n rest H. now rewrite (pretty_nat_leading_zero n rest H). }
  destruct (pretty a) as [|a1 [|a2 [|a3 ar]]] eqn:Ea;
    destruct (pretty b) as [|b1 [|b2 [|b3 br]]] eqn:Eb; cbn;
    intros [= ]; subst;
    try (apply (inj pretty); congruence);
    try (specialize (Hz _ _ Ea); congruence);
    try (specialize (Hz _ _ Eb); congruence).
Qed.

Lemma all_chars_app (p : ascii -> bool) (s t : string) :
  all_chars p (String.append s t) = all_chars p s && all_chars p t.
Proof.
  induction s as [|c s IH]; [reflexivity|].
  change (p c && all_chars p (String.append s t) = p c && all_chars p s && all_chars p t).
  now rewrite IH, andb_assoc.
Qed.

Lemma append_underscore_inj (s1 s2 d1 d2 : string) :
  all_chars is_digit d1 = true -> all_chars is_digit d2 = true ->
  String.append s1 (String "_" d1) = String.append s2 (String "_" d2) ->
  s1 = s2 /\ d1 = d2.
Proof.
  intros H1 H2. revert s2. induction s1 as [|c s1 IH]; intros [|c2 s2];
    change (String.append "" ?t) with t;
    change (String.append (String ?c ?s) ?t) with (String c (String.append s t)).
  - now intros [= ->].
  - intros [= <- ->]. rewrite all_chars_app in H1. cbn [all_chars] in H1.
    change (is_digit "_") with false in H1. cbn [andb] in H1.
    now rewrite andb_false_r in H1.
  - intros [= -> <-]. rewrite all_chars_app in H2. cbn [all_chars] in H2.
    change (is_digit "_") with false in H2. cbn [andb] in H2.
    now rewrite andb_false_r in H2.
  - intros [= -> H]. destruct (IH _ H) as [-> ->]. now split.
Qed.

Lemma object_id_inj (prefix1 prefix2 : string) (a b : nat) :
  String.append prefix1 (String.append "_" (format_counter a))
  = String.append prefix2 (String.append "_" (format_counter b)) ->
  prefix1 = prefix2 /\ a = b.
Proof.
  intros H. change (String.append "_" ?t) with (String "_" t) in H.
  apply append_underscore_inj in H as [-> H];
    [|apply format_counter_digits..].
  split; [reflexivity|]. now apply format_counter_inj.
Qed.

Lemma generate_object_id_counter (object_type : string) (self : ComponentController) :
  let counter := S (default 0%nat (type_counters self !! object_type)) in
  fst (generate_object_id object_type self)
  = String.append (lower object_type) (String.append "_" (format_counter counter)) /\
  type_counters (snd (generate_object_id object_type self))
  = <[object_type := counter]> (type_counters self) /\
  objects (snd (generate_object_id object_type self)) = objects self /\
  objects_by_type (snd (generate_object_id object_type self)) = objects_by_type self /\
  next_position (snd (generate_object_id object_type self)) = next_position self /\
  position_offset (snd (generate_object_id object_type self)) = position_offset self /\
  max_objects_per_row (snd (generate_object_id object_type self))
  = max_objects_per_row self /\
  current_row_count (snd (generate_object_id object_type self)) = current_row_count self.
Proof.
  unfold generate_object_id. cbv zeta. cbn [fst snd type_counters objects objects_by_type
    next_position position_offset max_objects_per_row current_row_count].
  destruct (type_counters self !! object_type) as [c|] eqn:E; cbn [default].
  - rewrite !lookup_total_insert_eq. rewrite (lookup_total_correct _ _ _ E).
    now repeat split.
  - rewrite !lookup_total_insert_eq. rewrite insert_insert_eq. now repeat split.
Qed.

Lemma generate_object_ids_nth (object_types : list string) :
  forall (self : ComponentController) (i : nat) (object_type : string),
    object_types !! i = Some object_type ->
    fst (generate_object_ids object_types self) !! i
    = Some (String.append (lower object_type)
              (String.append "_"
                 (format_counter
                    (default 0%nat (type_counters self !! object_type)
                     + length (filter (fun t => t = object_type)
                                      (take (S i) object_types)))))).
Proof.
  induction object_types as [|t0 rest IH]; intros self i object_type Hi; [discriminate|].
  cbn [generate_object_ids].
  destruct (generate_object_id_counter t0 self) as (Hid & Hc & _).
  destruct (generate_object_id t0 self) as [id0 self1]. cbn [fst snd] in Hid, Hc.
  specialize (IH self1).
  destruct (generate_object_ids rest self1) as [ids self2]. cbn [fst] in IH |- *.
  destruct i as [|i].
  - injection Hi as ->. cbn [lookup list_lookup]. rewrite Hid.
    change (take 1 (object_type :: rest)) with [object_type].
    rewrite filter_cons_True by reflexivity. rewrite filter_nil. cbn [length].
    now rewrite Nat.add_1_r.
  - cbn [lookup list_lookup] in Hi |- *. change (ids !! i = Some ?x) with (ids !! i = Some x).
    rewrite (IH i object_type Hi). rewrite Hc. do 4 f_equal.
    change (take (S (S i)) (t0 :: rest)) with (t0 :: take (S i) rest).
    destruct (decide (t0 = object_type)) as [->|N].
    + rewrite lookup_insert_eq, filter_cons_True by reflexivity. cbn [default length].
      unfold Datatypes.id. lia.
    + rewrite lookup_insert_ne, filter_cons_False by exact N. reflexivity.
Qed.

Lemma filter_take_lt {A : Type} (P : A -> Prop) `{forall x, Decision (P x)}
    (l : list A) (i j : nat) (a : A) :
  (i < j)%nat -> l !! j = Some a -> P a ->
  (length (filter P (take (S i) l)) < length (filter P (take (S j) l)))%nat.
Proof.
  intros Hij Hj Pa.
  rewrite <- (take_drop (S i) (take (S j) l)).
  rewrite take_take, Nat.min_l by lia. rewrite filter_app, length_app.
  assert (Hin : a ∈ filter P (drop (S i) (take (S j) l))).
  { apply list_elem_of_filter. split; [exact Pa|].
    apply (list_elem_of_lookup_2 _ (j - S i)).
    rewrite lookup_drop, lookup_take_lt by lia.
    now replace (S i + (j - S i))%nat with j by lia. }
  destruct (filter P (drop (S i) (take (S j) l))); [now apply elem_of_nil in Hin|].
  cbn [length]. lia.
Qed.

(** X24. The identifiers of [generate_object_id]. The identifier returned
    for a type is the type in lower case, an underscore and the number of the
    call for this type, counted from the counter of the type, written with
    at least three digits. Two calls never return the same identifier,
    unless they are for two types that differ only by the case of their
    letters. *)
Theorem generated_object_ids (object_types : list string) (self : ComponentController) :
  let object_ids := fst (generate_object_ids object_types self) in
  length object_ids = length object_types /\
  (forall i object_type,
     object_types !! i = Some object_type ->
     object_ids !! i
     = Some (String.append (lower object_type)
               (String.append "_"
                  (format_counter
                     (default 0%nat (type_counters self !! object_type)
                      + length (filter (fun t => t = object_type)
                                       (take (S i) object_types))))))) /\
  (forall i j type_i type_j object_id,
     i <> j ->
     object_types !! i = Some type_i -> object_types !! j = Some type_j ->
     object_ids !! i = Some object_id -> object_ids !! j = Some object_id ->
     type_i <> type_j /\ lower type_i = lower type_j).
Proof.
  cbv zeta. split; [|split].
  - revert self. induction object_types as [|t0 rest IH]; intros self; [reflexivity|].
    cbn [generate_object_ids]. destruct (generate_object_id t0 self) as [id0 self1].
    specialize (IH self1). destruct (generate_object_ids rest self1) as [ids self2].
    cbn [fst length] in *. now rewrite IH.
  - intros i object_type. apply generate_object_ids_nth.
  - intros i j type_i type_j object_id Hij Hi Hj Ii Ij.
    rewrite (generate_object_ids_nth _ self i type_i Hi) in Ii.
    rewrite (generate_object_ids_nth _ self j type_j Hj) in Ij.
    rewrite <- Ij in Ii. injection Ii as Heq.
    apply object_id_inj in Heq as [Hl Hc]. split; [|exact Hl].
    intros <-.
    destruct (Nat.lt_total i j) as [Hlt|[Heq|Hlt]]; [|contradiction|].
    + pose proof (filter_take_lt (fun t => t = type_i) object_types i j type_i Hlt Hj
                    eq_refl). lia.
    + pose proof (filter_take_lt (fun t => t = type_i) object_types j i type_i Hlt Hi
                    eq_refl). lia.
Qed.

End ObjectIdentifiers.

(** *** The objects of the controller *)

Section ObjectCollection.
Import Ports HydraulicObjects Serialization ComponentController.

Lemma dict_lookup_set_eq {V : Type} (key : string) (value : V) (d : list (string * V)) :
  dict_lookup key (dict_set key value d) = Some value.
Proof.
  induction d as [|[k v] d IH]; cbn.
  - now rewrite decide_True.
  - destruct (decide (k = key)) as [->|N]; cbn.
    + now rewrite decide_True.
    + now rewrite decide_False.
Qed.

Lemma dict_lookup_set_ne {V : Type} (key other : string) (value : V)
    (d : list (string * V)) :
  other <> key -> dict_lookup other (dict_set key value d) = dict_lookup other d.
Proof.
  intros N. induction d as [|[k v] d IH]; cbn.
  - now rewrite decide_False by congruence.
  - destruct (decide (k = key)) as [->|N']; cbn.
    + now rewrite !decide_False by congruence.
    + destruct (decide (k = other)); [reflexivity|exact IH].
Qed.

Lemma dict_lookup_del_eq {V : Type} (key : string) (d : list (string * V)) :
  dict_lookup key (dict_del key d) = None.
Proof.
  induction d as [|[k v] d IH]; cbn; [reflexivity|].
  destruct (decide (k = key)) as [->|N]; cbn; [exact IH|].
  now rewrite decide_False.
Qed.

Lemma dict_lookup_del_ne {V : Type} (key other : string) (d : list (string * V)) :
  other <> key -> dict_lookup other (dict_del key d) = dict_lookup other d.
Proof.
  intros N. induction d as [|[k v] d IH]; cbn; [reflexivity|].
  destruct (decide (k = key)) as [->|N']; cbn.
  - now rewrite decide_False by congruence.
  - destruct (decide (k = other)); [reflexivity|exact IH].
Qed.

Lemma dict_del_keys {V : Type} (key : string) (d : list (string * V)) :
  map fst (dict_del key d) = filter (fun k => k <> key) (map fst d).
Proof.
  induction d as [|[k v] d IH]; cbn [dict_del map fst]; [reflexivity|].
  destruct (decide (k = key)) as [->|N].
  - rewrite filter_cons_False by (intros H; now apply H). exact IH.
  - rewrite filter_cons_True by exact N. cbn [map fst]. now rewrite IH.
Qed.

Lemma dict_lookup_none_keys {V : Type} (key : string) (d : list (string * V)) :
  dict_lookup key d = None <-> key ∉ map fst d.
Proof.
  induction d as [|[k v] d IH]; cbn [dict_lookup map fst].
  - split; [intros _ H; now apply elem_of_nil in H|reflexivity].
  - rewrite not_elem_of_cons. destruct (decide (k = key)) as [->|N].
    + split; [discriminate|]. now intros [H _].
    + rewrite IH. split; [intros H; split; [congruence|exact H]|now intros [_ H]].
Qed.

Lemma dict_set_keys_present {V : Type} (key : string) (value : V)
    (d : list (string * V)) :
  key ∈ map fst d -> map fst (dict_set key value d) = map fst d.
Proof.
  induction d as [|[k v] d IH]; cbn [dict_set map fst].
  - intros H. now apply elem_of_nil in H.
  - intros H. destruct (decide (k = key)) as [->|N]; [reflexivity|].
    cbn [map fst]. f_equal. apply IH. apply elem_of_cons in H as [H|H]; [congruence|exact H].
Qed.

Lemma dict_set_keys_absent {V : Type} (key : string) (value : V)
    (d : list (string * V)) :
  key ∉ map fst d -> map fst (dict_set key value d) = map fst d ++ [key].
Proof.
  induction d as [|[k v] d IH]; cbn [dict_set map fst]; [reflexivity|].
  intros H. apply not_elem_of_cons in H as [N H].
  rewrite decide_False by congruence. cbn [map fst app]. f_equal. now apply IH.
Qed.

Lemma register_object_objects (hydraulic_obj : HydraulicObject) (object_type : string)
    (self : ComponentController) :
  let self' := register_object hydraulic_obj object_type self in
  objects self' = dict_set (component_id hydraulic_obj) hydraulic_obj (objects self) /\
  (exists object_ids,
     dict_lookup object_type (objects_by_type self')
     = Some (object_ids ++ [component_id hydraulic_obj])) /\
  type_counters self' = type_counters self /\
  next_position self' = next_position self /\
  position_offset self' = position_offset self /\
  max_objects_per_row self' = max_objects_per_row self /\
  current_row_count self' = current_row_count self.
Proof.
  cbv zeta. unfold register_object. cbv zeta.
  cbn [objects objects_by_type type_counters next_position position_offset
       max_objects_per_row current_row_count].
  split; [reflexivity|]. split; [|now repeat split].
  eexists. apply dict_lookup_set_eq.
Qed.

Section WithConfiguration.

Variable types : gmap string ObjectConfig.
Variable global_scale : R.

Lemma add_object_identity (object_id object_type : string) (position : QPointF)
    (placed : HydraulicObject) :
  HydraulicObjects.add_object types global_scale object_id object_type position
  = Ok placed ->
  component_id placed = object_id /\ HydraulicObjects.object_type placed = object_type /\
  is_connected <$> ports placed = (fun _ => false) <$> ports placed.
Proof.
  unfold HydraulicObjects.add_object, HydraulicObjects.__init__.
  destruct (types !! object_type) as [config|]; [|discriminate].
  cbn [bind_result]. intros [= <-]. split; [reflexivity|]. split; [reflexivity|].
  cbn. rewrite <- !list_fmap_compose. unfold create_ports.
  apply list_eq. intros i. rewrite !list_lookup_fmap, list_lookup_imap.
  rewrite list_lookup_fmap.
  destruct (get_port_configs types object_type !! i) as [c|]; [|reflexivity].
  cbn. f_equal. unfold update_port_scale. cbn.
  destruct (_ !! i); [|reflexivity]. cbn.
  unfold Ports.update_scale. now destruct (Req_dec_T _ _).
Qed.

(** X25. [add_object] of a known type returns the identifier that
    [generate_object_id] makes for the type. Afterwards [get_object] finds
    under this identifier an object of this identifier and type, placed
    where asked, or at the next position of the controller when no
    position is given, with its ports in the scene at the positions of the
    configuration and not connected; the object is among those that
    [get_objects_by_type] returns for its type, and what [get_object]
    returns for the other identifiers has not changed. For an unknown type
    [add_object] returns [None] and changes nothing. *)
Theorem add_object_registers (object_type : string) (config : ObjectConfig)
    (position : option QPointF) (self : ComponentController) :
  types !! object_type = Some config ->
  let added := add_object types global_scale object_type position self in
  let object_id :=
    String.append (lower object_type)
      (String.append "_"
         (format_counter (S (default 0%nat (type_counters self !! object_type))))) in
  let place := default (next_position self) position in
  fst added = Some object_id /\
  (exists obj,
     get_object object_id (snd added) = Some obj /\
     component_id obj = object_id /\
     HydraulicObjects.object_type obj = object_type /\
     scenePos obj = place /\
     ports_in_scene obj /\
     ports_at_template (port_configs config) obj /\
     Forall (fun port => is_connected port = false) (ports obj) /\
     obj ∈ get_objects_by_type object_type (snd added)) /\
  (forall other, other <> object_id ->
                 get_object other (snd added) = get_object other self) /\
  (forall unknown, types !! unknown = None ->
                   add_object types global_scale unknown position self = (None, self)).
Proof.
  intros Ht. cbv zeta.
  assert (Hunknown : forall unknown, types !! unknown = None ->
            add_object types global_scale unknown position self = (None, self)).
  { intros unknown Hu. unfold add_object. now rewrite Hu. }
  unfold add_object. rewrite Ht.
  destruct (generate_object_id_counter object_type self)
    as (Hid & _ & Ho & _ & Hn & _).
  destruct (generate_object_id object_type self) as [object_id self1].
  cbn [fst snd] in Hid, Ho, Hn. rewrite <- Hid.
  assert (Hplace : exists self2,
             match position with
             | Some position => (position, self1)
             | None => calculate_next_position self1
             end = (default (next_position self) position, self2) /\
             objects self2 = objects self).
  { destruct position as [p|]; cbn [default].
    - now exists self1.
    - unfold calculate_next_position. rewrite Hn.
      destruct (_ <=? _)%nat; eexists; split; try reflexivity; exact Ho. }
  destruct Hplace as (self2 & -> & Ho2).
  destruct (add_object_placed types global_scale config object_id object_type
              (default (next_position self) position) Ht)
    as (placed & Hadd & _ & Hscene & Htemplate & Hpos & _).
  destruct (add_object_identity _ _ _ _ Hadd) as (Hcid & Hty & Hfree).
  rewrite Hadd. cbn [fst snd].
  destruct (register_object_objects placed object_type self2)
    as (Hobjs & (object_ids & Hby) & _). rewrite Hcid in Hobjs, Hby.
  split; [reflexivity|]. split; [|split; [|exact Hunknown]].
  - exists placed. unfold get_object, get_objects_by_type. rewrite Hobjs, Hby.
    rewrite dict_lookup_set_eq.
    split; [reflexivity|]. split; [exact Hcid|]. split; [exact Hty|].
    split; [exact Hpos|]. split; [exact Hscene|]. split; [exact Htemplate|]. split.
    + apply Forall_forall. intros port Hin.
      apply list_elem_of_lookup_1 in Hin as [i Hi].
      apply (f_equal (fun l => l !! i)) in Hfree. rewrite !list_lookup_fmap, Hi in Hfree.
      now injection Hfree.
    + cbn [default]. apply list_elem_of_omap. exists object_id.
      split; [|apply dict_lookup_set_eq]. apply elem_of_app. right.
      now apply list_elem_of_singleton.
  - intros other N. unfold get_object. rewrite Hobjs, Ho2.
    now apply dict_lookup_set_ne.
Qed.

End WithConfiguration.

Lemma remove_from_types_length (object_id : string) (by_type : list (string * list string)) :
  map fst (remove_from_types object_id by_type) = map fst by_type.
Proof.
  induction by_type as [|[t ids] rest IH]; cbn [remove_from_types]; [reflexivity|].
  destruct (bool_decide _); cbn [map fst]; [reflexivity|]. now rewrite IH.
Qed.

Lemma filter_out_shorter (key : string) (keys : list string) :
  key ∈ keys -> (length (filter (fun k => k <> key) keys) < length keys)%nat.
Proof.
  induction keys as [|k keys IH]; intros Hin; [now apply elem_of_nil in Hin|].
  destruct (decide (k = key)) as [->|N].
  - rewrite filter_cons_False by (intros H; now apply H).
    pose proof (length_filter (fun k => k <> key) keys). cbn [length]. lia.
  - rewrite filter_cons_True by exact N. cbn [length].
    apply elem_of_cons in Hin as [Hin|Hin]; [congruence|]. specialize (IH Hin). lia.
Qed.

(** X26. [remove_object] of an identifier that [get_object] does not find
    returns [False] and changes nothing. Otherwise it returns [True];
    afterwards [get_object] does not find the identifier, the other objects
    are as before and in the same order, and the counters of the types are
    not changed, so the identifier is not made again by
    [generate_object_id]. *)
Theorem remove_object_removes (object_id : string) (self : ComponentController) :
  let removed := remove_object object_id self in
  match get_object object_id self with
  | None => removed = (false, self)
  | Some obj =>
      fst removed = true /\
      get_object object_id (snd removed) = None /\
      (forall other, other <> object_id ->
                     get_object other (snd removed) = get_object other self) /\
      map fst (objects (snd removed))
      = filter (fun k => k <> object_id) (map fst (objects self)) /\
      (length (get_all_objects (snd removed)) < length (get_all_objects self))%nat /\
      type_counters (snd removed) = type_counters self /\
      next_position (snd removed) = next_position self /\
      current_row_count (snd removed) = current_row_count self
  end.
Proof.
  cbv zeta. unfold get_object, remove_object.
  destruct (dict_lookup object_id (objects self)) as [obj|] eqn:E; [|reflexivity].
  cbn [fst snd objects type_counters next_position current_row_count].
  split; [reflexivity|]. split; [apply dict_lookup_del_eq|].
  split; [intros other N; now apply dict_lookup_del_ne|].
  split; [apply dict_del_keys|]. split; [|now repeat split].
  unfold get_all_objects. cbn [objects]. rewrite !length_map.
  rewrite <- (length_map fst (dict_del _ _)), <- (length_map fst (objects self)).
  rewrite dict_del_keys.
  assert (Hin : object_id ∈ map fst (objects self)).
  { destruct (decide (object_id ∈ map fst (objects self))) as [H|H]; [exact H|].
    apply dict_lookup_none_keys in H. congruence. }
  now apply filter_out_shorter.
Qed.

End ObjectCollection.

Section ObjectCollectionInstance.
Import Ports HydraulicObjects Serialization ComponentController.

(** An instance of X25: the first valve of a new controller, placed by the
    controller. *)
Lemma add_object_registers_example :
  let config := {| svg_scale := 2;
                   port_configs := [ {| cfg_id := "2"; cfg_type := "output";
                                        cfg_position := (15, 2) |} ] |} in
  let added := add_object valve_types 1 "VALVE" None __init__ in
  fst added = Some "valve_001" /\
  (exists obj,
     get_object "valve_001" (snd added) = Some obj /\
     component_id obj = "valve_001" /\
     HydraulicObjects.object_type obj = "VALVE" /\
     scenePos obj = QPoint 100 100 /\
     ports_in_scene obj /\
     ports_at_template (port_configs config) obj /\
     Forall (fun port => is_connected port = false) (ports obj) /\
     obj ∈ get_objects_by_type "VALVE" (snd added)) /\
  (forall other, other <> "valve_001" ->
                 get_object other (snd added) = get_object other __init__) /\
  (forall unknown, valve_types !! unknown = None ->
                   add_object valve_types 1 unknown None __init__ = (None, __init__)).
Proof.
  intros config.
  exact (add_object_registers valve_types 1 "VALVE" config None __init__ eq_refl).
Defined.

End ObjectCollectionInstance.

(** *** The automatic layout *)

Section AutomaticLayout.
Import Ports HydraulicObjects Serialization ComponentController.

Variable types : gmap string ObjectConfig.
Variable global_scale : R.

(** The controller is about to give the place [k] of the layout. *)
Lemma calculate_next_position_grid (k : nat) (self : ComponentController) :
  next_position self = grid k -> current_row_count self = (k mod 6)%nat ->
  position_offset self = QPoint 150 120 -> max_objects_per_row self = 6%nat ->
  let self' := snd (calculate_next_position self) in
  fst (calculate_next_position self) = grid k /\
  next_position self' = grid (S k) /\ current_row_count self' = (S k mod 6)%nat /\
  position_offset self' = QPoint 150 120 /\ max_objects_per_row self' = 6%nat /\
  objects self' = objects self /\ type_counters self' = type_counters self.
Proof.
  intros Hn Hr Ho Hm. cbv zeta. unfold calculate_next_position. cbv zeta.
  rewrite Hm, Hr, Hn, Ho.
  pose proof (Nat.mod_upper_bound k 6 ltac:(lia)) as Hlt.
  pose proof (Nat.div_mod_eq k 6) as Hk.
  pose proof (Nat.div_mod_eq (S k) 6) as HSk.
  pose proof (Nat.mod_upper_bound (S k) 6 ltac:(lia)) as HSlt.
  destruct (6 <=? S (k mod 6))%nat eqn:E;
    cbn [fst snd next_position current_row_count position_offset max_objects_per_row
         objects type_counters].
  - apply Nat.leb_le in E.
    assert (Hmod : (S k mod 6 = 0)%nat) by lia.
    assert (Hdiv : (S k / 6 = S (k / 6))%nat) by lia.
    split; [reflexivity|]. split; [|now rewrite Hmod].
    unfold grid, padd. cbn [px py]. rewrite Hmod, Hdiv, S_INR. cbn [INR]. f_equal; lra.
  - apply Nat.leb_gt in E.
    assert (Hmod : (S k mod 6 = S (k mod 6))%nat) by lia.
    assert (Hdiv : (S k / 6 = k / 6)%nat) by lia.
    split; [reflexivity|]. split; [|now rewrite Hmod].
    unfold grid, padd. cbn [px py]. rewrite Hmod, Hdiv, S_INR. f_equal; lra.
Qed.

Lemma add_object_layout (object_type : string) (position : option QPointF)
    (self : ComponentController) :
  let self' := snd (add_object types global_scale object_type position self) in
  let moved := if placed_automatically types (object_type, position)
               then snd (calculate_next_position self) else self in
  next_position self' = next_position moved /\
  current_row_count self' = current_row_count moved /\
  position_offset self' = position_offset moved /\
  max_objects_per_row self' = max_objects_per_row moved.
Proof.
  cbv zeta. unfold add_object, placed_automatically. cbn [fst snd].
  destruct (types !! object_type) as [config|] eqn:Ht.
  2:{ rewrite bool_decide_eq_false_2 by (intros [? ?]; discriminate). now cbn. }
  rewrite bool_decide_eq_true_2 by eauto. cbn [andb].
  destruct (generate_object_id_counter object_type self)
    as (_ & _ & _ & _ & Hn & Ho & Hm & Hr).
  destruct (generate_object_id object_type self) as [object_id self1].
  cbn [fst snd] in Hn, Ho, Hm, Hr.
  assert (Hsame : forall p self2,
            next_position self2 = next_position self ->
            current_row_count self2 = current_row_count self ->
            position_offset self2 = position_offset self ->
            max_objects_per_row self2 = max_objects_per_row self ->
            let self' := snd (match HydraulicObjects.add_object types global_scale
                                      object_id object_type p with
                              | Ok hydraulic_obj =>
                                  (Some object_id,
                                   register_object hydraulic_obj object_type self2)
                              | Raise _ => (None, self2)
                              end) in
            next_position self' = next_position self /\
            current_row_count self' = current_row_count self /\
            position_offset self' = position_offset self /\
            max_objects_per_row self' = max_objects_per_row self).
  { intros p self2 H1 H2 H3 H4. cbv zeta.
    destruct (HydraulicObjects.add_object _ _ _ _ _); cbn [snd]; [|now repeat split].
    destruct (register_object_objects a object_type self2)
      as (_ & _ & _ & -> & -> & -> & ->). now repeat split. }
  destruct position as [p|].
  - now apply Hsame.
  - unfold calculate_next_position. rewrite Hn, Ho, Hm, Hr.
    destruct (_ <=? _)%nat; cbn [fst snd next_position current_row_count position_offset
                                   max_objects_per_row];
      match goal with
      | |- context [HydraulicObjects.add_object _ _ _ _ ?p] =>
          match goal with
          | |- context [register_object _ _ ?s] =>
              destruct (HydraulicObjects.add_object types global_scale
                          object_id object_type p); cbn [snd];
              [destruct (register_object_objects a object_type s)
                 as (_ & _ & _ & -> & -> & -> & ->)|]; now repeat split
          end
      end.
Qed.

(** X27. The automatic layout. After any requests to [add_object] on a new
    controller, the position that the controller gives next is the place
    [k] of a grid of six objects a row, 150 apart, in rows 120 apart,
    starting at (100, 100), where [k] is the number of requests so far that
    were for a known type and gave no position: the requests with a
    position and those for an unknown type do not use a place. *)
Theorem automatic_positions_grid (requests : list (string * option QPointF)) :
  let self :=
    foldl (fun self request =>
             snd (add_object types global_scale (fst request) (snd request) self))
          __init__ requests in
  let k := length (List.filter (placed_automatically types) requests) in
  next_position self = grid k /\
  fst (calculate_next_position self) = grid k /\
  current_row_count self = (k mod 6)%nat.
Proof.
  cbv zeta.
  assert (H : let self :=
                foldl (fun self request =>
                         snd (add_object types global_scale (fst request) (snd request)
                                self)) __init__ requests in
              let k := length (List.filter (placed_automatically types) requests) in
              next_position self = grid k /\ current_row_count self = (k mod 6)%nat /\
              position_offset self = QPoint 150 120 /\ max_objects_per_row self = 6%nat).
  { induction requests as [|[object_type position] requests IH] using rev_ind.
    - cbn. unfold grid. cbn. repeat split. f_equal; lra.
    - cbv zeta in IH |- *. rewrite foldl_app, List.filter_app, length_app.
      cbn [foldl List.filter fst snd].
      destruct IH as (Hn & Hr & Ho & Hm).
      destruct (add_object_layout object_type position
                  (foldl (fun self request =>
                            snd (add_object types global_scale (fst request)
                                   (snd request) self)) __init__ requests))
        as (-> & -> & -> & ->).
      destruct (placed_automatically types (object_type, position)); cbn [length].
      + rewrite Nat.add_1_r.
        destruct (calculate_next_position_grid _ _ Hn Hr Ho Hm)
          as (_ & H1 & H2 & H3 & H4 & _). auto.
      + rewrite Nat.add_0_r. auto. }
  cbv zeta in H. destruct H as (Hn & Hr & Ho & Hm).
  split; [exact Hn|]. split; [|exact Hr].
  now destruct (calculate_next_position_grid _ _ Hn Hr Ho Hm) as (H & _).
Qed.

End AutomaticLayout.

(** *** Clearing, saving and restoring the objects *)

Section ExportImport.
Import Ports HydraulicObjects Serialization ComponentController.

Lemma dict_del_missing {V : Type} (key : string) (d : list (string * V)) :
  dict_lookup key d = None -> dict_del key d = d.
Proof.
  induction d as [|[k v] d IH]; cbn; [reflexivity|].
  destruct (decide (k = key)); [discriminate|]. intros H. now rewrite IH.
Qed.

Lemma filter_all {A : Type} (P : A -> Prop) `{forall x, Decision (P x)} (l : list A) :
  (forall x, x ∈ l -> P x) -> filter P l = l.
Proof.
  induction l as [|a l IH]; intros Hall; [reflexivity|].
  rewrite filter_cons_True by (apply Hall; now apply elem_of_cons; left).
  f_equal. apply IH. intros x Hx. apply Hall. now apply elem_of_cons; right.
Qed.

Lemma filter_none {A : Type} (P : A -> Prop) `{forall x, Decision (P x)} (l : list A) :
  (forall x, x ∈ l -> ~ P x) -> filter P l = [].
Proof.
  induction l as [|a l IH]; intros Hall; [reflexivity|].
  rewrite filter_cons_False by (apply Hall; now apply elem_of_cons; left).
  apply IH. intros x Hx. apply Hall. now apply elem_of_cons; right.
Qed.

Lemma remove_object_objects (object_id : string) (self : ComponentController) :
  objects (snd (remove_object object_id self)) = dict_del object_id (objects self) /\
  position_offset (snd (remove_object object_id self)) = position_offset self /\
  max_objects_per_row (snd (remove_object object_id self)) = max_objects_per_row self.
Proof.
  unfold remove_object.
  destruct (dict_lookup object_id (objects self)) eqn:E; cbn; [now repeat split|].
  now rewrite dict_del_missing.
Qed.

Lemma remove_objects_keys (object_ids : list string) :
  forall self,
    let self' := foldl (fun self object_id => snd (remove_object object_id self))
                       self object_ids in
    map fst (objects self')
    = filter (fun k => k ∉ object_ids) (map fst (objects self)) /\
    position_offset self' = position_offset self /\
    max_objects_per_row self' = max_objects_per_row self.
Proof.
  induction object_ids as [|object_id object_ids IH]; intros self; cbn [foldl].
  - split; [|now split]. symmetry. apply filter_all. intros k _ H.
    now apply elem_of_nil in H.
  - destruct (IH (snd (remove_object object_id self))) as (-> & -> & ->).
    destruct (remove_object_objects object_id self) as (-> & -> & ->).
    split; [|now split]. rewrite dict_del_keys, list_filter_filter.
    apply list_filter_iff. intros k. rewrite not_elem_of_cons. tauto.
Qed.

Lemma clear_all_state (self : ComponentController) :
  objects (clear_all self) = [] /\
  objects_by_type (clear_all self) = [] /\
  type_counters (clear_all self) = ∅ /\
  next_position (clear_all self) = QPoint 100 100 /\
  current_row_count (clear_all self) = 0%nat /\
  position_offset (clear_all self) = position_offset self /\
  max_objects_per_row (clear_all self) = max_objects_per_row self.
Proof.
  unfold clear_all. cbv zeta.
  cbn [objects objects_by_type type_counters next_position current_row_count
       position_offset max_objects_per_row].
  destruct (remove_objects_keys (map fst (objects self)) self) as (Hk & Ho & Hm).
  cbv zeta in Hk, Ho, Hm. split; [|now repeat split].
  apply (fmap_nil_inv fst). change (fst <$> ?l) with (map fst l). rewrite Hk.
  apply filter_none. intros k Hin H. now apply H.
Qed.

Section WithConfiguration.

Variable types : gmap string ObjectConfig.
Variable global_scale : R.

Lemma import_object_saved (obj : HydraulicObject) (self : ComponentController) :
  import_object types global_scale self (to_dict obj)
  = match HydraulicObjects.add_object types global_scale (component_id obj)
            (object_type obj) (scenePos obj) with
    | Ok placed => register_object placed (object_type obj) self
    | Raise _ => self
    end.
Proof.
  unfold import_object, from_dict, HydraulicObjects.add_object.
  cbn [saved_component_id saved_object_type saved_position saved_scale_info
       saved_current_scale to_dict].
  destruct (HydraulicObjects.__init__ types global_scale (component_id obj)
              (object_type obj)) as [fresh|e] eqn:E; cbn [bind_result]; [|reflexivity].
  cbn [default fst snd].
  replace (QPoint _ _) with (scenePos obj) by (now destruct (scenePos obj)).
  rewrite (restored_scale types global_scale _ _ _ _ _ E).
  assert (Hty : object_type fresh = object_type obj).
  { unfold HydraulicObjects.__init__ in E.
    destruct (types !! object_type obj); [|discriminate]. now injection E as <-. }
  set (restored := HydraulicObjects.setPos (scenePos obj) fresh).
  change (scenePos restored) with (scenePos obj).
  change (object_type (add_object_ports_to_scene (scenePos obj) restored))
    with (object_type fresh).
  now rewrite Hty.
Qed.

Lemma import_object_layout (obj_data : SavedObject) (self : ComponentController) :
  let self' := import_object types global_scale self obj_data in
  type_counters self' = type_counters self /\
  next_position self' = next_position self /\
  current_row_count self' = current_row_count self.
Proof.
  cbv zeta. unfold import_object.
  destruct (from_dict types global_scale obj_data); [|now repeat split].
  match goal with
  | |- context [register_object ?o ?t self] =>
      destruct (register_object_objects o t self) as (_ & _ & -> & -> & _ & _ & ->)
  end. now repeat split.
Qed.

Lemma import_objects_layout (objects_data : list SavedObject) :
  forall self,
    let self' := foldl (import_object types global_scale) self objects_data in
    type_counters self' = type_counters self /\
    next_position self' = next_position self /\
    current_row_count self' = current_row_count self.
Proof.
  induction objects_data as [|obj_data objects_data IH]; intros self; cbn [foldl];
    [now repeat split|].
  destruct (IH (import_object types global_scale self obj_data)) as (-> & -> & ->).
  apply import_object_layout.
Qed.

Lemma import_saved_objects (entries : list (string * HydraulicObject)) :
  NoDup (map fst entries) ->
  Forall (fun entry => component_id (snd entry) = fst entry) entries ->
  forall self object_id,
    dict_lookup object_id
      (objects (foldl (import_object types global_scale) self
                  (map (fun entry => to_dict (snd entry)) entries)))
    = match dict_lookup object_id entries with
      | Some obj =>
          match HydraulicObjects.add_object types global_scale object_id
                  (object_type obj) (scenePos obj) with
          | Ok placed => Some placed
          | Raise _ => dict_lookup object_id (objects self)
          end
      | None => dict_lookup object_id (objects self)
      end.
Proof.
  induction entries as [|[k obj] entries IH]; intros Hnd Hid self object_id;
    [reflexivity|].
  cbn [map fst] in Hnd. apply NoDup_cons in Hnd as [Hk Hnd].
  apply Forall_cons in Hid as [Hkey Hid]. cbn [fst snd] in Hkey.
  cbn [map foldl snd dict_lookup]. rewrite (IH Hnd Hid). rewrite import_object_saved.
  rewrite Hkey.
  destruct (decide (k = object_id)) as [<-|N].
  - apply dict_lookup_none_keys in Hk. rewrite Hk.
    destruct (HydraulicObjects.add_object types global_scale k (object_type obj)
                (scenePos obj)) as [placed|e] eqn:E; [|reflexivity].
    destruct (add_object_identity types global_scale _ _ _ _ E) as (Hc & _).
    destruct (register_object_objects placed (object_type obj) self) as (-> & _).
    rewrite Hc. apply dict_lookup_set_eq.
  - assert (Hsame : dict_lookup object_id
                      (objects match HydraulicObjects.add_object types global_scale k
                                       (object_type obj) (scenePos obj) with
                               | Ok placed => register_object placed (object_type obj) self
                               | Raise _ => self
                               end)
                    = dict_lookup object_id (objects self)).
    { destruct (HydraulicObjects.add_object types global_scale k (object_type obj)
                  (scenePos obj)) as [placed|e] eqn:E; [|reflexivity].
      destruct (add_object_identity types global_scale _ _ _ _ E) as (Hc & _).
      destruct (register_object_objects placed (object_type obj) self) as (-> & _).
      rewrite Hc. apply dict_lookup_set_ne. congruence. }
    rewrite Hsame. reflexivity.
Qed.

(** X28. Saving and restoring the objects of a controller.
    [import_objects_data] of what [export_objects_data] saved gives, under
    every identifier whose object has a known type, the object that
    [add_object] makes for this identifier and type at the saved position: its
    scale, rotation, flips and connections are those of a new object. An
    object of an unknown type is dropped, and no other identifier appears.
    After [import_objects_data] of any data the counters of the types are
    empty and the automatic layout starts again at (100, 100), as after
    [clear_all], which leaves no object. *)
Theorem import_exported_objects (self : ComponentController) :
  NoDup (map fst (objects self)) ->
  Forall (fun entry => component_id (snd entry) = fst entry) (objects self) ->
  let restored :=
    import_objects_data types global_scale (export_objects_data self) self in
  (forall object_id,
     get_object object_id restored
     = match get_object object_id self with
       | Some obj =>
           match HydraulicObjects.add_object types global_scale object_id
                   (object_type obj) (scenePos obj) with
           | Ok placed => Some placed
           | Raise _ => None
           end
       | None => None
       end) /\
  (forall objects_data,
     let imported := import_objects_data types global_scale objects_data self in
     type_counters imported = ∅ /\
     next_position imported = QPoint 100 100 /\
     current_row_count imported = 0%nat) /\
  get_all_objects (clear_all self) = [] /\
  (forall object_type, get_objects_by_type object_type (clear_all self) = []).
Proof.
  intros Hnd Hid. cbv zeta.
  destruct (clear_all_state self) as (Ho & Hb & Hc & Hn & Hr & _).
  split; [|split; [|split]].
  - intros object_id. unfold get_object, import_objects_data, export_objects_data.
    rewrite (import_saved_objects (objects self) Hnd Hid). rewrite Ho. cbn [dict_lookup].
    destruct (dict_lookup object_id (objects self)); reflexivity.
  - intros objects_data. cbv zeta. unfold import_objects_data.
    destruct (import_objects_layout objects_data (clear_all self)) as (-> & -> & ->).
    now repeat split.
  - unfold get_all_objects. now rewrite Ho.
  - intros object_type. unfold get_objects_by_type. now rewrite Hb.
Qed.

End WithConfiguration.

End ExportImport.

Section ExportImportInstance.
Import Ports HydraulicObjects Serialization ComponentController TransformController.

(** An instance of X28: a controller with one valve. *)
Lemma import_exported_objects_example :
  let self :=
    {| objects := [ ("valve_001", placed_component "valve_001" (QPoint 100 100)) ];
       objects_by_type := [ ("VALVE", [ "valve_001" ]) ];
       type_counters := {[ "VALVE" := 1%nat ]};
       next_position := QPoint 250 100;
       position_offset := QPoint 150 120;
       max_objects_per_row := 6;
       current_row_count := 1 |} in
  let restored :=
    import_objects_data valve_types 1 (export_objects_data self) self in
  (forall object_id,
     get_object object_id restored
     = match get_object object_id self with
       | Some obj =>
           match HydraulicObjects.add_object valve_types 1 object_id
                   (object_type obj) (scenePos obj) with
           | Ok placed => Some placed
           | Raise _ => None
           end
       | None => None
       end) /\
  (forall objects_data,
     let imported := import_objects_data valve_types 1 objects_data self in
     type_counters imported = ∅ /\
     next_position imported = QPoint 100 100 /\
     current_row_count imported = 0%nat) /\
  get_all_objects (clear_all self) = [] /\
  (forall object_type, get_objects_by_type object_type (clear_all self) = []).
Proof.
  intros self. apply (import_exported_objects valve_types 1 self).
  - apply NoDup_singleton.
  - constructor; [reflexivity|constructor].
Defined.

End ExportImportInstance.

(** *** The properties of a new object *)

Section PreparedProperties.
Import PropertyConstraints.

Context {Value : Type}.
Variable as_number : Value -> option R.
Variable property_constraints : string -> gmap string Constraint.
Variable default_properties : string -> gmap string Value.

Lemma validate_property_bounds (object_type property_name : string) (value : Value) :
  validate_property as_number property_constraints object_type property_name value = false
  <-> exists constraint number,
        property_constraints object_type !! property_name = Some constraint /\
        as_number value = Some number /\
        ((exists min_val, constraint_min constraint = Some min_val /\ number < min_val) \/
         (exists max_val, constraint_max constraint = Some max_val /\ max_val < number)).
Proof.
  unfold validate_property. cbv zeta.
  destruct (property_constraints object_type !! property_name) as [[min_val max_val]|].
  2:{ split; [discriminate|]. now intros (? & ? & ? & _). }
  destruct (as_number value) as [number|].
  2:{ split; [discriminate|]. now intros (? & ? & _ & ? & _). }
  cbn [constraint_min constraint_max].
  assert (Hex : forall P : Prop,
            P -> exists constraint number0,
                   Some {| constraint_min := min_val; constraint_max := max_val |}
                   = Some constraint /\ Some number = Some number0 /\
                   (constraint = {| constraint_min := min_val; constraint_max := max_val |}
                    -> number0 = number -> P)).
  { intros P HP. eexists _, _. split; [reflexivity|]. split; [reflexivity|]. auto. }
  split.
  - intros Hv. eexists _, _. split; [reflexivity|]. split; [reflexivity|].
    cbn [constraint_min constraint_max].
    destruct min_val as [m|]; [destruct (Rlt_dec number m) as [Hlt|Hge]|].
    + left. eauto.
    + destruct max_val as [M|]; [|discriminate].
      destruct (Rgt_dec number M) as [Hgt|Hle]; [|discriminate]. right. eauto.
    + destruct max_val as [M|]; [|discriminate].
      destruct (Rgt_dec number M) as [Hgt|Hle]; [|discriminate]. right. eauto.
  - intros (constraint & number0 & [= <-] & [= <-] & Hb).
    cbn [constraint_min constraint_max] in Hb.
    destruct Hb as [(m & -> & Hlt)|(M & -> & Hgt)].
    + now destruct (Rlt_dec number m).
    + destruct min_val as [m|]; [destruct (Rlt_dec number m); [reflexivity|]|];
        now destruct (Rgt_dec number M).
Qed.

Lemma prepare_loop (object_type : string) (items : list (string * Value)) :
  forall (properties : gmap string Value) (refused : list string),
    NoDup items.*1 ->
    let '(properties', refused') :=
      foldl (prepare_property as_number property_constraints object_type)
            (properties, refused) items in
    (forall key value, (key, value) ∈ items ->
       properties' !! key
       = if validate_property as_number property_constraints object_type key value
         then Some value else properties !! key) /\
    (forall key, key ∉ items.*1 -> properties' !! key = properties !! key) /\
    refused'
    = refused ++
      (List.filter
         (fun item =>
            negb (validate_property as_number property_constraints object_type
                    (fst item) (snd item)))
         items).*1.
Proof.
  induction items as [|[k0 v0] rest IH]; intros properties refused Hnd.
  - cbn. split; [|split].
    + intros key value Hin. now apply elem_of_nil in Hin.
    + reflexivity.
    + now rewrite app_nil_r.
  - cbn [fmap list_fmap fst] in Hnd. apply NoDup_cons in Hnd as [Hk0 Hnd].
    cbn [foldl List.filter fst snd]. unfold prepare_property at 2.
    assert (Hne : forall key value, (key, value) ∈ rest -> key <> k0).
    { intros key value Hin ->. apply Hk0. apply list_elem_of_fmap.
      exists (k0, value). split; [reflexivity|exact Hin]. }
    destruct (validate_property as_number property_constraints object_type k0 v0) eqn:V; cbn [negb].
    + specialize (IH (<[k0 := v0]> properties) refused Hnd).
      destruct (foldl _ _ rest) as [properties' refused'].
      destruct IH as (I1 & I2 & I3). split; [|split].
      * intros key value Hin. apply elem_of_cons in Hin as [[= -> ->]|Hin].
        -- rewrite (I2 k0 Hk0), V. apply lookup_insert_eq.
        -- rewrite (I1 key value Hin).
           destruct (validate_property as_number property_constraints object_type key value);
             [reflexivity|].
           apply lookup_insert_ne. intros <-. exact (Hne _ _ Hin eq_refl).
      * intros key Hout. rewrite fmap_cons, not_elem_of_cons in Hout.
        destruct Hout as [N Hout]. cbn [fst] in N.
        rewrite (I2 key Hout). now apply lookup_insert_ne.
      * exact I3.
    + specialize (IH properties (refused ++ [k0]) Hnd).
      destruct (foldl _ _ rest) as [properties' refused'].
      destruct IH as (I1 & I2 & I3). split; [|split].
      * intros key value Hin. apply elem_of_cons in Hin as [[= -> ->]|Hin].
        -- rewrite (I2 k0 Hk0), V. reflexivity.
        -- exact (I1 key value Hin).
      * intros key Hout. rewrite fmap_cons, not_elem_of_cons in Hout.
        destruct Hout as [N Hout]. exact (I2 key Hout).
      * rewrite I3, fmap_cons. cbn [fst]. now rewrite <- app_assoc.
Qed.

(** X29. The properties of a new object. [prepare_object_properties] starts
    from the default properties of the type and takes from the custom
    properties the values that [validate_property] accepts: a refused value
    leaves the default, or no value, and its key is reported, in the order
    of the dictionary. [validate_property] refuses a value exactly when
    the type has a constraint for the property, the value is a number, and
    the number is below the minimum or above the maximum of the
    constraint; so a number taken from the custom properties is within the
    bounds of its constraint. *)
Theorem prepare_object_properties_valid (object_type : string)
    (custom_properties : list (string * Value)) :
  NoDup custom_properties.*1 ->
  let '(properties, refused) :=
    prepare_object_properties as_number property_constraints default_properties
      object_type (Some custom_properties) in
  let defaults := get_default_properties default_properties object_type in
  (forall key value, (key, value) ∈ custom_properties ->
     properties !! key
     = if validate_property as_number property_constraints object_type key value
       then Some value else defaults !! key) /\
  (forall key, key ∉ custom_properties.*1 -> properties !! key = defaults !! key) /\
  refused
  = (List.filter
       (fun item =>
          negb (validate_property as_number property_constraints object_type
                  (fst item) (snd item)))
       custom_properties).*1 /\
  (forall key value constraint number,
     (key, value) ∈ custom_properties ->
     validate_property as_number property_constraints object_type key value = true ->
     property_constraints object_type !! key = Some constraint ->
     as_number value = Some number ->
     (forall min_val, constraint_min constraint = Some min_val -> min_val <= number) /\
     (forall max_val, constraint_max constraint = Some max_val -> number <= max_val)) /\
  prepare_object_properties as_number property_constraints default_properties
    object_type None = (defaults, []).
Proof.
  intros Hnd. unfold prepare_object_properties. cbv zeta.
  pose proof (prepare_loop object_type custom_properties
                (get_default_properties default_properties object_type) [] Hnd) as H.
  assert (Hb : forall key value constraint number,
            validate_property as_number property_constraints object_type key value = true ->
            property_constraints object_type !! key = Some constraint ->
            as_number value = Some number ->
            (forall min_val, constraint_min constraint = Some min_val -> min_val <= number) /\
            (forall max_val, constraint_max constraint = Some max_val -> number <= max_val)).
  { intros key value constraint number Hv Hc Hn.
    assert (Hnot : validate_property as_number property_constraints object_type key value
                   <> false) by (rewrite Hv; discriminate).
    rewrite validate_property_bounds in Hnot. split.
    - intros m Hm. apply Rnot_lt_le. intros Hlt. apply Hnot.
      exists constraint, number. split; [exact Hc|]. split; [exact Hn|]. left. eauto.
    - intros M HM. apply Rnot_lt_le. intros Hlt. apply Hnot.
      exists constraint, number. split; [exact Hc|]. split; [exact Hn|]. right. eauto. }
  destruct custom_properties as [|item rest].
  - split; [|split; [|split; [|split]]]; try reflexivity.
    + intros key value Hin. now apply elem_of_nil in Hin.
    + intros key value constraint number Hin. now apply elem_of_nil in Hin.
  - destruct (foldl _ _ (item :: rest)) as [properties refused].
    destruct H as (H1 & H2 & H3). split; [exact H1|]. split; [exact H2|].
    split; [exact H3|]. split; [|reflexivity].
    intros key value constraint number _. apply Hb.
Qed.

End PreparedProperties.

Section PreparedPropertiesInstance.
Import PropertyConstraints.

(** An instance of X29: the values are optional numbers, a valve has a
    constraint on its diameter, and the custom diameter is too small. *)
Lemma prepare_object_properties_valid_example :
  let as_number (value : option R) := value in
  let property_constraints (object_type : string) : gmap string Constraint :=
    {[ "diameter" := {| constraint_min := Some 10; constraint_max := Some 1000 |} ]} in
  let default_properties (object_type : string) : gmap string (option R) :=
    {[ "diameter" := Some 100 ]} in
  let custom_properties := [ ("diameter", Some 5); ("status", None) ] in
  let validate := validate_property as_number property_constraints in
  let '(properties, refused) :=
    prepare_object_properties as_number property_constraints default_properties
      "VALVE" (Some custom_properties) in
  let defaults := get_default_properties default_properties "VALVE" in
  (forall key value, (key, value) ∈ custom_properties ->
     properties !! key
     = if validate "VALVE" key value then Some value else defaults !! key) /\
  (forall key, key ∉ custom_properties.*1 -> properties !! key = defaults !! key) /\
  refused
  = (List.filter (fun item => negb (validate "VALVE" (fst item) (snd item)))
                 custom_properties).*1 /\
  (forall key value constraint number,
     (key, value) ∈ custom_properties ->
     validate "VALVE" key value = true ->
     property_constraints "VALVE" !! key = Some constraint ->
     as_number value = Some number ->
     (forall min_val, constraint_min constraint = Some min_val -> min_val <= number) /\
     (forall max_val, constraint_max constraint = Some max_val -> number <= max_val)) /\
  prepare_object_properties as_number property_constraints default_properties
    "VALVE" None = (defaults, []).
Proof.
  intros as_number property_constraints default_properties custom_properties.
  apply (prepare_object_properties_valid as_number property_constraints
           default_properties "VALVE" custom_properties).
  apply (bool_decide_unpack _). vm_compute. exact I.
Defined.

End PreparedPropertiesInstance.

(** *** A new pipe takes the place of no other *)

Section FreshPipeIdentifiers.
Import HydraulicObjects ConnectionController.

Lemma append_inj_l (prefix a b : string) :
  String.append prefix a = String.append prefix b -> a = b.
Proof.
  induction prefix as [|c prefix IH]; [exact (fun H => H)|].
  change (String.append (String c prefix) ?t) with (String c (String.append prefix t)).
  intros [= H]. exact (IH H).
Qed.

Lemma format_pipe_id_inj (a b : nat) : format_pipe_id a = format_pipe_id b -> a = b.
Proof.
  intros H. apply format_counter_inj.
  exact (append_inj_l "pipe_" _ _ H).
Qed.

Lemma run_ids (comps : list HydraulicObject) (events : list Event) :
  pipe_ids_ok (run comps events).
Proof.
  unfold run.
  assert (H : pipe_ids_ok (__init__ comps)).
  { intros pipe_id pipe L. cbn in L. now rewrite lookup_empty in L. }
  revert H. generalize (__init__ comps).
  induction events as [|event events IH]; intros self H; [exact H|].
  cbn [foldl]. apply IH. now apply handle_ids.
Qed.

(** X30. After any sequence of events, the identifier that
    [finish_pipe_construction] gives to a new pipe is the identifier of no
    registered pipe: when it registers a pipe, the other pipes stay
    registered as they were and there is one pipe more. Two numbers make two
    identifiers. *)
Theorem new_pipe_id_is_fresh (comps : list HydraulicObject) (events : list Event)
    (end_component_id end_port_id : string) :
  let self := run comps events in
  let self' := finish_pipe_construction end_component_id end_port_id self in
  let new_pipe_id := format_pipe_id (S (pipe_counter self)) in
  pipes self !! new_pipe_id = None /\
  (self' = self \/
   exists pipe,
     pipes self' !! new_pipe_id = Some pipe /\
     (forall pipe_id, pipe_id <> new_pipe_id ->
                      pipes self' !! pipe_id = pipes self !! pipe_id) /\
     size (pipes self') = S (size (pipes self))) /\
  (forall a b, format_pipe_id a = format_pipe_id b -> a = b).
Proof.
  cbv zeta.
  assert (Hfresh : pipes (run comps events)
                   !! format_pipe_id (S (pipe_counter (run comps events))) = None).
  { destruct (pipes (run comps events)
              !! format_pipe_id (S (pipe_counter (run comps events)))) as [pipe|] eqn:E;
      [|reflexivity].
    destruct (run_ids comps events _ _ E) as (_ & k & Hk & Heq).
    apply format_pipe_id_inj in Heq. lia. }
  split; [exact Hfresh|]. split; [|exact format_pipe_id_inj].
  destruct (finish_pipe_construction_registers end_component_id end_port_id
              (run comps events)) as [H|(sr & sp & ec & pipe & _ & _ & _ & _ & H)];
    [now left|right].
  exists pipe. rewrite H. split; [apply lookup_insert_eq|]. split.
  - intros pipe_id N. now apply lookup_insert_ne.
  - now apply map_size_insert_None.
Qed.

End FreshPipeIdentifiers.
